(** * Running-session analysis: lap classification, lap segmentation, moving time

    A shallow embedding of [src/server/extract_fit_file.py] and
    [src/server/extract_fit_file_for_V3.py].

    Conventions of the embedding.
    - A pandas [float64] cell is a [float]: either [NaN] or a finite value
      carried by a rational [Q].  Arithmetic on finite values is exact;
      every comparison with [NaN] is [false], as in IEEE 754 and pandas.
      The rational stands for the decimal value the decoder reports; the
      code computes the same values wherever its sums and differences are
      exact in binary64, as on timestamps in whole seconds.
      A [datetime64] cell is a [float] counting seconds, [NaN] standing
      for [NaT].
    - The moving-time block is also given in binary64, the arithmetic of
      the code, in [Binary64]: there a column is a list of IEEE 754
      numbers and every operation rounds.
    - A column is a [list] of cells in positional (RangeIndex) order.  A
      column that may be absent from a DataFrame is an [option] of a list;
      reading an absent column is a [KeyError].
    - A boolean mask is a [list bool]; [df.loc[mask, c] = v] is [loc_set].
    - Exceptions are the [Raise] branch of [result].
    - A decoder message carries the fields the three stages compute with:
      [timestamp] and [distance] of a record, [start_time] and [avg_speed]
      of a lap; a [session] message the fields the activity summary
      keeps.  Unit conversions of the other fields are left out.  The
      per-lap elapsed time and the column order are functions of the
      columns they read.
    - [sort_values] and [sorted] are a stable insertion sort.  pandas may
      order rows with equal timestamps differently; the invariants below
      hold for every distance column, hence for every such order. *)

From Stdlib Require Import QArith Qround Qabs Lqa Lia ZArith String Ascii Sorted.
From Stdlib Require Import DecimalString DecimalZ DecimalPos.
From Stdlib Require OrdersEx.
From Stdlib Require Import Floats.
From stdpp Require Import base option list.

Open Scope Q_scope.

(** ** Floating-point cells *)

Inductive float : Type :=
| NaN
| Fin (q : Q).

Definition Qlt_bool (x y : Q) : bool := negb (Qle_bool y x).

(** [x > c], [x < c], [x >= c], [x <= c] between two cells. *)
Definition fgt (x y : float) : bool :=
  match x, y with Fin a, Fin b => Qlt_bool b a | _, _ => false end.
Definition flt (x y : float) : bool :=
  match x, y with Fin a, Fin b => Qlt_bool a b | _, _ => false end.
Definition fge (x y : float) : bool :=
  match x, y with Fin a, Fin b => Qle_bool b a | _, _ => false end.
Definition fle (x y : float) : bool :=
  match x, y with Fin a, Fin b => Qle_bool a b | _, _ => false end.

Definition fsub (x y : float) : float :=
  match x, y with Fin a, Fin b => Fin (a - b) | _, _ => NaN end.
Definition fadd (x y : float) : float :=
  match x, y with Fin a, Fin b => Fin (a + b) | _, _ => NaN end.
Definition fmul (x y : float) : float :=
  match x, y with Fin a, Fin b => Fin (a * b) | _, _ => NaN end.

Definition isna (x : float) : bool :=
  match x with NaN => true | Fin _ => false end.

(** [Series.between(lo, hi, inclusive='both')]. *)
Definition between (lo hi : float) (x : float) : bool := fge x lo && fle x hi.

(** Equality of cells up to the representation of the rational. *)
Definition feq (x y : float) : Prop :=
  match x, y with
  | NaN, NaN => True
  | Fin a, Fin b => a == b
  | _, _ => False
  end.

(** [numpy.rint]: nearest integer, ties to the even one. *)
Definition rint (q : Q) : Z :=
  let f := Qfloor q in
  let r := q - inject_Z f in
  if Qlt_bool r (1 # 2) then f
  else if Qlt_bool (1 # 2) r then (f + 1)%Z
  else if Z.even f then f else (f + 1)%Z.

(** [numpy.round(x, d)] for [d = 1] and [d = 2]: scale, [rint], unscale. *)
Definition round_to (scale : positive) (q : Q) : Q :=
  Qred (rint (q * inject_Z (Zpos scale)) # scale).

Definition np_round (decimals : nat) (x : float) : float :=
  match x with
  | NaN => NaN
  | Fin q => Fin (round_to (Pos.of_nat (10 ^ decimals)) q)
  end.

(** ** Masks and positional helpers *)

(** [col.loc[mask] = v]. *)
Definition loc_set {A} (mask : list bool) (v : A) (col : list A) : list A :=
  zip_with (fun (m : bool) old => if m then v else old) mask col.

(** [numpy.where(mask, a, b)]. *)
Definition np_where {A} (mask : list bool) (a b : list A) : list A :=
  zip_with (fun (m : bool) (p : A * A) => if m then p.1 else p.2) mask (zip a b).

Definition mask_and (m1 m2 : list bool) : list bool := zip_with andb m1 m2.

(** The RangeIndex [0 .. n-1] of a column. *)
Definition index {A} (col : list A) : list nat := seq 0 (length col).

(** Index labels of the rows selected by [p], in row order. *)
Definition index_where {A} (p : A -> bool) (col : list A) : list nat :=
  List.map fst (List.filter (fun ix : nat * A => p ix.2) (zip (index col) col)).

(** [Series.shift(1)]: the value of the previous row, missing on row 0. *)
Definition shift1 {A} (col : list A) : list (option A) :=
  take (length col) (None :: List.map Some col).

(** ** Lap classification *)

Inductive LapNature : Type :=
| Warm_up
| Intensity
| Recovery
| Cool_down
| Unknown.

Definition nature_eqb (a b : LapNature) : bool :=
  match a, b with
  | Warm_up, Warm_up | Intensity, Intensity | Recovery, Recovery
  | Cool_down, Cool_down | Unknown, Unknown => true
  | _, _ => false
  end.

Definition INTENSITY_SPEED_THRESHOLD : float := Fin (1705 # 100).
Definition RECOVERY_SPEED_THRESHOLD : float := Fin (865 # 100).

(** The lap DataFrame as far as the classifier reads it: its number of
    rows and its [avg_speed_kmh] column, when it has one. *)
Record LapsFrame : Type := {
  n_laps : nat;
  avg_speed_kmh : option (list float)
}.

Definition laps_of_speeds (speeds : list float) : LapsFrame :=
  {| n_laps := length speeds; avg_speed_kmh := Some speeds |}.

Definition in_band (speeds : list float) : list bool :=
  List.map (between RECOVERY_SPEED_THRESHOLD INTENSITY_SPEED_THRESHOLD) speeds.

(** Step 1: everything [Unknown], then [Intensity] above the threshold. *)
Definition mark_intensity (speeds : list float) : list LapNature :=
  loc_set (List.map (fun v => fgt v INTENSITY_SPEED_THRESHOLD) speeds) Intensity
          (List.map (fun _ => Unknown) speeds).

(** Steps 2 and 3: warm-up band before the first intensity lap, cool-down
    band after the last one. *)
Definition mark_warm_up (first : nat) (speeds : list float)
    (nature : list LapNature) : list LapNature :=
  loc_set (mask_and (List.map (fun i => i <? first)%nat (index speeds)) (in_band speeds))
          Warm_up nature.

Definition mark_cool_down (last : nat) (speeds : list float)
    (nature : list LapNature) : list LapNature :=
  loc_set (mask_and (List.map (fun i => last <? i)%nat (index speeds)) (in_band speeds))
          Cool_down nature.

(** Step 4: slow laps whose previous row, read from the shifted column,
    is [Intensity]. *)
Definition prev_is_intensity (prev_lap_nature : list (option LapNature)) : list bool :=
  List.map (fun p => match p with Some n => nature_eqb n Intensity | None => false end)
           prev_lap_nature.

Definition mark_recovery (speeds : list float) (nature : list LapNature) : list LapNature :=
  let prev_lap_nature := shift1 nature in
  let mask_low_speed := List.map (fun v => flt v RECOVERY_SPEED_THRESHOLD) speeds in
  let mask_recovery := mask_and mask_low_speed (prev_is_intensity prev_lap_nature) in
  loc_set mask_recovery Recovery nature.

(** Step 5: whatever is still [Unknown] inside the work block. *)
Definition fill_work_block (first last : nat) (nature : list LapNature) : list LapNature :=
  let mask_remaining_unknown :=
    mask_and (mask_and (List.map (fun i => first <=? i)%nat (index nature))
                       (List.map (fun i => i <=? last)%nat (index nature)))
             (List.map (fun n => nature_eqb n Unknown) nature) in
  loc_set mask_remaining_unknown Recovery nature.

Definition index_min (i : nat) (rest : list nat) : nat := foldr Nat.min i rest.
Definition index_max (i : nat) (rest : list nat) : nat := foldr Nat.max i rest.

(** The labels as they stand when the shifted column is built. *)
Definition before_recovery (first last : nat) (speeds : list float) : list LapNature :=
  mark_cool_down last speeds (mark_warm_up first speeds (mark_intensity speeds)).

Definition classify_lap_nature_by_speed (df_laps : LapsFrame) : list LapNature :=
  match avg_speed_kmh df_laps with
  | None => replicate (n_laps df_laps) Unknown
  | Some [] => []
  | Some speeds =>
      let nature := mark_intensity speeds in
      match index_where (fun n => nature_eqb n Intensity) nature with
      | i :: rest =>
          let first_intensity_idx := index_min i rest in
          let last_intensity_idx := index_max i rest in
          fill_work_block first_intensity_idx last_intensity_idx
            (mark_recovery speeds
               (before_recovery first_intensity_idx last_intensity_idx speeds))
      | [] =>
          loc_set (List.map (fun n => nature_eqb n Unknown) nature) Warm_up nature
      end
  end.

(** ** Moving time *)

Definition PAUSE_TIME_THRESHOLD_S : float := Fin 10.
Definition PAUSE_DISTANCE_THRESHOLD_M : float := Fin 1.

(** [Series.diff()]: row minus previous row, [NaN] on row 0. *)
Definition diff (col : list float) : list float := zip_with fsub col (NaN :: col).

(** [Series.fillna(0)]. *)
Definition fillna0 (col : list float) : list float :=
  List.map (fun x => if isna x then Fin 0 else x) col.

(** [Series.cumsum()]: a missing cell stays missing and is skipped by the
    running total. *)
Fixpoint cumsum_from (acc : Q) (col : list float) : list float :=
  match col with
  | [] => []
  | NaN :: rest => NaN :: cumsum_from acc rest
  | Fin q :: rest => Fin (acc + q) :: cumsum_from (acc + q) rest
  end.

Definition cumsum (col : list float) : list float := cumsum_from 0 col.

(** The pause-correction column, after [df.loc[0, ...] = 0.0], in exact
    arithmetic; [Binary64.pause_correction_s] is the same block in the
    arithmetic of the code. *)
Definition pause_correction_s (elapsed_time_s distance : list float) : list float :=
  let dt := diff elapsed_time_s in
  let dd := fillna0 (diff distance) in
  let is_break_real :=
    mask_and (List.map (fun x => fge x PAUSE_TIME_THRESHOLD_S) dt)
             (List.map (fun x => fle x PAUSE_DISTANCE_THRESHOLD_M) dd) in
  <[0%nat := Fin 0]>
    (np_where is_break_real (List.map (fun x => fsub x (Fin 1)) dt)
                            (List.map (fun _ => Fin 0) dt)).

(** The moving-time block shared by [parse_fit] and [parse_fit_records]:
    the [moving_elapsed_time_s] column from the two columns it reads. *)
Definition moving_time (elapsed_time_s distance : list float) : list float :=
  let cumulative_pause_s := cumsum (pause_correction_s elapsed_time_s distance) in
  List.map (np_round 1) (zip_with fsub elapsed_time_s cumulative_pause_s).

(** ** The moving-time block in binary64 *)

(** The block of [parse_fit] (l.140-154) and of [parse_fit_records]
    (l.83-101) in the arithmetic the code runs in: a cell is an IEEE 754
    binary64 number, every operation is rounded to nearest, ties to even,
    and a missing value is its NaN. *)
Module Binary64.

Definition isna (x : PrimFloat.float) : bool := negb (PrimFloat.eqb x x).

Definition PAUSE_TIME_THRESHOLD_S : PrimFloat.float := 10%float.
Definition PAUSE_DISTANCE_THRESHOLD_M : PrimFloat.float := 1%float.

(** [Series.diff()]. *)
Definition diff (col : list PrimFloat.float) : list PrimFloat.float :=
  zip_with PrimFloat.sub col (PrimFloat.nan :: col).

(** [Series.fillna(0)]. *)
Definition fillna0 (col : list PrimFloat.float) : list PrimFloat.float :=
  List.map (fun x => if isna x then 0%float else x) col.

(** [Series.cumsum()]: the running total of the column with its missing
    cells replaced by 0.0, a missing cell staying missing. *)
Fixpoint cumsum_from (acc : PrimFloat.float) (col : list PrimFloat.float)
    : list PrimFloat.float :=
  match col with
  | [] => []
  | x :: rest =>
      if isna x then PrimFloat.nan :: cumsum_from (acc + 0)%float rest
      else (acc + x)%float :: cumsum_from (acc + x)%float rest
  end.

Definition cumsum (col : list PrimFloat.float) : list PrimFloat.float :=
  match col with
  | [] => []
  | x :: rest =>
      if isna x then PrimFloat.nan :: cumsum_from 0%float rest
      else x :: cumsum_from x rest
  end.

(** [numpy.rint]: below [2^52] in magnitude, adding and subtracting
    [2^52] rounds to the nearest integer, ties to even; from [2^52] on
    every binary64 number is an integer.  The sign of a zero result is
    that of the argument. *)
Definition rint (x : PrimFloat.float) : PrimFloat.float :=
  let two52 := 4503599627370496%float in
  if PrimFloat.ltb (PrimFloat.abs x) two52 then
    if PrimFloat.ltb 0%float x then ((x + two52) - two52)%float
    else if PrimFloat.ltb x 0%float then (- ((- x + two52) - two52))%float
    else x
  else x.

(** [numpy.round(x, 1)]: scale by 10, [rint], divide by 10. *)
Definition np_round1 (x : PrimFloat.float) : PrimFloat.float :=
  (rint (x * 10) / 10)%float.

Definition pause_correction_s (elapsed_time_s distance : list PrimFloat.float)
    : list PrimFloat.float :=
  let dt := diff elapsed_time_s in
  let dd := fillna0 (diff distance) in
  let is_break_real :=
    mask_and (List.map (fun x => PrimFloat.leb PAUSE_TIME_THRESHOLD_S x) dt)
             (List.map (fun x => PrimFloat.leb x PAUSE_DISTANCE_THRESHOLD_M) dd) in
  <[0%nat := 0%float]>
    (np_where is_break_real (List.map (fun x => (x - 1)%float) dt)
                            (List.map (fun _ => 0%float) dt)).

Definition moving_time (elapsed_time_s distance : list PrimFloat.float)
    : list PrimFloat.float :=
  let cumulative_pause_s := cumsum (pause_correction_s elapsed_time_s distance) in
  List.map np_round1 (zip_with PrimFloat.sub elapsed_time_s cumulative_pause_s).

(** The specification's wording of the same columns, sample by sample,
    in the same arithmetic. *)
Definition spec_dt (es : list PrimFloat.float) (i : nat) : PrimFloat.float :=
  (nth i es PrimFloat.nan - nth (i - 1) es PrimFloat.nan)%float.

(** [dd] defaults to 0 where a distance is not available. *)
Definition spec_dd (ds : list PrimFloat.float) (i : nat) : PrimFloat.float :=
  let dd := (nth i ds PrimFloat.nan - nth (i - 1) ds PrimFloat.nan)%float in
  if isna dd then 0%float else dd.

Definition spec_real_pause (es ds : list PrimFloat.float) (i : nat) : bool :=
  (0 <? i)%nat && PrimFloat.leb 10%float (spec_dt es i)
  && PrimFloat.leb (spec_dd ds i) 1%float.

Definition spec_pause_correction (es ds : list PrimFloat.float) (i : nat)
    : PrimFloat.float :=
  if spec_real_pause es ds i then (spec_dt es i - 1)%float else 0%float.

Fixpoint sum_to (f : nat -> PrimFloat.float) (i : nat) : PrimFloat.float :=
  match i with
  | O => f O
  | S k => (sum_to f k + f (S k))%float
  end.

Definition spec_moving (es ds : list PrimFloat.float) (i : nat) : PrimFloat.float :=
  np_round1 (nth i es PrimFloat.nan - sum_to (spec_pause_correction es ds) i)%float.

End Binary64.

(** ** Display formatting *)

(** Python's [int(x)] on a float: truncation toward zero. *)
Definition py_int (q : Q) : Z := Z.quot (Qnum q) (Zpos (Qden q)).

(** [f"{z}"] and [f"{z:02d}"] on an [int]. *)
Definition fmt_d (z : Z) : string := NilZero.string_of_int (Z.to_int z).

Definition fmt_02d (z : Z) : string :=
  let s := fmt_d z in
  if (String.length s <? 2)%nat then String "0" s else s.

Definition format_seconds_to_min_sec (seconds : float) : option string :=
  match seconds with
  | NaN => None
  | Fin q =>
      let total_seconds := py_int q in
      let minutes := (total_seconds / 60)%Z in
      let seconds := (total_seconds mod 60)%Z in
      Some (fmt_02d minutes ++ ":" ++ fmt_02d seconds)%string
  end.

Definition format_seconds_to_hms (seconds : float) : option string :=
  match seconds with
  | NaN => None
  | Fin q =>
      let total_seconds := py_int q in
      let hours := (total_seconds / 3600)%Z in
      let minutes := ((total_seconds mod 3600) / 60)%Z in
      let secs := (total_seconds mod 60)%Z in
      if (0 <? hours)%Z
      then Some (fmt_d hours ++ ":" ++ fmt_02d minutes ++ ":" ++ fmt_02d secs)%string
      else Some (fmt_02d minutes ++ ":" ++ fmt_02d secs)%string
  end.

(** ** Decoder messages and tables *)

(** A [record] message: the two fields the pipeline computes with.  A
    field the message does not carry is [None]; a field it carries holds a
    number.  A field carried with the value [None] is not represented. *)
Record RecordMsg : Type := {
  rec_timestamp : option Q;
  rec_distance : option Q
}.

(** What [pd.to_numeric(..., errors='coerce')] can meet in [avg_speed]. *)
Inductive FieldValue : Type :=
| Number (q : Q)
| Unparseable.

(** A [lap] message.  [lap_start_time] is [None] when the key is missing
    or its value is falsy. *)
Record LapMsg : Type := {
  lap_start_time : option Q;
  lap_avg_speed : option FieldValue
}.

(** What [FitFile.get_messages] yields for ['record'] and ['lap']. *)
Record FitFile : Type := {
  records : list RecordMsg;
  laps : list LapMsg
}.

Inductive exn : Type :=
| RuntimeError (msg : string)
| KeyError (key : string).

Inductive result (A : Type) : Type :=
| Ok (a : A)
| Raise (e : exn).
Arguments Ok {A} a.
Arguments Raise {A} e.

(** The records DataFrame: each column the pipeline reads or writes,
    [None] while the DataFrame does not have it. *)
Record DataFrame : Type := {
  timestamp : option (list float);
  distance : option (list float);
  elapsed_time_s : option (list float);
  lap_number : option (list nat);
  lap_nature : option (list LapNature);
  moving_elapsed_time_s : option (list float);
  elapsed_time_min_sec : option (list (option string));
  elapsed_time_hms : option (list (option string))
}.

Definition to_cell (v : option Q) : float :=
  match v with Some q => Fin q | None => NaN end.

(** [pd.DataFrame(rows)] has a column as soon as one row has the key. *)
Definition has_column {A B} (field : A -> option B) (rows : list A) : bool :=
  existsb (fun r => bool_decide (is_Some (field r))) rows.

Definition column {A} (field : A -> option Q) (rows : list A) : list float :=
  List.map (fun r => to_cell (field r)) rows.

(** Ascending order with missing values last, as [sort_values] and
    [sorted] place them. *)
Definition na_last_le (x y : float) : bool :=
  match x, y with
  | Fin a, Fin b => Qle_bool a b
  | _, NaN => true
  | NaN, Fin _ => false
  end.

Fixpoint insert_by {A} (key : A -> float) (x : A) (l : list A) : list A :=
  match l with
  | [] => [x]
  | y :: l' => if na_last_le (key x) (key y) then x :: l else y :: insert_by key x l'
  end.

(** A stable sort on [key]. *)
Definition sort_by {A} (key : A -> float) (l : list A) : list A :=
  foldr (insert_by key) [] l.

(** [Series.max()], skipping missing values; missing when there is none. *)
Definition series_max (col : list float) : float :=
  foldr (fun x m => match x, m with
                    | NaN, _ => m
                    | Fin _, NaN => x
                    | Fin a, Fin b => if Qle_bool a b then m else x
                    end) NaN col.

(** ** Lap segmentation *)

(** [laps_sorted]: the laps with a usable start time, by start time. *)
Definition laps_sorted (laps : list LapMsg) : list LapMsg :=
  sort_by (fun lap => to_cell (lap_start_time lap))
          (List.filter (fun lap => bool_decide (is_Some (lap_start_time lap))) laps).

(** One turn of the loop over [enumerate(laps_sorted, 1)]. *)
Definition assign_lap (starts : list float) (timestamps : list float)
    (lap_numbers : list nat) (lap : nat * float) : list nat :=
  let '(lap_num, lap_start) := lap in
  let next_lap_start :=
    if (lap_num <? length starts)%nat then default NaN (starts !! lap_num)
    else fadd (series_max timestamps) (Fin 1) in
  let mask := mask_and (List.map (fun t => fge t lap_start) timestamps)
                       (List.map (fun t => flt t next_lap_start) timestamps) in
  loc_set mask lap_num lap_numbers.

(** The [lap_number] column: the loop, then the fallback for rows no
    lap claimed. *)
Definition assign_lap_numbers (starts timestamps : list float) : list nat :=
  let lap_numbers :=
    foldl (assign_lap starts timestamps) (List.map (fun _ => 0%nat) timestamps)
          (zip (seq 1 (length starts)) starts) in
  loc_set (List.map (fun k => k =? 0)%nat lap_numbers) (length starts) lap_numbers.

Definition MS_TO_KMH : float := Fin (36 # 10).

Definition to_numeric (v : option FieldValue) : float :=
  match v with Some (Number q) => Fin q | _ => NaN end.

(** The [avg_speed_kmh] column of the lap summary. *)
Definition lap_speeds_kmh (sorted : list LapMsg) : list float :=
  List.map (fun lap => np_round 2 (fmul (to_numeric (lap_avg_speed lap)) MS_TO_KMH)) sorted.

(** [df.merge(df_nature, on='lap_number', how='left')] followed by
    [fillna('Unknown')]. *)
Definition merge_nature (lap_numbers : list nat) (df_nature : list (nat * LapNature))
    : list LapNature :=
  List.map (fun k => match List.find (fun row => (row.1 =? k)%nat) df_nature with
                     | Some row => row.2
                     | None => Unknown
                     end) lap_numbers.

Definition set_laps (df : DataFrame) (numbers : list nat) (natures : list LapNature)
    : DataFrame :=
  {| timestamp := timestamp df; distance := distance df;
     elapsed_time_s := elapsed_time_s df;
     lap_number := Some numbers; lap_nature := Some natures;
     moving_elapsed_time_s := moving_elapsed_time_s df;
     elapsed_time_min_sec := elapsed_time_min_sec df;
     elapsed_time_hms := elapsed_time_hms df |}.

Definition add_lap_info (n_rows : nat) (fitfile : FitFile) (df : DataFrame) : DataFrame :=
  let single_lap := set_laps df (replicate n_rows 1%nat) (replicate n_rows Unknown) in
  match timestamp df with
  | None => single_lap
  | Some timestamps =>
      match laps fitfile with
      | [] => single_lap
      | _ =>
          match laps_sorted (laps fitfile) with
          | [] => single_lap
          | sorted =>
              let starts := column lap_start_time sorted in
              let numbers := assign_lap_numbers starts timestamps in
              if has_column lap_avg_speed sorted then
                let df_lap_summary :=
                  {| n_laps := length sorted;
                     avg_speed_kmh := Some (lap_speeds_kmh sorted) |} in
                let natures := classify_lap_nature_by_speed df_lap_summary in
                set_laps df numbers
                  (merge_nature numbers (zip (seq 1 (length sorted)) natures))
              else set_laps df numbers (replicate n_rows Unknown)
          end
      end
  end.

(** ** The two record pipelines *)

Definition no_record : exn := RuntimeError "Aucun record trouvé dans le fichier .fit".

(** Steps 1 and 2 of both pipelines: the DataFrame of the rows, sorted on
    [timestamp] when it has that column, with [elapsed_time_s]; [V3]
    rounds it to one decimal. *)
Definition normalize (v3 : bool) (rows : list RecordMsg) : DataFrame :=
  let has_ts := has_column rec_timestamp rows in
  let rows := if has_ts then sort_by (fun r => to_cell (rec_timestamp r)) rows else rows in
  let ts := column rec_timestamp rows in
  let elapsed := List.map (fun t => fsub t (default NaN (head ts))) ts in
  {| timestamp := if has_ts then Some ts else None;
     distance := if has_column rec_distance rows
                 then Some (column rec_distance rows) else None;
     elapsed_time_s :=
       if has_ts then Some (if v3 then List.map (np_round 1) elapsed else elapsed)
       else None;
     lap_number := None; lap_nature := None;
     moving_elapsed_time_s := None;
     elapsed_time_min_sec := None; elapsed_time_hms := None |}.

(** The moving-time stage: runs when both columns are there. *)
Definition moving_time_stage (df : DataFrame) : DataFrame :=
  match elapsed_time_s df, distance df with
  | Some e, Some d =>
      {| timestamp := timestamp df; distance := distance df;
         elapsed_time_s := elapsed_time_s df;
         lap_number := lap_number df; lap_nature := lap_nature df;
         moving_elapsed_time_s := Some (moving_time e d);
         elapsed_time_min_sec := elapsed_time_min_sec df;
         elapsed_time_hms := elapsed_time_hms df |}
  | _, _ => df
  end.

Definition set_min_sec (df : DataFrame) (c : list (option string)) : DataFrame :=
  {| timestamp := timestamp df; distance := distance df;
     elapsed_time_s := elapsed_time_s df;
     lap_number := lap_number df; lap_nature := lap_nature df;
     moving_elapsed_time_s := moving_elapsed_time_s df;
     elapsed_time_min_sec := Some c;
     elapsed_time_hms := elapsed_time_hms df |}.

Definition set_hms (df : DataFrame) (c : list (option string)) : DataFrame :=
  {| timestamp := timestamp df; distance := distance df;
     elapsed_time_s := elapsed_time_s df;
     lap_number := lap_number df; lap_nature := lap_nature df;
     moving_elapsed_time_s := moving_elapsed_time_s df;
     elapsed_time_min_sec := elapsed_time_min_sec df;
     elapsed_time_hms := Some c |}.

(** [parse_fit] of [extract_fit_file.py]. *)
Definition parse_fit (ff : FitFile) : result DataFrame :=
  match records ff with
  | [] => Raise no_record
  | rows =>
      let df := normalize false rows in
      let df := add_lap_info (length rows) ff df in
      let df := moving_time_stage df in
      match elapsed_time_s df with
      | Some _ =>
          match moving_elapsed_time_s df with
          | Some m => Ok (set_min_sec df (List.map format_seconds_to_min_sec m))
          | None => Raise (KeyError "moving_elapsed_time_s")
          end
      | None => Ok df
      end
  end.

(** [parse_fit_records] of [extract_fit_file_for_V3.py]. *)
Definition parse_fit_records (fitfile : FitFile) : result DataFrame :=
  match records fitfile with
  | [] => Raise no_record
  | rows =>
      let df := normalize true rows in
      let df := moving_time_stage df in
      match moving_elapsed_time_s df with
      | Some m => Ok (set_hms df (List.map format_seconds_to_hms m))
      | None => Ok df
      end
  end.

(** [main] of [extract_fit_file.py], as far as the records table goes: the
    status of the JSON report and the table written to the records CSV,
    if one is written.  The lap export that follows a successful
    [parse_fit] is taken to succeed. *)
Record Report : Type := {
  status : string;
  records_csv : option DataFrame
}.

Definition main (ff : FitFile) : Report :=
  match parse_fit ff with
  | Ok df => {| status := "success"; records_csv := Some df |}
  | Raise _ => {| status := "error"; records_csv := None |}
  end.

(** ** The specification's reading of the algorithms *)

(** Step 6 as the specification words it: one left-to-right loop over the
    laps that carries the label already assigned to the previous lap
    ([None] before the first lap). *)
Definition follows_intensity (prev : option LapNature) : bool :=
  match prev with Some Intensity => true | _ => false end.

Fixpoint sequential_recovery (prev : option LapNature)
    (speeds : list float) (nature : list LapNature) : list LapNature :=
  match speeds, nature with
  | v :: speeds', n :: nature' =>
      let n' := if flt v RECOVERY_SPEED_THRESHOLD && follows_intensity prev
                then Recovery else n in
      n' :: sequential_recovery (Some n') speeds' nature'
  | _, _ => []
  end.

Fixpoint first_index {A} (p : A -> bool) (l : list A) : option nat :=
  match l with
  | [] => None
  | x :: l' => if p x then Some 0%nat else S <$> first_index p l'
  end.

Fixpoint last_index {A} (p : A -> bool) (l : list A) : option nat :=
  match l with
  | [] => None
  | x :: l' =>
      match last_index p l' with
      | Some j => Some (S j)
      | None => if p x then Some 0%nat else None
      end
  end.

Definition is_intensity_speed (v : float) : bool := fgt v INTENSITY_SPEED_THRESHOLD.

(** Steps 1, 4 and 5 of the specification for the lap at index [i]. *)
Definition edge_label (first last i : nat) (v : float) : LapNature :=
  if is_intensity_speed v then Intensity
  else if (i <? first)%nat && between RECOVERY_SPEED_THRESHOLD INTENSITY_SPEED_THRESHOLD v
  then Warm_up
  else if (last <? i)%nat && between RECOVERY_SPEED_THRESHOLD INTENSITY_SPEED_THRESHOLD v
  then Cool_down
  else Unknown.

(** Step 7 for the lap at index [i]. *)
Definition interior_fill (first last i : nat) (n : LapNature) : LapNature :=
  if (first <=? i)%nat && (i <=? last)%nat && nature_eqb n Unknown then Recovery else n.

(** Steps 1 to 8 of the specification over an indexed array of laps. *)
Definition classify_sequential (speeds : list float) : list LapNature :=
  match first_index is_intensity_speed speeds, last_index is_intensity_speed speeds with
  | Some first, Some last =>
      imap (interior_fill first last)
        (sequential_recovery None speeds (imap (edge_label first last) speeds))
  | _, _ => List.map (fun _ => Warm_up) speeds
  end.

(** ** Auxiliary definitions *)

Fixpoint index_where_from {A} (k : nat) (p : A -> bool) (col : list A) : list nat :=
  match col with
  | [] => []
  | x :: col' =>
      if p x then k :: index_where_from (S k) p col' else index_where_from (S k) p col'
  end.

(** The label of the lap at index [i] after the code's three assignments
    that precede the recovery step, the later assignment winning. *)
Definition label_before_recovery (first last i : nat) (v : float) : LapNature :=
  if is_intensity_speed v then Intensity
  else if (last <? i)%nat && between RECOVERY_SPEED_THRESHOLD INTENSITY_SPEED_THRESHOLD v
  then Cool_down
  else if (i <? first)%nat && between RECOVERY_SPEED_THRESHOLD INTENSITY_SPEED_THRESHOLD v
  then Warm_up
  else Unknown.

Definition prev_intensity (nature : list LapNature) (i : nat) : bool :=
  match i with
  | O => false
  | S j => match nature !! j with Some m => nature_eqb m Intensity | None => false end
  end.

(** What C6 states for the lap at index [i]: a lap without a usable speed
    is [Unknown] unless it lies between the first and the last intensity
    lap. *)
Definition in_work_block (speeds : list float) (i : nat) : Prop :=
  exists first last,
    first_index is_intensity_speed speeds = Some first /\
    last_index is_intensity_speed speeds = Some last /\
    (first <= i <= last)%nat.

Definition nan_lap_unknown_unless_interior (speeds : list float) (i : nat) : Prop :=
  speeds !! i = Some NaN ->
  classify_lap_nature_by_speed (laps_of_speeds speeds) !! i = Some Unknown
  \/ in_work_block speeds i.

(** A value already on the grid [1/s] is left as it is. *)
Definition on_grid (s : positive) (q : Q) : Prop := exists z : Z, q == z # s.

(** The correction of a row from the previous row's elapsed time and
    distance. *)
Definition correction_step (pe pd e d : float) : float :=
  let dt := fsub e pe in
  let dd := if isna (fsub d pd) then Fin 0 else fsub d pd in
  if fge dt PAUSE_TIME_THRESHOLD_S && fle dd PAUSE_DISTANCE_THRESHOLD_M
  then fsub dt (Fin 1) else Fin 0.

Fixpoint corrections_from (pe pd : float) (E D : list float) : list float :=
  match E, D with
  | e :: E', d :: D' => correction_step pe pd e d :: corrections_from e d E' D'
  | _, _ => []
  end.

(** On finite elapsed times every correction is finite: zero, or the gap
    minus one second when the gap is at least ten seconds. *)
Definition correction_value (pe pd : float) (e : Q) (d : float) : Q :=
  match correction_step pe pd (Fin e) d with Fin p => p | NaN => 0 end.

Fixpoint cumulative_from (pe pd : float) (acc : Q) (es : list Q) (D : list float) : list Q :=
  match es, D with
  | e :: es', d :: D' =>
      let acc' := acc + correction_value pe pd e d in
      acc' :: cumulative_from (Fin e) d acc' es' D'
  | _, _ => []
  end.

(** The cumulative pause of finite elapsed times [es]. *)
Definition cumulative_pause (es : list Q) (D : list float) : list Q :=
  cumulative_from NaN NaN 0 es D.

Definition ascending (l : list Q) : Prop :=
  forall i a b, l !! i = Some a -> l !! S i = Some b -> a <= b.

Definition key_le {A} (key : A -> float) (a b : A) : Prop :=
  na_last_le (key a) (key b) = true.

Definition has_timestamp (r : RecordMsg) : Prop := is_Some (rec_timestamp r).

Definition nondecreasing (col : list float) : Prop :=
  forall i j x y, (i <= j)%nat -> col !! i = Some x -> col !! j = Some y -> fle x y = true.

Definition moving_le_elapsed (e m : list float) : Prop :=
  forall i ei mi, e !! i = Some ei -> m !! i = Some mi -> fle mi ei = true.

Definition first_unchanged (e m : list float) : Prop :=
  forall e0 m0, e !! 0%nat = Some e0 -> m !! 0%nat = Some m0 -> feq m0 e0.

(** A finite cell that is a whole number of tenths. *)
Definition tenths (x : float) : Prop :=
  match x with Fin q => on_grid 10 q | NaN => False end.

(** The four invariants C4 states of the two columns. *)
Definition moving_time_invariants (e m : list float) : Prop :=
  moving_le_elapsed e m /\ nondecreasing m /\
  nondecreasing (zip_with fsub e m) /\ first_unchanged e m.

(** A record stamped with a whole number of seconds, as the decoder
    delivers them: a FIT [date_time] counts seconds. *)
Definition whole_second (r : RecordMsg) : Prop :=
  exists t, rec_timestamp r = Some t /\ on_grid 1 t.

Definition sample (t d : Q) : RecordMsg :=
  {| rec_timestamp := Some t; rec_distance := Some d |}.

(** The moving-time scenario of the specification: samples at 0, 5, 20
    and 22 s with distances 0, 50, 51 and 70 m, and no lap. *)
Definition scenario_samples : FitFile :=
  {| records := [sample 0 0; sample 5 50; sample 20 51; sample 22 70]; laps := [] |}.

Definition read_int (s : string) : option Z := Z.of_int <$> NilZero.int_of_string s.

Definition min_sec (t : Z) : string :=
  (fmt_02d (t / 60) ++ ":" ++ fmt_02d (t mod 60))%string.

Definition hms (t : Z) : string :=
  if (0 <? t / 3600)%Z
  then (fmt_d (t / 3600) ++ ":" ++ fmt_02d ((t mod 3600) / 60) ++ ":" ++ fmt_02d (t mod 60))%string
  else (fmt_02d ((t mod 3600) / 60) ++ ":" ++ fmt_02d (t mod 60))%string.

(** A pause has been discounted at or before row [i]: the cumulative
    pause column is positive there. *)
Definition pause_discounted (e d : list float) (i : nat) : Prop :=
  exists c, cumsum (pause_correction_s e d) !! i = Some c /\ fgt c (Fin 0) = true.

(** The interval of lap [k] (1-based) as the specification words it, over
    the ascending start times [ss] and the largest sample timestamp [M]. *)
Definition lap_lower (ss : list Q) (k : nat) : Q := nth (k - 1) ss 0.

Definition lap_upper (ss : list Q) (M : Q) (k : nat) : Q :=
  if (k <? length ss)%nat then nth k ss 0 else M + 1.

Definition owns (ss : list Q) (M : Q) (k : nat) (t : Q) : Prop :=
  (1 <= k <= length ss)%nat /\ lap_lower ss k <= t /\ t < lap_upper ss M k.

Definition is_maximum (qs : list Q) (M : Q) : Prop :=
  In M qs /\ forall q, In q qs -> q <= M.

Definition nondecreasing_nat (col : list nat) : Prop :=
  forall i j a b, (i <= j)%nat -> col !! i = Some a -> col !! j = Some b -> (a <= b)%nat.

(** The upper bound the loop uses for lap [lap_num]. *)
Definition next_lap_start (starts timestamps : list float) (lap_num : nat) : float :=
  if (lap_num <? length starts)%nat then default NaN (starts !! lap_num)
  else fadd (series_max timestamps) (Fin 1).

Definition claims (starts timestamps : list float) (t : float) (lap : nat * float) : bool :=
  fge t lap.2 && flt t (next_lap_start starts timestamps lap.1).

(** The loop seen from one row: the last lap that claims it wins. *)
Definition pick (starts timestamps : list float) (t : float) (c : nat) (lap : nat * float)
    : nat :=
  if claims starts timestamps t lap then lap.1 else c.

(** ** The lap table *)

(** The lap table of [export_lap_csv], in the columns the classifier reads
    or writes. *)
Record LapTable : Type := {
  csv_lap_number : list nat;
  csv_avg_speed_kmh : option (list float);
  csv_lap_nature : option (list LapNature)
}.

(** [export_lap_csv] of [extract_fit_file.py]: [None] when the file has no
    lap.  The rows are the laps in file order, numbered from 1; when some
    lap has [avg_speed] they are sorted on [lap_number] and classified. *)
Definition export_lap_csv (fitfile : FitFile) : option LapTable :=
  match laps fitfile with
  | [] => None
  | lap_msgs =>
      let rows := zip (seq 1 (length lap_msgs)) lap_msgs in
      if has_column lap_avg_speed lap_msgs then
        let rows := sort_by (fun row : nat * LapMsg => Fin (inject_Z (Z.of_nat row.1))) rows in
        let kmh := lap_speeds_kmh (List.map snd rows) in
        Some {| csv_lap_number := List.map fst rows;
                csv_avg_speed_kmh := Some kmh;
                csv_lap_nature :=
                  Some (classify_lap_nature_by_speed
                          {| n_laps := length rows; avg_speed_kmh := Some kmh |}) |}
      else
        Some {| csv_lap_number := List.map fst rows;
                csv_avg_speed_kmh := None;
                csv_lap_nature := None |}
  end.

Definition has_start_time (lap : LapMsg) : Prop := is_Some (lap_start_time lap).

(** The start times of the laps, in file order. *)
Definition start_times (lap_msgs : list LapMsg) : list Q :=
  List.map (fun lap => default 0 (lap_start_time lap)) lap_msgs.

(** ** Per-lap elapsed time *)

(** [Series.min()], skipping missing values; missing when there is none. *)
Definition series_min (col : list float) : float :=
  foldr (fun x m => match x, m with
                    | NaN, _ => m
                    | Fin _, NaN => x
                    | Fin a, Fin b => if Qle_bool a b then x else m
                    end) NaN col.

(** [df.groupby(keys)[col].transform('min')]: on each row the minimum of
    [col] over the rows that have the row's key. *)
Definition group_min (keys : list nat) (col : list float) : list float :=
  List.map (fun k => series_min
                       (List.map snd (List.filter (fun row : nat * float => (row.1 =? k)%nat)
                                                  (zip keys col))))
           keys.

(** Step 6 of [parse_fit]: the time elapsed since the first sample of the
    row's lap, to one decimal. *)
Definition elapsed_time_in_lap_s (lap_number : list nat) (elapsed_time_s : list float)
    : list float :=
  let lap_start_time := group_min lap_number elapsed_time_s in
  List.map (np_round 1) (zip_with fsub elapsed_time_s lap_start_time).

(** The elapsed times of the rows of lap [k]. *)
Definition lap_rows (k : nat) (keys : list nat) (es : list Q) : list Q :=
  List.map snd (List.filter (fun row : nat * Q => (row.1 =? k)%nat) (zip keys es)).

(** ** The activity summary and the run of V3 *)

(** The value of an enum field of a [session] message: the name the FIT
    profile gives the raw value, or the raw value when it has none. *)
Inductive EnumValue : Type :=
| Name (s : string)
| Code (z : Z).

(** The value of a [date_time] field: the decoder turns a count of
    seconds from [0x10000000] on into a [datetime] and leaves a smaller
    one, which counts from power-up, the [int] it is. *)
Inductive DateTimeValue : Type :=
| Datetime (t : Q)
| SystemSeconds (n : Z).

(** A [session] message: the ten fields [extract_activity_summary] keeps.
    The outer [None] is a field the message does not carry, the inner
    [None] a field whose value is Python's [None]. *)
Record SessionMsg : Type := {
  ses_sport : option (option EnumValue);
  ses_sub_sport : option (option EnumValue);
  ses_total_distance : option (option float);
  ses_total_elapsed_time : option (option float);
  ses_total_timer_time : option (option float);
  ses_max_heart_rate : option (option float);
  ses_avg_heart_rate : option (option float);
  ses_total_ascent : option (option float);
  ses_total_descent : option (option float);
  ses_timestamp : option (option DateTimeValue)
}.

(** The summary dictionary: the kept fields but [sport] and [sub_sport],
    which are popped, and the three keys added.  An added [_hms] key is
    [None] when it is not set. *)
Record Summary : Type := {
  total_distance : option (option float);
  total_elapsed_time : option (option float);
  total_timer_time : option (option float);
  max_heart_rate : option (option float);
  avg_heart_rate : option (option float);
  total_ascent : option (option float);
  total_descent : option (option float);
  summary_timestamp : option (option DateTimeValue);
  activity_type : string;
  total_elapsed_time_hms : option (option string);
  total_timer_time_hms : option (option string)
}.

(** [v == s] for a string literal [s]. *)
Definition is_str (v : option EnumValue) (s : string) : bool :=
  match v with
  | Some (Name n) => String.eqb n s
  | _ => false
  end.

(** [str(v)]. *)
Definition py_str (v : option EnumValue) : string :=
  match v with
  | None => "None"
  | Some (Name n) => n
  | Some (Code z) => fmt_d z
  end.

Definition is_upper (c : ascii) : bool :=
  let n := nat_of_ascii c in (65 <=? n)%nat && (n <=? 90)%nat.
Definition is_lower (c : ascii) : bool :=
  let n := nat_of_ascii c in (97 <=? n)%nat && (n <=? 122)%nat.
Definition lower (c : ascii) : ascii :=
  if is_upper c then ascii_of_nat (nat_of_ascii c + 32) else c.
Definition upper (c : ascii) : ascii :=
  if is_lower c then ascii_of_nat (nat_of_ascii c - 32) else c.

Fixpoint string_map (f : ascii -> ascii) (s : string) : string :=
  match s with
  | EmptyString => EmptyString
  | String c r => String (f c) (string_map f r)
  end.

(** [str.capitalize()] on an ASCII string. *)
Definition capitalize (s : string) : string :=
  match s with
  | EmptyString => EmptyString
  | String c r => String (upper c) (string_map lower r)
  end.

Definition no_session : exn :=
  RuntimeError "Aucun message 'session' trouvé dans le fichier .fit".

(** [summary.get(key)] followed by the test [is not None]. *)
Definition hms_entry (total : option (option float)) : option (option string) :=
  match total with
  | Some (Some seconds) => Some (format_seconds_to_hms seconds)
  | _ => None
  end.

(** [extract_activity_summary] of [extract_fit_file_for_V3.py], over the
    [session] messages of the file. *)
Definition extract_activity_summary (session_messages : list SessionMsg) : result Summary :=
  match last session_messages with
  | None => Raise no_session
  | Some session_data =>
      let sport := default (Some (Name "unknown")) (ses_sport session_data) in
      let sub_sport := default (Some (Name "unknown")) (ses_sub_sport session_data) in
      let activity_type :=
        (if is_str sport "running" then
           if is_str sub_sport "trail" then "Trail Running" else "Road Running"
         else if is_str sport "cycling" then "Cycling"
         else capitalize (py_str sport))%string in
      Ok {| total_distance := ses_total_distance session_data;
            total_elapsed_time := ses_total_elapsed_time session_data;
            total_timer_time := ses_total_timer_time session_data;
            max_heart_rate := ses_max_heart_rate session_data;
            avg_heart_rate := ses_avg_heart_rate session_data;
            total_ascent := ses_total_ascent session_data;
            total_descent := ses_total_descent session_data;
            summary_timestamp := ses_timestamp session_data;
            activity_type := activity_type;
            total_elapsed_time_hms := hms_entry (ses_total_elapsed_time session_data);
            total_timer_time_hms := hms_entry (ses_total_timer_time session_data) |}
  end.

(** [json.dump] of the summary: numbers, strings and [None] are encoded,
    a [datetime] makes the encoder raise [TypeError]. *)
Definition json_serializable (summary : Summary) : bool :=
  match summary_timestamp summary with
  | Some (Some (Datetime _)) => false
  | _ => true
  end.

(** The summary JSON when the run ends: never opened; opened for writing
    and left without a whole document, the encoder having raised; or
    holding the summary. *)
Inductive SummaryFile : Type :=
| NotCreated
| Unfinished
| Dumped (summary : Summary).

(** [main] of [extract_fit_file_for_V3.py] once the two paths are given:
    the status of the JSON report and what has been written to the records
    CSV and to the summary JSON when it returns.  Every exception is
    caught and reported as an error. *)
Record ReportV3 : Type := {
  v3_status : string;
  v3_records_csv : option DataFrame;
  v3_summary_json : SummaryFile
}.

Definition main_V3 (ff : FitFile) (session_messages : list SessionMsg) : ReportV3 :=
  match parse_fit_records ff with
  | Raise _ =>
      {| v3_status := "error"; v3_records_csv := None; v3_summary_json := NotCreated |}
  | Ok df_records =>
      match extract_activity_summary session_messages with
      | Raise _ =>
          {| v3_status := "error"; v3_records_csv := Some df_records;
             v3_summary_json := NotCreated |}
      | Ok activity_summary =>
          if json_serializable activity_summary then
            {| v3_status := "success"; v3_records_csv := Some df_records;
               v3_summary_json := Dumped activity_summary |}
          else
            {| v3_status := "error"; v3_records_csv := Some df_records;
               v3_summary_json := Unfinished |}
      end
  end.

Fixpoint has_upper (s : string) : bool :=
  match s with
  | EmptyString => false
  | String c r => is_upper c || has_upper r
  end.

(** ** The order of the columns *)

#[global] Instance string_eq_dec : EqDecision string := string_dec.

(** Python's [sorted] on a list of [str]: ascending code points, which is
    the byte order of [String.leb] on UTF-8. *)
Fixpoint insert_sorted (c : string) (l : list string) : list string :=
  match l with
  | [] => [c]
  | d :: l' => if String.leb c d then c :: l else d :: insert_sorted c l'
  end.

Definition sorted (l : list string) : list string := foldr insert_sorted [] l.

(** The two lists of [parse_fit]. *)
Definition columns_to_drop : list string :=
  ["activity_type"; "enhanced_altitude"; "enhanced_speed"; "fractional_cadence";
   "unknown_87"; "unknown_88"; "unknown_90"; "speed"; "cadence"; "position_lat";
   "position_long"]%string.

Definition col_order_priority : list string :=
  ["timestamp"; "elapsed_time_s"; "moving_elapsed_time_s"; "elapsed_time_min_sec";
   "lap_number"; "lap_nature"; "elapsed_time_in_lap_s"; "distance"; "speed_kmh";
   "heart_rate"; "cadence_step_per_min"; "stance_time"; "stance_time_balance";
   "stance_time_percent"; "step_length"; "vertical_oscillation"; "vertical_ratio";
   "altitude"; "temperature"]%string.

(** Steps 8 and 9 of [parse_fit]: the columns of the returned table, from
    the columns [df] has after step 7.B. *)
Definition new_column_order (columns : list string) : list string :=
  let columns := filter (.∉ columns_to_drop) columns in
  let remaining_cols := filter (.∉ col_order_priority) columns in
  filter (.∈ columns) col_order_priority ++ sorted remaining_cols.

(** The priority list of [export_lap_csv] and its reordering of the
    columns of [df_laps]. *)
Definition lap_col_order_priority : list string :=
  ["lap_number"; "lap_nature"; "lap_duration"; "avg_speed_kmh"; "max_speed_kmh";
   "avg_heart_rate"; "max_heart_rate"; "avg_running_cadence_step_per_min";
   "avg_stance_time"; "avg_stance_time_balance"; "avg_stance_time_percent";
   "avg_step_length"; "avg_vertical_oscillation"; "avg_vertical_ratio";
   "total_distance"; "total_strides"; "total_elapsed_time"]%string.

Definition lap_new_column_order (columns : list string) : list string :=
  let existing_priority_cols := filter (.∈ columns) lap_col_order_priority in
  let remaining_cols := filter (.∉ existing_priority_cols) columns in
  existing_priority_cols ++ sorted remaining_cols.

Definition str_le (a b : string) : Prop := String.leb a b = true.

(** ** Auxiliary definitions for the lap and speed results *)

(** The per-lap labels [add_lap_info] merges onto the samples. *)
Definition lap_natures (lap_msgs : list LapMsg) : list LapNature :=
  classify_lap_nature_by_speed
    {| n_laps := length (laps_sorted lap_msgs);
       avg_speed_kmh := Some (lap_speeds_kmh (laps_sorted lap_msgs)) |}.

(** The speed in km/h of a lap whose decoder speed is [v] m/s. *)
Definition kmh_of (v : Q) : float := np_round 2 (fmul (Fin v) MS_TO_KMH).

(** * Properties *)

(** ** Comparisons and rounding *)

Lemma Qlt_bool_iff (x y : Q) : Qlt_bool x y = true <-> x < y.
Proof.
  unfold Qlt_bool. rewrite negb_true_iff.
  split.
  - intros H. apply Qnot_le_lt. intros Hle.
    apply Qle_bool_iff in Hle. congruence.
  - intros H. destruct (Qle_bool y x) eqn:E; [|reflexivity].
    apply Qle_bool_iff in E. lra.
Qed.

Lemma Qlt_bool_false_iff (x y : Q) : Qlt_bool x y = false <-> y <= x.
Proof.
  unfold Qlt_bool. rewrite negb_false_iff. apply Qle_bool_iff.
Qed.

Lemma Qle_bool_false_iff (x y : Q) : Qle_bool x y = false <-> y < x.
Proof.
  rewrite <- Qlt_bool_iff. unfold Qlt_bool.
  destruct (Qle_bool x y); simpl; split; congruence.
Qed.

(** ** Masks *)

Lemma length_loc_set {A} (mask : list bool) (v : A) (col : list A) :
  length mask = length col -> length (loc_set mask v col) = length col.
Proof. intros H. unfold loc_set. rewrite length_zip_with. lia. Qed.

Lemma lookup_loc_set {A} (mask : list bool) (v : A) (col : list A) (i : nat) :
  loc_set mask v col !! i =
  match mask !! i, col !! i with
  | Some m, Some old => Some (if (m : bool) then v else old)
  | _, _ => None
  end.
Proof.
  unfold loc_set. rewrite lookup_zip_with.
  destruct (mask !! i); simpl; [|reflexivity].
  destruct (col !! i); reflexivity.
Qed.

Lemma lookup_mask_and (m1 m2 : list bool) (i : nat) :
  mask_and m1 m2 !! i =
  match m1 !! i, m2 !! i with
  | Some a, Some b => Some ((a : bool) && b)
  | _, _ => None
  end.
Proof.
  unfold mask_and. rewrite lookup_zip_with.
  destruct (m1 !! i); simpl; [|reflexivity].
  destruct (m2 !! i); reflexivity.
Qed.

Lemma lookup_index {A} (col : list A) (i : nat) :
  index col !! i = if decide (i < length col)%nat then Some i else None.
Proof.
  unfold index. destruct (decide (i < length col)%nat) as [H|H].
  - rewrite lookup_seq_lt; [reflexivity|exact H].
  - apply lookup_seq_ge. lia.
Qed.

Lemma lookup_map {A B} (f : A -> B) (l : list A) (i : nat) :
  List.map f l !! i = f <$> l !! i.
Proof. apply (list_lookup_fmap f l i). Qed.

(** ** Index labels of selected rows *)

Lemma index_where_from_eq {A} (p : A -> bool) (col : list A) (k : nat) :
  List.map fst (List.filter (fun ix : nat * A => p ix.2) (zip (seq k (length col)) col))
  = index_where_from k p col.
Proof.
  revert k. induction col as [|x col IH]; intros k; simpl; [reflexivity|].
  destruct (p x); simpl; rewrite IH; reflexivity.
Qed.

Lemma index_where_unfold {A} (p : A -> bool) (col : list A) :
  index_where p col = index_where_from 0 p col.
Proof. apply index_where_from_eq. Qed.

Lemma index_where_from_map {A B} (f : A -> B) (p : B -> bool) (col : list A) (k : nat) :
  index_where_from k p (List.map f col) = index_where_from k (fun x => p (f x)) col.
Proof.
  revert k. induction col as [|x col IH]; intros k; simpl; [reflexivity|].
  rewrite IH. reflexivity.
Qed.

Lemma index_where_from_ge {A} (p : A -> bool) (col : list A) (k : nat) :
  Forall (fun j => k <= j)%nat (index_where_from k p col).
Proof.
  revert k. induction col as [|x col IH]; intros k; simpl; [constructor|].
  assert (Forall (fun j => k <= j)%nat (index_where_from (S k) p col)) as H.
  { eapply Forall_impl; [apply IH|]. simpl. intros; lia. }
  destruct (p x); [constructor; [lia|exact H]|exact H].
Qed.

Lemma index_min_below (k : nat) (rest : list nat) :
  Forall (fun j => k <= j)%nat rest -> index_min k rest = k.
Proof.
  unfold index_min. induction 1 as [|j rest Hj _ IH]; simpl; [reflexivity|].
  rewrite IH. lia.
Qed.

Lemma foldr_max_init (k : nat) (rest : list nat) :
  foldr Nat.max k rest = Nat.max k (foldr Nat.max 0%nat rest).
Proof. induction rest as [|j rest IH]; simpl; lia. Qed.

Lemma index_max_cons (k i : nat) (rest : list nat) :
  index_max k (i :: rest) = Nat.max k (index_max i rest).
Proof.
  unfold index_max. simpl.
  rewrite (foldr_max_init k), (foldr_max_init i). lia.
Qed.

(** The bounds the code takes from the filtered index are the first and
    the last position that satisfy the predicate. *)
Lemma index_where_from_bounds {A} (p : A -> bool) (col : list A) (k : nat) :
  match index_where_from k p col with
  | [] => first_index p col = None /\ last_index p col = None
  | i :: rest =>
      exists f l, first_index p col = Some f /\ last_index p col = Some l /\
                  index_min i rest = (k + f)%nat /\ index_max i rest = (k + l)%nat
  end.
Proof.
  revert k. induction col as [|x col IH]; intros k; simpl; [split; reflexivity|].
  specialize (IH (S k)).
  pose proof (index_where_from_ge p col (S k)) as Hge.
  destruct (p x) eqn:Hp.
  - destruct (index_where_from (S k) p col) as [|i rest].
    + destruct IH as [_ Hl]. rewrite Hl. exists 0%nat, 0%nat.
      repeat split; unfold index_min, index_max; simpl; lia.
    + destruct IH as (f & l & Hf & Hl & Hmin & Hmax). rewrite Hl.
      exists 0%nat, (S l). repeat split.
      * rewrite index_min_below; [lia|].
        eapply Forall_impl; [apply Hge|]. simpl. intros; lia.
      * rewrite index_max_cons, Hmax. lia.
  - destruct (index_where_from (S k) p col) as [|i rest].
    + destruct IH as [Hf Hl]. rewrite Hf, Hl. split; reflexivity.
    + destruct IH as (f & l & Hf & Hl & Hmin & Hmax). rewrite Hf, Hl. simpl.
      exists (S f), (S l). repeat split; lia.
Qed.

Lemma first_index_Some {A} (p : A -> bool) (l : list A) (f : nat) :
  first_index p l = Some f ->
  (exists x, l !! f = Some x /\ p x = true) /\
  (forall j y, (j < f)%nat -> l !! j = Some y -> p y = false).
Proof.
  revert f. induction l as [|x l IH]; intros f; simpl; [discriminate|].
  destruct (p x) eqn:Hp.
  - intros [= <-]. split; [exists x; auto|]. intros; lia.
  - destruct (first_index p l) as [f'|]; simpl; [|discriminate].
    intros [= <-]. destruct (IH f' eq_refl) as [Hx Hlt]. split; [exact Hx|].
    intros [|j] y Hj Hy; simpl in Hy.
    + congruence.
    + apply (Hlt j); [lia|exact Hy].
Qed.

Lemma first_index_None {A} (p : A -> bool) (l : list A) :
  first_index p l = None <-> Forall (fun x => p x = false) l.
Proof.
  induction l as [|x l IH]; simpl.
  - split; [constructor|reflexivity].
  - destruct (p x) eqn:Hp.
    + split; [discriminate|]. intros H. inversion H; congruence.
    + destruct (first_index p l); simpl.
      * split; [discriminate|]. intros H. inversion H; subst.
        apply IH in H3. discriminate.
      * split; [|reflexivity]. intros _. constructor; [exact Hp|]. apply IH. reflexivity.
Qed.

Lemma last_index_Some {A} (p : A -> bool) (l : list A) (k : nat) :
  last_index p l = Some k ->
  (exists x, l !! k = Some x /\ p x = true) /\
  (forall j y, (k < j)%nat -> l !! j = Some y -> p y = false).
Proof.
  revert k. induction l as [|x l IH]; intros k; simpl; [discriminate|].
  destruct (last_index p l) as [k'|] eqn:Hl.
  - intros [= <-]. destruct (IH k' eq_refl) as [Hx Hgt]. split; [exact Hx|].
    intros [|j] y Hj Hy; [lia|]. simpl in Hy. apply (Hgt j); [lia|exact Hy].
  - destruct (p x) eqn:Hp; [|discriminate].
    intros [= <-]. split; [exists x; auto|].
    intros [|j] y Hj Hy; [lia|]. simpl in Hy.
    clear IH. revert j y Hj Hy Hl. induction l as [|z l IHl]; intros j y Hj Hy Hl.
    + discriminate.
    + simpl in Hl. destruct (last_index p l) eqn:E; [discriminate|].
      destruct (p z) eqn:Hz; [discriminate|].
      destruct j as [|j]; simpl in Hy; [congruence|].
      apply (IHl j y); [lia|exact Hy|reflexivity].
Qed.

Lemma first_last_index_None {A} (p : A -> bool) (l : list A) :
  first_index p l = None <-> last_index p l = None.
Proof.
  pose proof (index_where_from_bounds p l 0) as Hb.
  destruct (index_where_from 0 p l).
  - destruct Hb as [-> ->]. tauto.
  - destruct Hb as (f & k & -> & -> & _). split; discriminate.
Qed.

(** ** The steps of the classifier, row by row *)

Lemma between_not_intensity (v : float) :
  between RECOVERY_SPEED_THRESHOLD INTENSITY_SPEED_THRESHOLD v = true ->
  is_intensity_speed v = false.
Proof.
  unfold between, is_intensity_speed. destruct v as [|q]; simpl; [discriminate|].
  rewrite andb_true_iff, !Qle_bool_iff, Qlt_bool_false_iff. tauto.
Qed.

Lemma intensity_not_slow (v : float) :
  is_intensity_speed v = true -> flt v RECOVERY_SPEED_THRESHOLD = false.
Proof.
  unfold is_intensity_speed. destruct v as [|q]; simpl; [discriminate|].
  rewrite Qlt_bool_iff, Qlt_bool_false_iff. lra.
Qed.

Lemma mark_intensity_map (speeds : list float) :
  mark_intensity speeds =
  List.map (fun v => if is_intensity_speed v then Intensity else Unknown) speeds.
Proof.
  unfold mark_intensity, loc_set, is_intensity_speed.
  induction speeds as [|v speeds IH]; simpl; [reflexivity|].
  f_equal. exact IH.
Qed.

Lemma intensity_index (speeds : list float) :
  index_where (fun n => nature_eqb n Intensity) (mark_intensity speeds)
  = index_where_from 0 is_intensity_speed speeds.
Proof.
  rewrite index_where_unfold, mark_intensity_map, index_where_from_map.
  generalize 0%nat. induction speeds as [|v speeds IH]; intros k; simpl; [reflexivity|].
  rewrite IH. destruct (is_intensity_speed v); reflexivity.
Qed.

Lemma lookup_before_recovery (first last : nat) (speeds : list float) (i : nat) :
  before_recovery first last speeds !! i = label_before_recovery first last i <$> speeds !! i.
Proof.
  unfold before_recovery, mark_cool_down, mark_warm_up, in_band.
  rewrite !lookup_loc_set, !lookup_mask_and, !lookup_map, lookup_index.
  rewrite mark_intensity_map, lookup_map.
  destruct (speeds !! i) as [v|] eqn:Hv; simpl.
  - apply lookup_lt_Some in Hv. rewrite decide_True by exact Hv. simpl.
    unfold label_before_recovery.
    destruct (between RECOVERY_SPEED_THRESHOLD INTENSITY_SPEED_THRESHOLD v) eqn:Hb.
    + rewrite (between_not_intensity v Hb), !andb_true_r.
      destruct (last <? i)%nat, (i <? first)%nat; reflexivity.
    + rewrite !andb_false_r. reflexivity.
  - destruct (decide (i < length speeds)%nat); reflexivity.
Qed.

Lemma before_recovery_imap (first last : nat) (speeds : list float) :
  before_recovery first last speeds = imap (label_before_recovery first last) speeds.
Proof.
  apply list_eq. intros i.
  rewrite lookup_before_recovery, list_lookup_imap. reflexivity.
Qed.

Lemma label_before_recovery_intensity (first last i : nat) (v : float) :
  label_before_recovery first last i v = Intensity <-> is_intensity_speed v = true.
Proof.
  unfold label_before_recovery. destruct (is_intensity_speed v); [tauto|].
  destruct (_ && _); [split; discriminate|].
  destruct (_ && _); split; discriminate.
Qed.

Lemma fill_work_block_imap (first last : nat) (nature : list LapNature) :
  fill_work_block first last nature = imap (interior_fill first last) nature.
Proof.
  apply list_eq. intros i. unfold fill_work_block.
  rewrite lookup_loc_set, !lookup_mask_and, !lookup_map, lookup_index, list_lookup_imap.
  destruct (nature !! i) as [n|] eqn:Hn; simpl.
  - apply lookup_lt_Some in Hn. rewrite decide_True by exact Hn. simpl.
    unfold interior_fill. reflexivity.
  - destruct (decide (i < length nature)%nat); reflexivity.
Qed.

(** The shifted column, one row at a time. *)
Lemma shift_cons {A} (p : option A) (n : A) (ns : list A) :
  take (length (n :: ns)) (p :: List.map Some (n :: ns))
  = p :: take (length ns) (Some n :: List.map Some ns).
Proof. reflexivity. Qed.

(** The vectorised step reads the labels as they stood before it, the
    loop reads the label it has just written; they agree because the step
    never rewrites an [Intensity] lap. *)
Lemma recovery_shift_loop (speeds : list float) (nature : list LapNature)
    (p p' : option LapNature) :
  follows_intensity p = follows_intensity p' ->
  (forall j v, nature !! j = Some Intensity -> speeds !! j = Some v ->
               flt v RECOVERY_SPEED_THRESHOLD = false) ->
  loc_set (mask_and (List.map (fun v => flt v RECOVERY_SPEED_THRESHOLD) speeds)
                    (prev_is_intensity (take (length nature) (p :: List.map Some nature))))
          Recovery nature
  = sequential_recovery p' speeds nature.
Proof.
  revert speeds p p'. induction nature as [|n nature IH]; intros speeds p p' Hp Hinv.
  - destruct speeds; reflexivity.
  - destruct speeds as [|v speeds]; [reflexivity|].
    rewrite shift_cons. simpl.
    assert (nature_eqb_int : forall o, match o with Some n0 => nature_eqb n0 Intensity
                                        | None => false end = follows_intensity o).
    { intros [[]|]; reflexivity. }
    rewrite nature_eqb_int, Hp. f_equal.
    apply IH.
    + destruct (flt v RECOVERY_SPEED_THRESHOLD) eqn:Hslow; simpl.
      * destruct (follows_intensity p'); simpl.
        -- destruct n; try reflexivity.
           specialize (Hinv 0%nat v eq_refl eq_refl). congruence.
        -- reflexivity.
      * reflexivity.
    + intros j w Hj Hw. apply (Hinv (S j) w); assumption.
Qed.

Lemma mark_recovery_sequential (first last : nat) (speeds : list float) :
  mark_recovery speeds (before_recovery first last speeds)
  = sequential_recovery None speeds (before_recovery first last speeds).
Proof.
  unfold mark_recovery, shift1. apply recovery_shift_loop; [reflexivity|].
  intros j v Hj Hv. rewrite lookup_before_recovery, Hv in Hj. simpl in Hj.
  injection Hj as Hj. apply label_before_recovery_intensity in Hj.
  apply intensity_not_slow. exact Hj.
Qed.

(** The classifier on a list without intensity lap, and on a list whose
    first and last intensity laps are at [first] and [last]. *)
Lemma classify_no_intensity (speeds : list float) :
  first_index is_intensity_speed speeds = None ->
  classify_lap_nature_by_speed (laps_of_speeds speeds)
  = replicate (length speeds) Warm_up.
Proof.
  intros Hf. unfold classify_lap_nature_by_speed. simpl.
  destruct speeds as [|v0 speeds0]; [reflexivity|].
  rewrite intensity_index.
  pose proof (index_where_from_bounds is_intensity_speed (v0 :: speeds0) 0) as Hb.
  destruct (index_where_from 0 is_intensity_speed (v0 :: speeds0)) as [|i rest].
  - rewrite mark_intensity_map. apply first_index_None in Hf.
    clear Hb. induction Hf as [|v l Hv _ IH]; simpl; [reflexivity|].
    rewrite Hv. simpl. f_equal. exact IH.
  - destruct Hb as (f & l & Hf' & _). congruence.
Qed.

Lemma classify_work (speeds : list float) (first last : nat) :
  first_index is_intensity_speed speeds = Some first ->
  last_index is_intensity_speed speeds = Some last ->
  classify_lap_nature_by_speed (laps_of_speeds speeds)
  = fill_work_block first last
      (mark_recovery speeds (before_recovery first last speeds)).
Proof.
  intros Hf Hl. unfold classify_lap_nature_by_speed. simpl.
  destruct speeds as [|v0 speeds0]; [discriminate|].
  rewrite intensity_index.
  pose proof (index_where_from_bounds is_intensity_speed (v0 :: speeds0) 0) as Hb.
  destruct (index_where_from 0 is_intensity_speed (v0 :: speeds0)) as [|i rest].
  - destruct Hb as [Hf' _]. congruence.
  - destruct Hb as (f & l & Hf' & Hl' & -> & ->).
    rewrite Hf in Hf'. rewrite Hl in Hl'. injection Hf' as <-. injection Hl' as <-.
    reflexivity.
Qed.

Lemma first_le_last {A} (p : A -> bool) (l : list A) (first last : nat) :
  first_index p l = Some first -> last_index p l = Some last -> (first <= last)%nat.
Proof.
  intros Hf Hl.
  destruct (first_index_Some p l first Hf) as [_ Hbefore].
  destruct (last_index_Some p l last Hl) as [(x & Hx & Hp) _].
  destruct (le_lt_dec first last) as [|Hlt]; [assumption|].
  specialize (Hbefore last x Hlt Hx). congruence.
Qed.

(** With [first <= last] the order of the warm-up and cool-down
    assignments does not matter. *)
Lemma edge_label_before_recovery (first last i : nat) (v : float) :
  (first <= last)%nat -> edge_label first last i v = label_before_recovery first last i v.
Proof.
  intros Hfl. unfold edge_label, label_before_recovery.
  destruct (is_intensity_speed v); [reflexivity|].
  destruct (between RECOVERY_SPEED_THRESHOLD INTENSITY_SPEED_THRESHOLD v);
    rewrite ?andb_false_r, ?andb_true_r; [|reflexivity].
  destruct (i <? first)%nat eqn:E1, (last <? i)%nat eqn:E2; try reflexivity.
  apply Nat.ltb_lt in E1, E2. lia.
Qed.

(** The code's classifier is the specification's sequential algorithm. *)
Lemma classify_is_sequential (speeds : list float) :
  classify_lap_nature_by_speed (laps_of_speeds speeds) = classify_sequential speeds.
Proof.
  unfold classify_sequential.
  destruct (first_index is_intensity_speed speeds) as [first|] eqn:Hf.
  - destruct (last_index is_intensity_speed speeds) as [last|] eqn:Hl.
    + rewrite (classify_work speeds first last Hf Hl).
      rewrite fill_work_block_imap, mark_recovery_sequential, before_recovery_imap.
      do 2 f_equal. apply imap_ext. intros i v _. symmetry.
      apply edge_label_before_recovery. eapply first_le_last; eassumption.
    + apply first_last_index_None in Hl. congruence.
  - rewrite (classify_no_intensity speeds Hf).
    clear Hf. induction speeds as [|v speeds IH]; simpl; [reflexivity|].
    f_equal. exact IH.
Qed.

Lemma lookup_shift1 {A} (col : list A) (i : nat) (x : A) :
  col !! i = Some x ->
  shift1 col !! i = Some (match i with O => None | S j => col !! j end).
Proof.
  intros Hi. unfold shift1.
  rewrite lookup_take_lt by (eapply lookup_lt_Some; exact Hi).
  destruct i as [|j]; simpl; [reflexivity|].
  rewrite lookup_map.
  assert (is_Some (col !! j)) as [y Hy].
  { apply lookup_lt_is_Some. apply lookup_lt_Some in Hi. lia. }
  rewrite Hy. reflexivity.
Qed.

Lemma lookup_mark_recovery (speeds : list float) (nature : list LapNature)
    (i : nat) (v : float) (n : LapNature) :
  speeds !! i = Some v -> nature !! i = Some n ->
  mark_recovery speeds nature !! i
  = Some (if flt v RECOVERY_SPEED_THRESHOLD && prev_intensity nature i then Recovery else n).
Proof.
  intros Hv Hn. unfold mark_recovery, prev_is_intensity.
  rewrite lookup_loc_set, lookup_mask_and, !lookup_map, Hv, Hn.
  rewrite (lookup_shift1 nature i n Hn). simpl.
  destruct i as [|j]; simpl; [reflexivity|].
  destruct (nature !! j); reflexivity.
Qed.

Lemma label_before_recovery_not_recovery (first last i : nat) (v : float) :
  label_before_recovery first last i v <> Recovery.
Proof.
  unfold label_before_recovery. destruct (is_intensity_speed v); [discriminate|].
  destruct (_ && _); [discriminate|]. destruct (_ && _); discriminate.
Qed.

Lemma nature_eqb_eq (a b : LapNature) : nature_eqb a b = true <-> a = b.
Proof. destruct a, b; simpl; split; congruence. Qed.

Lemma length_before_recovery (first last : nat) (speeds : list float) :
  length (before_recovery first last speeds) = length speeds.
Proof. rewrite before_recovery_imap. apply length_imap. Qed.

Lemma length_sequential_recovery (p : option LapNature) (speeds : list float)
    (nature : list LapNature) :
  length speeds = length nature ->
  length (sequential_recovery p speeds nature) = length speeds.
Proof.
  revert p nature. induction speeds as [|v speeds IH]; intros p [|n nature] H;
    simpl in *; try reflexivity; try discriminate.
  f_equal. apply IH. lia.
Qed.

Lemma length_classify (speeds : list float) :
  length (classify_lap_nature_by_speed (laps_of_speeds speeds)) = length speeds.
Proof.
  rewrite classify_is_sequential. unfold classify_sequential.
  destruct (first_index is_intensity_speed speeds), (last_index is_intensity_speed speeds);
    rewrite ?length_map; try reflexivity.
  rewrite length_imap, length_sequential_recovery; [reflexivity|].
  rewrite length_imap. reflexivity.
Qed.

(** The label of one lap in a list that has intensity laps, the first at
    [first] and the last at [last]. *)
Lemma lookup_classify_work (speeds : list float) (first last i : nat) (v : float) :
  first_index is_intensity_speed speeds = Some first ->
  last_index is_intensity_speed speeds = Some last ->
  speeds !! i = Some v ->
  classify_lap_nature_by_speed (laps_of_speeds speeds) !! i
  = Some (interior_fill first last i
            (if flt v RECOVERY_SPEED_THRESHOLD
                && prev_intensity (before_recovery first last speeds) i
             then Recovery else label_before_recovery first last i v)).
Proof.
  intros Hf Hl Hv. rewrite (classify_work speeds first last Hf Hl).
  rewrite fill_work_block_imap, list_lookup_imap.
  rewrite (lookup_mark_recovery speeds _ i v (label_before_recovery first last i v) Hv).
  - reflexivity.
  - rewrite lookup_before_recovery, Hv. reflexivity.
Qed.

(** ** Classification: main results *)

(** C1: the five-lap scenario [5, 10, 18, 6, 9] km/h is classified
    [Unknown, Warm-up, Intensity, Recovery, Cool-down]; the first lap, slow
    and without a predecessor, keeps [Unknown] in the final result. *)
Theorem classify_scenario_five_laps :
  classify_lap_nature_by_speed
    (laps_of_speeds [Fin 5; Fin 10; Fin 18; Fin 6; Fin 9])
  = [Unknown; Warm_up; Intensity; Recovery; Cool_down].
Proof. vm_compute. reflexivity. Qed.

(** C2: on the labels left by the earlier steps, the shift-based recovery
    step gives the same column as the left-to-right loop that carries the
    previous lap's assigned label; it writes [Recovery] on exactly the
    slow laps whose previous lap is [Intensity]; and the whole classifier
    equals the specification's sequential algorithm. *)
Theorem recovery_step_is_sequential (speeds : list float) (first last : nat) :
  let labels := before_recovery first last speeds in
  mark_recovery speeds labels = sequential_recovery None speeds labels
  /\ (forall i : nat,
        mark_recovery speeds labels !! i = Some Recovery <->
        exists v j, speeds !! i = Some v /\ flt v RECOVERY_SPEED_THRESHOLD = true
                    /\ i = S j /\ labels !! j = Some Intensity)
  /\ classify_lap_nature_by_speed (laps_of_speeds speeds) = classify_sequential speeds.
Proof.
  intros labels. split; [apply mark_recovery_sequential|].
  split; [|apply classify_is_sequential].
  intros i. subst labels. split.
  - intros Hi.
    assert (i < length speeds)%nat as Hlt.
    { apply lookup_lt_Some in Hi. unfold mark_recovery in Hi.
      rewrite length_loc_set in Hi; rewrite ?length_before_recovery in *; [exact Hi|].
      unfold mask_and, prev_is_intensity, shift1.
      rewrite length_zip_with, !length_map, length_take, length_before_recovery.
      simpl. rewrite length_map, length_before_recovery. lia. }
    destruct (lookup_lt_is_Some_2 speeds i Hlt) as [v Hv].
    rewrite (lookup_mark_recovery speeds _ i v (label_before_recovery first last i v) Hv) in Hi
      by (rewrite lookup_before_recovery, Hv; reflexivity).
    destruct (flt v RECOVERY_SPEED_THRESHOLD) eqn:Hslow; simpl in Hi.
    + destruct i as [|j]; simpl in Hi.
      * injection Hi as Hi. destruct (label_before_recovery_not_recovery _ _ _ _ Hi).
      * destruct (before_recovery first last speeds !! j) as [m|] eqn:Hm.
        -- destruct (nature_eqb m Intensity) eqn:Hmi.
           ++ apply nature_eqb_eq in Hmi. subst m. exists v, j. auto.
           ++ injection Hi as Hi. destruct (label_before_recovery_not_recovery _ _ _ _ Hi).
        -- injection Hi as Hi. destruct (label_before_recovery_not_recovery _ _ _ _ Hi).
    + injection Hi as Hi. destruct (label_before_recovery_not_recovery _ _ _ _ Hi).
  - intros (v & j & Hv & Hslow & -> & Hj).
    rewrite (lookup_mark_recovery speeds _ (S j) v (label_before_recovery first last (S j) v) Hv)
      by (rewrite lookup_before_recovery, Hv; reflexivity).
    rewrite Hslow. simpl. rewrite Hj. reflexivity.
Qed.

(** C6, as stated, fails on a single lap without a usable speed: no lap is
    [Intensity], so the lap is labelled [Warm-up]. *)
Lemma nan_lap_alone_is_warm_up : ~ nan_lap_unknown_unless_interior [NaN] 0.
Proof.
  intros H. destruct (H eq_refl) as [Hu | (first & last & Hf & _)].
  - vm_compute in Hu. discriminate.
  - vm_compute in Hf. discriminate.
Qed.

(** C6, amended: an unparseable or missing [avg_speed] becomes [NaN]; a
    [NaN] speed fails every threshold test; classification returns one
    label per lap; and the lap is [Warm-up] when no lap is [Intensity],
    [Recovery] when it lies between the first and the last intensity lap,
    and [Unknown] otherwise. *)
Theorem nan_lap_classification (speeds : list float) (i : nat) :
  speeds !! i = Some NaN ->
  (forall lap, to_numeric (lap_avg_speed lap) = NaN ->
               lap_speeds_kmh [lap] = [NaN])
  /\ to_numeric (Some Unparseable) = NaN /\ to_numeric None = NaN
  /\ is_intensity_speed NaN = false
  /\ between RECOVERY_SPEED_THRESHOLD INTENSITY_SPEED_THRESHOLD NaN = false
  /\ flt NaN RECOVERY_SPEED_THRESHOLD = false
  /\ length (classify_lap_nature_by_speed (laps_of_speeds speeds)) = length speeds
  /\ classify_lap_nature_by_speed (laps_of_speeds speeds) !! i
     = Some match first_index is_intensity_speed speeds,
                  last_index is_intensity_speed speeds with
            | Some first, Some last =>
                if (first <=? i)%nat && (i <=? last)%nat then Recovery else Unknown
            | _, _ => Warm_up
            end.
Proof.
  intros Hi.
  split; [intros lap Hlap; unfold lap_speeds_kmh; simpl; rewrite Hlap; reflexivity|].
  do 5 (split; [reflexivity|]).
  split; [apply length_classify|].
  destruct (first_index is_intensity_speed speeds) as [first|] eqn:Hf.
  - destruct (last_index is_intensity_speed speeds) as [last|] eqn:Hl.
    + rewrite (lookup_classify_work speeds first last i NaN Hf Hl Hi).
      assert (label_before_recovery first last i NaN = Unknown) as ->.
      { unfold label_before_recovery. simpl. rewrite !andb_false_r. reflexivity. }
      unfold interior_fill. simpl.
      destruct (first <=? i)%nat, (i <=? last)%nat; reflexivity.
    + apply first_last_index_None in Hl. congruence.
  - rewrite (classify_no_intensity speeds Hf).
    rewrite lookup_replicate_2; [reflexivity|]. eapply lookup_lt_Some. exact Hi.
Qed.

Lemma nan_lap_classification_witness :
  classify_lap_nature_by_speed (laps_of_speeds [Fin 18; NaN; Fin 18; NaN]) !! 1%nat
  = Some Recovery.
Proof.
  pose proof (nan_lap_classification [Fin 18; NaN; Fin 18; NaN] 1 eq_refl) as H.
  destruct H as (_ & _ & _ & _ & _ & _ & _ & H). exact H.
Defined.

(** C7: when no lap is faster than 17.05 km/h, and so in particular when
    every lap is at most 17.05 km/h, every lap is [Warm-up]. *)
Theorem classify_all_warm_up (speeds : list float) :
  (Forall (fun v => fgt v INTENSITY_SPEED_THRESHOLD = false) speeds \/
   Forall (fun v => fle v INTENSITY_SPEED_THRESHOLD = true) speeds) ->
  classify_lap_nature_by_speed (laps_of_speeds speeds)
  = replicate (length speeds) Warm_up.
Proof.
  intros H. apply classify_no_intensity, first_index_None.
  destruct H as [H|H]; [exact H|].
  eapply Forall_impl; [exact H|]. intros [|q]; simpl; [discriminate|].
  unfold is_intensity_speed. simpl.
  rewrite Qle_bool_iff, Qlt_bool_false_iff. tauto.
Qed.

Lemma classify_all_warm_up_witness :
  classify_lap_nature_by_speed (laps_of_speeds [Fin 5; NaN; Fin (1705 # 100)])
  = [Warm_up; Warm_up; Warm_up].
Proof.
  apply (classify_all_warm_up [Fin 5; NaN; Fin (1705 # 100)]).
  left. repeat constructor.
Defined.

(** ** Rounding *)

Lemma floor_bounds (q : Q) : inject_Z (Qfloor q) <= q < inject_Z (Qfloor q) + 1.
Proof.
  split; [apply Qfloor_le|].
  pose proof (Qlt_floor q) as H. rewrite inject_Z_plus in H. exact H.
Qed.

Lemma rint_cases (q : Q) :
  let f := Qfloor q in
  (rint q = f /\ q - inject_Z f <= 1 # 2) \/
  (rint q = (f + 1)%Z /\ 1 # 2 <= q - inject_Z f).
Proof.
  intros f. unfold rint. fold f.
  destruct (Qlt_bool (q - inject_Z f) (1 # 2)) eqn:H1.
  - apply Qlt_bool_iff in H1. left. split; [reflexivity|lra].
  - apply Qlt_bool_false_iff in H1.
    destruct (Qlt_bool (1 # 2) (q - inject_Z f)) eqn:H2.
    + right. split; [reflexivity|exact H1].
    + apply Qlt_bool_false_iff in H2.
      destruct (Z.even f); [left|right]; split; try reflexivity; assumption.
Qed.

Lemma rint_near (q : Q) : Qabs (inject_Z (rint q) - q) <= 1 # 2.
Proof.
  pose proof (floor_bounds q) as Hf.
  apply Qabs_Qle_condition.
  destruct (rint_cases q) as [[-> H]|[-> H]];
    rewrite ?inject_Z_plus; change (inject_Z 1) with 1; split; lra.
Qed.

Lemma rint_comp (p q : Q) : p == q -> rint p = rint q.
Proof.
  intros H. unfold rint. rewrite (Qfloor_comp p q H).
  assert (forall a b c, a == b -> Qlt_bool a c = Qlt_bool b c) as L1.
  { intros a b c E. unfold Qlt_bool. rewrite (Qleb_comp c c (Qeq_refl c) a b E). reflexivity. }
  assert (forall a b c, a == b -> Qlt_bool c a = Qlt_bool c b) as L2.
  { intros a b c E. unfold Qlt_bool. rewrite (Qleb_comp a b E c c (Qeq_refl c)). reflexivity. }
  rewrite (L1 (p - inject_Z (Qfloor q)) (q - inject_Z (Qfloor q))) by (rewrite H; reflexivity).
  rewrite (L2 (p - inject_Z (Qfloor q)) (q - inject_Z (Qfloor q))) by (rewrite H; reflexivity).
  reflexivity.
Qed.

Lemma rint_Z (z : Z) : rint (inject_Z z) = z.
Proof.
  unfold rint. rewrite Qfloor_Z.
  assert (Qlt_bool (inject_Z z - inject_Z z) (1 # 2) = true) as ->.
  { apply Qlt_bool_iff. lra. }
  reflexivity.
Qed.

Lemma rint_mono (p q : Q) : p <= q -> (rint p <= rint q)%Z.
Proof.
  intros Hpq.
  pose proof (Qfloor_resp_le p q Hpq) as Hfl.
  pose proof (floor_bounds p) as Hp. pose proof (floor_bounds q) as Hq.
  destruct (Z.eq_dec (Qfloor p) (Qfloor q)) as [E|NE].
  - unfold rint. rewrite E in *.
    set (f := Qfloor q) in *.
    destruct (Qlt_bool (p - inject_Z f) (1 # 2)) eqn:P1.
    + destruct (Qlt_bool (q - inject_Z f) (1 # 2)); [lia|].
      destruct (Qlt_bool (1 # 2) (q - inject_Z f)); [lia|].
      destruct (Z.even f); lia.
    + apply Qlt_bool_false_iff in P1.
      assert (Qlt_bool (q - inject_Z f) (1 # 2) = false) as ->.
      { apply Qlt_bool_false_iff. lra. }
      destruct (Qlt_bool (1 # 2) (p - inject_Z f)) eqn:P2.
      * apply Qlt_bool_iff in P2.
        assert (Qlt_bool (1 # 2) (q - inject_Z f) = true) as ->.
        { apply Qlt_bool_iff. lra. }
        lia.
      * destruct (Qlt_bool (1 # 2) (q - inject_Z f)); [destruct (Z.even f); lia|].
        lia.
  - assert (Qfloor p + 1 <= Qfloor q)%Z as Hlt by lia.
    destruct (rint_cases p) as [[-> _]|[-> _]];
      destruct (rint_cases q) as [[-> _]|[-> _]]; lia.
Qed.

Lemma round_to_value (s : positive) (q : Q) :
  round_to s q == inject_Z (rint (q * inject_Z (Zpos s))) / inject_Z (Zpos s).
Proof.
  unfold round_to. rewrite Qred_correct. rewrite Qmake_Qdiv. reflexivity.
Qed.

Lemma round_to_comp (s : positive) (p q : Q) : p == q -> round_to s p = round_to s q.
Proof.
  intros H. unfold round_to.
  rewrite (rint_comp (p * inject_Z (Z.pos s)) (q * inject_Z (Z.pos s)))
    by (rewrite H; reflexivity).
  reflexivity.
Qed.

Lemma inject_Z_pos (s : positive) : 0 < inject_Z (Zpos s).
Proof. unfold Qlt. simpl. lia. Qed.

Lemma round_to_mono (s : positive) (p q : Q) : p <= q -> round_to s p <= round_to s q.
Proof.
  intros H. rewrite !round_to_value.
  pose proof (inject_Z_pos s) as Hs.
  apply Qmult_le_compat_r.
  - rewrite <- Zle_Qle. apply rint_mono. apply Qmult_le_compat_r; [exact H|lra].
  - apply Qlt_le_weak. apply Qinv_lt_0_compat. exact Hs.
Qed.

Lemma round_to_grid (s : positive) (q : Q) : on_grid s q -> round_to s q == q.
Proof.
  intros [z Hz]. rewrite round_to_value.
  rewrite (rint_comp (q * inject_Z (Z.pos s)) (inject_Z z)).
  - rewrite rint_Z, Hz, Qmake_Qdiv. reflexivity.
  - rewrite Hz, Qmake_Qdiv. field. pose proof (inject_Z_pos s). lra.
Qed.

Lemma round_to_on_grid (s : positive) (q : Q) : on_grid s (round_to s q).
Proof.
  exists (rint (q * inject_Z (Zpos s))). unfold round_to. apply Qred_correct.
Qed.

Lemma round_to_near (s : positive) (q : Q) :
  Qabs (round_to s q - q) <= (1 # 2) / inject_Z (Zpos s).
Proof.
  pose proof (inject_Z_pos s) as Hs.
  pose proof (rint_near (q * inject_Z (Zpos s))) as H.
  rewrite round_to_value.
  apply Qabs_Qle_condition in H. destruct H as [H1 H2].
  apply Qabs_Qle_condition.
  set (r := inject_Z (rint (q * inject_Z (Z.pos s)))) in *.
  set (d := inject_Z (Z.pos s)) in *.
  assert (r / d - q == (r - q * d) / d) as -> by (field; lra).
  split.
  - assert (- ((1 # 2) / d) == (- (1 # 2)) / d) as -> by (field; lra).
    apply Qmult_le_compat_r; [exact H1|].
    apply Qlt_le_weak, Qinv_lt_0_compat, Hs.
  - apply Qmult_le_compat_r; [exact H2|].
    apply Qlt_le_weak, Qinv_lt_0_compat, Hs.
Qed.

Lemma on_grid_minus (s : positive) (p q : Q) :
  on_grid s p -> on_grid s q -> on_grid s (p - q).
Proof.
  intros [a Ha] [b Hb]. exists (a - b)%Z. rewrite Ha, Hb, !Qmake_Qdiv.
  unfold Z.sub. rewrite inject_Z_plus, inject_Z_opp. field. pose proof (inject_Z_pos s). lra.
Qed.

Lemma on_grid_plus (s : positive) (p q : Q) :
  on_grid s p -> on_grid s q -> on_grid s (p + q).
Proof.
  intros [a Ha] [b Hb]. exists (a + b)%Z. rewrite Ha, Hb, !Qmake_Qdiv.
  rewrite inject_Z_plus. field. pose proof (inject_Z_pos s). lra.
Qed.

Lemma on_grid_Z (s : positive) (z : Z) : on_grid s (inject_Z z).
Proof.
  exists (z * Zpos s)%Z. rewrite Qmake_Qdiv, inject_Z_mult. field.
  pose proof (inject_Z_pos s). lra.
Qed.

Lemma on_grid_comp (s : positive) (p q : Q) : p == q -> on_grid s p -> on_grid s q.
Proof. intros E [z Hz]. exists z. rewrite <- E. exact Hz. Qed.

(** ** The moving-time block, row by row *)

Lemma corrections_unfold (pe pd : float) (E D : list float) :
  np_where
    (mask_and (List.map (fun x => fge x PAUSE_TIME_THRESHOLD_S) (zip_with fsub E (pe :: E)))
              (List.map (fun x => fle x PAUSE_DISTANCE_THRESHOLD_M)
                        (fillna0 (zip_with fsub D (pd :: D)))))
    (List.map (fun x => fsub x (Fin 1)) (zip_with fsub E (pe :: E)))
    (List.map (fun _ => Fin 0) (zip_with fsub E (pe :: E)))
  = corrections_from pe pd E D.
Proof.
  revert pe pd D. induction E as [|e E IH]; intros pe pd D; [reflexivity|].
  destruct D as [|d D]; [reflexivity|].
  cbn [zip_with List.map fillna0 mask_and np_where zip corrections_from].
  unfold np_where, mask_and, fillna0 in IH. cbn [zip_with]. f_equal.
  apply IH.
Qed.

Lemma pause_correction_rows (E D : list float) :
  pause_correction_s E D = corrections_from NaN NaN E D.
Proof.
  unfold pause_correction_s, diff. rewrite corrections_unfold.
  destruct E as [|e E]; [reflexivity|]. destruct D as [|d D]; [reflexivity|].
  simpl. f_equal. unfold correction_step. destruct e; reflexivity.
Qed.

Lemma correction_step_fin (pe pd : float) (e : Q) (d : float) :
  correction_step pe pd (Fin e) d = Fin (correction_value pe pd e d).
Proof.
  unfold correction_value, correction_step.
  destruct pe as [|p]; simpl; [reflexivity|].
  destruct (_ && _); reflexivity.
Qed.

Lemma correction_value_cases (pe pd : float) (e : Q) (d : float) :
  correction_value pe pd e d = 0 \/
  exists p, pe = Fin p /\ correction_value pe pd e d = e - p - 1 /\ 10 <= e - p.
Proof.
  unfold correction_value, correction_step.
  destruct pe as [|p]; simpl; [left; reflexivity|].
  destruct (Qle_bool 10 (e - p)) eqn:H; simpl; [|left; reflexivity].
  destruct (fle _ _); [|left; reflexivity].
  right. exists p. apply Qle_bool_iff in H. auto.
Qed.

Lemma cumsum_corrections (pe pd : float) (acc : Q) (es : list Q) (D : list float) :
  cumsum_from acc (corrections_from pe pd (List.map Fin es) D)
  = List.map Fin (cumulative_from pe pd acc es D).
Proof.
  revert pe pd acc D. induction es as [|e es IH]; intros pe pd acc D; [reflexivity|].
  destruct D as [|d D]; [reflexivity|].
  cbn [List.map corrections_from cumulative_from].
  rewrite correction_step_fin. cbn [cumsum_from List.map]. f_equal. apply IH.
Qed.

Lemma moving_time_fin (es : list Q) (D : list float) :
  moving_time (List.map Fin es) D
  = List.map Fin (zip_with (fun e c => round_to 10 (e - c)) es (cumulative_pause es D)).
Proof.
  unfold moving_time, cumsum, cumulative_pause.
  rewrite pause_correction_rows, cumsum_corrections.
  generalize (cumulative_from NaN NaN 0 es D). intros cs.
  revert cs. induction es as [|e es IH]; intros [|c cs]; try reflexivity.
  cbn [List.map zip_with]. f_equal. apply IH.
Qed.

Lemma length_cumulative_from (pe pd : float) (acc : Q) (es : list Q) (D : list float) :
  length (cumulative_from pe pd acc es D) = Nat.min (length es) (length D).
Proof.
  revert pe pd acc D. induction es as [|e es IH]; intros pe pd acc [|d D]; simpl;
    try reflexivity.
  f_equal. apply IH.
Qed.

Lemma cumulative_pause_first (es : list Q) (D : list float) (c : Q) :
  cumulative_pause es D !! 0%nat = Some c -> c == 0.
Proof.
  unfold cumulative_pause. destruct es as [|e es]; [discriminate|].
  destruct D as [|d D]; [discriminate|]. simpl. intros [= <-].
  unfold correction_value. simpl. lra.
Qed.

Lemma cumulative_from_next (pe pd : float) (acc : Q) (es : list Q) (D : list float)
    (i : nat) (c' : Q) :
  cumulative_from pe pd acc es D !! S i = Some c' ->
  exists c e e' d d',
    cumulative_from pe pd acc es D !! i = Some c /\
    es !! i = Some e /\ es !! S i = Some e' /\ D !! i = Some d /\ D !! S i = Some d' /\
    c' = c + correction_value (Fin e) d e' d'.
Proof.
  revert pe pd acc D i. induction es as [|x es IH]; intros pe pd acc D i; [discriminate|].
  destruct D as [|d D]; [discriminate|].
  destruct i as [|i].
  - destruct es as [|y es]; [discriminate|]. destruct D as [|d' D]; [discriminate|].
    simpl. intros [= <-]. exists (acc + correction_value pe pd x d), x, y, d, d'.
    repeat split; reflexivity.
  - simpl. intros H. apply IH in H. exact H.
Qed.

Lemma cumulative_from_step (pe pd : float) (acc : Q) (es : list Q) (D : list float)
    (i : nat) (c c' e e' : Q) :
  cumulative_from pe pd acc es D !! i = Some c ->
  cumulative_from pe pd acc es D !! S i = Some c' ->
  es !! i = Some e -> es !! S i = Some e' ->
  c' == c \/ (c' == c + (e' - e - 1) /\ 10 <= e' - e).
Proof.
  intros Hc Hc' He He'.
  destruct (cumulative_from_next _ _ _ _ _ _ _ Hc') as
    (c0 & x & y & d & d' & Hc0 & Hx & Hy & _ & _ & ->).
  rewrite Hc in Hc0. rewrite He in Hx. rewrite He' in Hy.
  injection Hc0 as <-. injection Hx as <-. injection Hy as <-.
  destruct (correction_value_cases (Fin e) d e' d') as [-> | (p & [= <-] & -> & Hge)].
  - left. lra.
  - right. split; [reflexivity|exact Hge].
Qed.

(** ** Invariants of the moving-time column *)

Lemma lookup_pred {A} (l : list A) (i : nat) (x : A) :
  l !! S i = Some x -> exists y, l !! i = Some y.
Proof.
  intros H. apply lookup_lt_is_Some. apply lookup_lt_Some in H. lia.
Qed.

Lemma ascending_le (l : list Q) (i j : nat) (a b : Q) :
  ascending l -> (i <= j)%nat -> l !! i = Some a -> l !! j = Some b -> a <= b.
Proof.
  intros Hasc Hij Ha. revert b. induction Hij as [|j Hij IH]; intros b Hb.
  - rewrite Ha in Hb. injection Hb as <-. lra.
  - destruct (lookup_pred l j b Hb) as [y Hy].
    specialize (IH y Hy). specialize (Hasc j y b Hy Hb). lra.
Qed.

Section MovingTime.
Variable es : list Q.
Variable D : list float.
Hypothesis Hlen : length D = length es.
Hypothesis Hasc : ascending es.

Let cs : list Q := cumulative_pause es D.
Let ms : list Q := zip_with (fun e c => round_to 10 (e - c)) es cs.

Lemma length_cumulative_pause : length cs = length es.
Proof. subst cs. unfold cumulative_pause. rewrite length_cumulative_from. lia. Qed.

Lemma cumulative_pause_step (i : nat) (c c' e e' : Q) :
  cs !! i = Some c -> cs !! S i = Some c' ->
  es !! i = Some e -> es !! S i = Some e' ->
  c' == c \/ (c' == c + (e' - e - 1) /\ 10 <= e' - e).
Proof. apply cumulative_from_step. Qed.

Lemma lookup_es_of_cs (i : nat) (c : Q) : cs !! i = Some c -> exists e, es !! i = Some e.
Proof.
  intros H. apply lookup_lt_is_Some. apply lookup_lt_Some in H.
  rewrite length_cumulative_pause in H. exact H.
Qed.

Lemma lookup_cs_of_es (i : nat) (e : Q) : es !! i = Some e -> exists c, cs !! i = Some c.
Proof.
  intros H. apply lookup_lt_is_Some. apply lookup_lt_Some in H.
  rewrite length_cumulative_pause. exact H.
Qed.

Lemma cumulative_pause_ascending : ascending cs.
Proof.
  intros i c c' Hc Hc'.
  destruct (lookup_es_of_cs i c Hc) as [e He].
  destruct (lookup_es_of_cs (S i) c' Hc') as [e' He'].
  destruct (cumulative_pause_step i c c' e e' Hc Hc' He He') as [E|[E Hge]]; lra.
Qed.

(** The cumulative pause is zero until the first pause and at least
    nine seconds from then on. *)
Lemma cumulative_pause_zero_or_nine (i : nat) (c : Q) :
  cs !! i = Some c -> c == 0 \/ 9 <= c.
Proof.
  revert c. induction i as [|i IH]; intros c Hc.
  - left. apply (cumulative_pause_first es D). exact Hc.
  - destruct (lookup_pred cs i c Hc) as [c0 Hc0].
    destruct (lookup_es_of_cs i c0 Hc0) as [e He].
    destruct (lookup_es_of_cs (S i) c Hc) as [e' He'].
    destruct (cumulative_pause_step i c0 c e e' Hc0 Hc He He') as [E|[E Hge]];
      destruct (IH c0 Hc0) as [Z|N]; [left|right|right|right]; lra.
Qed.

Lemma cumulative_pause_nonneg (i : nat) (c : Q) : cs !! i = Some c -> 0 <= c.
Proof. intros H. destruct (cumulative_pause_zero_or_nine i c H); lra. Qed.

(** Elapsed time minus cumulative pause never goes back: over a pause
    it advances by one second, otherwise by the gap. *)
Lemma unrounded_ascending : ascending (zip_with Qminus es cs).
Proof.
  intros i a b Ha Hb.
  apply lookup_zip_with_Some in Ha as (e & c & -> & He & Hc).
  apply lookup_zip_with_Some in Hb as (e' & c' & -> & He' & Hc').
  pose proof (Hasc i e e' He He').
  destruct (cumulative_pause_step i c c' e e' Hc Hc' He He') as [E|[E Hge]]; lra.
Qed.

Lemma lookup_ms (i : nat) (m : Q) :
  ms !! i = Some m <->
  exists e c, es !! i = Some e /\ cs !! i = Some c /\ m = round_to 10 (e - c).
Proof.
  subst ms. rewrite lookup_zip_with_Some. split.
  - intros (e & c & -> & He & Hc). eauto.
  - intros (e & c & He & Hc & ->). eauto.
Qed.

Lemma length_ms : length ms = length es.
Proof. subst ms. rewrite length_zip_with, length_cumulative_pause. lia. Qed.

Lemma moving_ascending : ascending ms.
Proof.
  intros i a b Ha Hb.
  apply lookup_ms in Ha as (e & c & He & Hc & ->).
  apply lookup_ms in Hb as (e' & c' & He' & Hc' & ->).
  apply round_to_mono.
  apply (unrounded_ascending i); apply lookup_zip_with_Some; eauto.
Qed.

Lemma moving_first (e0 m0 : Q) :
  es !! 0%nat = Some e0 -> ms !! 0%nat = Some m0 -> m0 == round_to 10 e0.
Proof.
  intros He Hm. apply lookup_ms in Hm as (e & c & He' & Hc & ->).
  rewrite He in He'. injection He' as <-.
  apply (cumulative_pause_first es D) in Hc.
  rewrite (round_to_comp 10 (e0 - c) e0) by lra. reflexivity.
Qed.

(** The moving time is never negative when the elapsed time starts
    at zero. *)
Lemma unrounded_nonneg (i : nat) (e c e0 : Q) :
  es !! 0%nat = Some e0 -> 0 <= e0 ->
  es !! i = Some e -> cs !! i = Some c -> 0 <= e - c.
Proof.
  intros He0 Hpos He Hc.
  destruct (lookup_cs_of_es 0 e0 He0) as [c0 Hc0].
  pose proof (cumulative_pause_first es D c0 Hc0) as Hz.
  assert (e0 - c0 <= e - c) as H.
  { apply (ascending_le (zip_with Qminus es cs) 0 i);
      [apply unrounded_ascending|lia| |]; apply lookup_zip_with_Some; eauto. }
  lra.
Qed.

Section Grid.
Hypothesis Hgrid : Forall (on_grid 10) es.

Lemma es_on_grid (i : nat) (e : Q) : es !! i = Some e -> on_grid 10 e.
Proof. intros H. eapply Forall_lookup_1; eassumption. Qed.

Lemma cumulative_pause_on_grid (i : nat) (c : Q) : cs !! i = Some c -> on_grid 10 c.
Proof.
  revert c. induction i as [|i IH]; intros c Hc.
  - apply (cumulative_pause_first es D) in Hc.
    apply (on_grid_comp 10 (inject_Z 0)); [rewrite Hc; reflexivity|apply on_grid_Z].
  - destruct (lookup_pred cs i c Hc) as [c0 Hc0].
    destruct (lookup_es_of_cs i c0 Hc0) as [e He].
    destruct (lookup_es_of_cs (S i) c Hc) as [e' He'].
    destruct (cumulative_pause_step i c0 c e e' Hc0 Hc He He') as [E|[E Hge]].
    + apply (on_grid_comp 10 c0); [rewrite E; reflexivity|apply IH, Hc0].
    + apply (on_grid_comp 10 (c0 + (e' - e - inject_Z 1))); [rewrite E; reflexivity|].
      apply on_grid_plus; [apply IH, Hc0|].
      apply on_grid_minus; [|apply on_grid_Z].
      apply on_grid_minus; [apply (es_on_grid (S i)), He'|apply (es_on_grid i), He].
Qed.

(** On the grid the rounding changes nothing. *)
Lemma moving_exact (i : nat) (m e c : Q) :
  ms !! i = Some m -> es !! i = Some e -> cs !! i = Some c -> m == e - c.
Proof.
  intros Hm He Hc. apply lookup_ms in Hm as (e' & c' & He' & Hc' & ->).
  rewrite He in He'. rewrite Hc in Hc'. injection He' as <-. injection Hc' as <-.
  apply round_to_grid, on_grid_minus;
    [apply (es_on_grid i), He|apply (cumulative_pause_on_grid i), Hc].
Qed.
End Grid.
End MovingTime.

(** ** Sorting *)

Section SortBy.
Context {A : Type} (key : A -> float).

Lemma na_last_le_total (x y : float) : na_last_le x y = false -> na_last_le y x = true.
Proof.
  destruct x as [|a], y as [|b]; simpl; try congruence.
  rewrite Qle_bool_false_iff, Qle_bool_iff. lra.
Qed.

Lemma insert_by_Forall (P : A -> Prop) (x : A) (l : list A) :
  P x -> Forall P l -> Forall P (insert_by key x l).
Proof.
  intros Hx Hl. induction Hl as [|y l Hy Hl IH]; simpl.
  - repeat constructor. exact Hx.
  - destruct (na_last_le (key x) (key y)); repeat constructor; assumption.
Qed.

Lemma insert_by_HdRel (a x : A) (l : list A) :
  (key_le key) a x -> HdRel (key_le key) a l -> HdRel (key_le key) a (insert_by key x l).
Proof.
  intros Hax Hal. destruct l as [|y l]; simpl; [constructor; exact Hax|].
  destruct (na_last_le (key x) (key y)); constructor; [exact Hax|].
  inversion Hal; assumption.
Qed.

Lemma insert_by_Sorted (x : A) (l : list A) :
  Sorted (key_le key) l -> Sorted (key_le key) (insert_by key x l).
Proof.
  induction 1 as [|y l Hl IH Hy]; simpl.
  - repeat constructor.
  - destruct (na_last_le (key x) (key y)) eqn:E.
    + constructor; [constructor; assumption|constructor; exact E].
    + constructor; [exact IH|].
      apply insert_by_HdRel; [apply na_last_le_total; exact E|exact Hy].
Qed.

Lemma sort_by_Sorted (l : list A) : Sorted (key_le key) (sort_by key l).
Proof.
  induction l as [|x l IH]; simpl; [constructor|].
  apply insert_by_Sorted. exact IH.
Qed.

Lemma sort_by_Forall (P : A -> Prop) (l : list A) :
  Forall P l -> Forall P (sort_by key l).
Proof.
  induction 1 as [|x l Hx Hl IH]; simpl; [constructor|].
  apply insert_by_Forall; assumption.
Qed.

Lemma length_insert_by (x : A) (l : list A) :
  length (insert_by key x l) = S (length l).
Proof.
  induction l as [|y l IH]; simpl; [reflexivity|].
  destruct (na_last_le (key x) (key y)); simpl; [reflexivity|]. rewrite IH. reflexivity.
Qed.

Lemma length_sort_by (l : list A) : length (sort_by key l) = length l.
Proof.
  induction l as [|x l IH]; simpl; [reflexivity|].
  rewrite length_insert_by, IH. reflexivity.
Qed.

Lemma existsb_insert_by (p : A -> bool) (x : A) (l : list A) :
  existsb p (insert_by key x l) = p x || existsb p l.
Proof.
  induction l as [|y l IH]; simpl; [reflexivity|].
  destruct (na_last_le (key x) (key y)); simpl; [reflexivity|].
  rewrite IH. destruct (p x), (p y); reflexivity.
Qed.

Lemma existsb_sort_by (p : A -> bool) (l : list A) :
  existsb p (sort_by key l) = existsb p l.
Proof.
  induction l as [|x l IH]; simpl; [reflexivity|].
  rewrite existsb_insert_by, IH. reflexivity.
Qed.

Lemma Sorted_consecutive (l : list A) (i : nat) (a b : A) :
  Sorted (key_le key) l -> l !! i = Some a -> l !! S i = Some b -> (key_le key) a b.
Proof.
  intros Hs. revert i. induction Hs as [|x l Hl IH Hx]; intros i; [discriminate|].
  destruct i as [|i]; simpl.
  - intros [= <-] Hb. destruct l as [|y l]; [discriminate|].
    injection Hb as <-. inversion Hx; assumption.
  - apply IH.
Qed.
End SortBy.

Lemma has_column_sort_by {A B} (field : A -> option B) (key : A -> float) (rows : list A) :
  has_column field (sort_by key rows) = has_column field rows.
Proof. apply existsb_sort_by. Qed.

(** ** The normalised table *)

Lemma has_column_all {A B} (field : A -> option B) (rows : list A) :
  rows <> [] -> Forall (fun r => is_Some (field r)) rows -> has_column field rows = true.
Proof.
  intros Hne H. destruct H as [|x rows Hx _]; [congruence|]. unfold has_column. simpl.
  rewrite bool_decide_eq_true_2 by exact Hx. reflexivity.
Qed.

Lemma column_all {A} (field : A -> option Q) (rows : list A) :
  Forall (fun r => is_Some (field r)) rows ->
  column field rows = List.map Fin (List.map (fun r => default 0 (field r)) rows).
Proof.
  induction 1 as [|r rows [q Hq] _ IH]; simpl; [reflexivity|].
  rewrite Hq. simpl. f_equal. exact IH.
Qed.

Lemma sorted_field_ascending {A} (field : A -> option Q) (rows : list A) :
  Forall (fun r => is_Some (field r)) rows ->
  ascending (List.map (fun r => default 0 (field r))
                      (sort_by (fun r => to_cell (field r)) rows)).
Proof.
  intros Hall i a b Ha Hb.
  rewrite lookup_map in Ha, Hb.
  set (key := fun r => to_cell (field r)) in *.
  destruct (sort_by key rows !! i) as [ra|] eqn:Hra; [|discriminate].
  destruct (sort_by key rows !! S i) as [rb|] eqn:Hrb; [|discriminate].
  injection Ha as <-. injection Hb as <-.
  pose proof (Sorted_consecutive key _ i ra rb (sort_by_Sorted key rows) Hra Hrb) as Hle.
  pose proof (sort_by_Forall key _ rows Hall) as Hs.
  destruct (Forall_lookup_1 _ _ _ _ Hs Hra) as [qa Hqa].
  destruct (Forall_lookup_1 _ _ _ _ Hs Hrb) as [qb Hqb].
  unfold key_le, key in Hle. rewrite Hqa, Hqb in *. simpl in *.
  apply Qle_bool_iff. exact Hle.
Qed.

Lemma sorted_timestamps_ascending (rows : list RecordMsg) :
  Forall has_timestamp rows ->
  ascending (List.map (fun r => default 0 (rec_timestamp r))
                      (sort_by (fun r => to_cell (rec_timestamp r)) rows)).
Proof. apply sorted_field_ascending. Qed.

(** With a timestamp on every record, the elapsed times are finite, start
    at zero and ascend; [V3] moreover puts them on the 0.1 s grid. *)
Lemma normalize_elapsed (v3 : bool) (rows : list RecordMsg) :
  rows <> [] -> Forall has_timestamp rows ->
  exists es,
    elapsed_time_s (normalize v3 rows) = Some (List.map Fin es) /\
    length es = length rows /\
    ascending es /\
    (forall e0, es !! 0%nat = Some e0 -> e0 == 0) /\
    (v3 = true -> Forall (on_grid 10) es) /\
    (forall d, distance (normalize v3 rows) = Some d -> length d = length es).
Proof.
  intros Hne Hall.
  unfold normalize. rewrite (has_column_all rec_timestamp rows Hne Hall).
  set (key := fun r => to_cell (rec_timestamp r)).
  pose proof (sort_by_Forall key has_timestamp rows Hall) as Hs.
  rewrite (column_all rec_timestamp _ Hs).
  pose proof (sorted_timestamps_ascending rows Hall) as Hasc. fold key in Hasc.
  pose proof (length_sort_by key rows) as Hlen.
  rewrite <- (length_map (fun r => default 0 (rec_timestamp r))) in Hlen.
  assert (forall d, (if has_column rec_distance (sort_by key rows)
                     then Some (column rec_distance (sort_by key rows)) else None) = Some d ->
                    length d = length (sort_by key rows)) as Hd.
  { intros d. destruct (has_column rec_distance (sort_by key rows)); [|discriminate].
    intros [= <-]. unfold column. rewrite length_map. reflexivity. }
  rewrite <- (length_map (fun r => default 0 (rec_timestamp r))) in Hd.
  revert Hasc Hlen Hd.
  generalize (List.map (fun r => default 0 (rec_timestamp r)) (sort_by key rows)).
  intros qs Hasc Hlen Hd.
  destruct qs as [|q0 qs0] eqn:Eqs; [destruct rows; [congruence|discriminate]|].
  rewrite <- Eqs in *. cbn [elapsed_time_s distance].
  replace (default NaN (head (List.map Fin qs))) with (Fin q0) by (rewrite Eqs; reflexivity).
  set (g := fun q : Q => if v3 then round_to 10 (q - q0) else q - q0).
  exists (List.map g qs).
  assert (H0 : forall q, q == q0 -> g q == 0).
  { intros q Hq. unfold g. destruct v3; [|lra].
    rewrite (round_to_comp 10 (q - q0) 0) by lra. reflexivity. }
  repeat split.
  - simpl. f_equal. rewrite !map_map.
    destruct v3; simpl; rewrite ?map_map; apply map_ext; intros q; reflexivity.
  - rewrite length_map. exact Hlen.
  - intros i a b Ha Hb. rewrite lookup_map in Ha, Hb.
    destruct (qs !! i) as [x|] eqn:Hx; [|discriminate].
    destruct (qs !! S i) as [y|] eqn:Hy; [|discriminate].
    injection Ha as <-. injection Hb as <-.
    pose proof (Hasc i x y Hx Hy). unfold g.
    destruct v3; [apply round_to_mono|]; lra.
  - intros e0. rewrite lookup_map, Eqs. simpl. intros [= <-]. apply H0. reflexivity.
  - intros ->. clear. induction qs as [|q qs IH]; simpl; constructor;
      [apply round_to_on_grid|exact IH].
  - intros d Hdist. rewrite length_map. apply Hd. exact Hdist.
Qed.

(** ** Finite columns *)

Lemma lookup_map_Fin (l : list Q) (i : nat) (x : float) :
  List.map Fin l !! i = Some x <-> exists q, l !! i = Some q /\ x = Fin q.
Proof.
  rewrite lookup_map. destruct (l !! i) as [q|]; simpl; split.
  - intros [= <-]. eauto.
  - intros (q' & [= <-] & ->). reflexivity.
  - discriminate.
  - intros (q' & Hq & _). discriminate.
Qed.

(** A cell read from a finite column: name its value and the lookup. *)
Tactic Notation "finite_cell" hyp(H) "as" ident(q) ident(Hq) :=
  apply lookup_map_Fin in H as (q & Hq & ->).

Lemma nth_lookup_Q (l : list Q) (i : nat) (q : Q) : l !! i = Some q -> nth i l 0 = q.
Proof. intros H. apply nth_lookup_Some with (d := 0) in H. exact H. Qed.

(** ** The record pipelines *)

Lemma add_lap_info_keeps (n : nat) (ff : FitFile) (df : DataFrame) :
  let df' := add_lap_info n ff df in
  timestamp df' = timestamp df /\ distance df' = distance df /\
  elapsed_time_s df' = elapsed_time_s df /\
  moving_elapsed_time_s df' = moving_elapsed_time_s df.
Proof.
  unfold add_lap_info.
  destruct (timestamp df) eqn:Hts; [|repeat split; simpl; congruence].
  destruct (laps ff); [repeat split; simpl; congruence|].
  destruct (laps_sorted (l0 :: l1)); [repeat split; simpl; congruence|].
  destruct (has_column _ _); repeat split; simpl; congruence.
Qed.

(** What a successful [parse_fit] returns in the columns of the moving-time
    block. *)
Lemma parse_fit_Ok (ff : FitFile) (df : DataFrame) :
  parse_fit ff = Ok df ->
  let df0 := normalize false (records ff) in
  records ff <> [] /\
  elapsed_time_s df = elapsed_time_s df0 /\
  distance df = distance df0 /\
  moving_elapsed_time_s df =
    match elapsed_time_s df0, distance df0 with
    | Some e, Some d => Some (moving_time e d)
    | _, _ => None
    end /\
  elapsed_time_min_sec df
  = (List.map format_seconds_to_min_sec <$> moving_elapsed_time_s df).
Proof.
  unfold parse_fit. destruct (records ff) as [|r rows] eqn:Hr; [discriminate|].
  set (df0 := normalize false (r :: rows)).
  destruct (add_lap_info_keeps (length (r :: rows)) ff df0) as (_ & Hd & He & Hm).
  set (df1 := add_lap_info (length (r :: rows)) ff df0) in *.
  assert (moving_elapsed_time_s df0 = None) as Hm0 by reflexivity.
  assert (elapsed_time_min_sec df1 = None) as Hms.
  { subst df1. unfold add_lap_info.
    destruct (timestamp df0); [|reflexivity].
    destruct (laps ff); [reflexivity|].
    destruct (laps_sorted _); [reflexivity|]. destruct (has_column _ _); reflexivity. }
  unfold moving_time_stage. rewrite He, Hd.
  destruct (elapsed_time_s df0) as [e|] eqn:He0.
  - destruct (distance df0) as [d|] eqn:Hd0; simpl.
    + intros [= <-]. simpl. repeat split; congruence.
    + rewrite ?He, ?Hm, ?Hm0. discriminate.
  - rewrite ?He. intros [= <-]. rewrite ?He, ?Hd, ?Hm, ?Hm0, ?Hms. repeat split; congruence.
Qed.

Lemma parse_fit_records_Ok (fitfile : FitFile) (df : DataFrame) :
  parse_fit_records fitfile = Ok df ->
  let df0 := normalize true (records fitfile) in
  records fitfile <> [] /\
  elapsed_time_s df = elapsed_time_s df0 /\
  distance df = distance df0 /\
  moving_elapsed_time_s df =
    match elapsed_time_s df0, distance df0 with
    | Some e, Some d => Some (moving_time e d)
    | _, _ => None
    end /\
  elapsed_time_hms df
  = (List.map format_seconds_to_hms <$> moving_elapsed_time_s df).
Proof.
  unfold parse_fit_records. destruct (records fitfile) as [|r rows] eqn:Hr; [discriminate|].
  set (df0 := normalize true (r :: rows)).
  assert (moving_elapsed_time_s df0 = None) as Hm0 by reflexivity.
  assert (elapsed_time_hms df0 = None) as Hh0 by reflexivity.
  unfold moving_time_stage.
  destruct (elapsed_time_s df0) as [e|] eqn:He0.
  - destruct (distance df0) as [d|] eqn:Hd0; simpl.
    + intros [= <-]. simpl. repeat split; congruence.
    + rewrite ?Hm0. intros [= <-]. rewrite ?He0, ?Hd0, ?Hm0, ?Hh0. repeat split; congruence.
  - rewrite ?Hm0. intros [= <-]. rewrite ?He0, ?Hm0, ?Hh0. repeat split; congruence.
Qed.

(** The columns of a successful run over records that all carry a
    timestamp. *)
Lemma pipeline_columns (v3 : bool) (rows : list RecordMsg) (e m : list float) :
  rows <> [] -> Forall has_timestamp rows ->
  elapsed_time_s (normalize v3 rows) = Some e ->
  match elapsed_time_s (normalize v3 rows), distance (normalize v3 rows) with
  | Some e, Some d => Some (moving_time e d)
  | _, _ => None
  end = Some m ->
  exists es D,
    e = List.map Fin es /\ distance (normalize v3 rows) = Some D /\
    length D = length es /\ ascending es /\
    (forall e0, es !! 0%nat = Some e0 -> e0 == 0) /\
    (v3 = true -> Forall (on_grid 10) es) /\
    m = List.map Fin (zip_with (fun e c => round_to 10 (e - c)) es (cumulative_pause es D)).
Proof.
  intros Hne Hall He Hm.
  destruct (normalize_elapsed v3 rows Hne Hall) as (es & Hes & Hlen & Hasc & H0 & Hg & Hd).
  rewrite Hes in He, Hm. injection He as <-.
  destruct (distance (normalize v3 rows)) as [D|]; [|discriminate].
  injection Hm as <-. exists es, D.
  repeat split; try assumption.
  - apply Hd. reflexivity.
  - apply moving_time_fin.
Qed.

(** ** Binary64: a correction is never missing *)

Lemma shr_1_nonneg (mrs : SpecFloat.shr_record) :
  (0 <= SpecFloat.shr_m mrs)%Z -> (0 <= SpecFloat.shr_m (SpecFloat.shr_1 mrs))%Z.
Proof. destruct mrs as [m r s]. destruct m as [|[p|p|]|[p|p|]]; simpl; lia. Qed.

Lemma iter_shr_1_nonneg (p : positive) (mrs : SpecFloat.shr_record) :
  (0 <= SpecFloat.shr_m mrs)%Z ->
  (0 <= SpecFloat.shr_m (SpecFloat.iter_pos SpecFloat.shr_1 p mrs))%Z.
Proof.
  revert mrs. induction p as [p IH|p IH|]; intros mrs H; simpl.
  - apply IH, IH, shr_1_nonneg, H.
  - apply IH, IH, H.
  - apply shr_1_nonneg, H.
Qed.

Lemma shr_fexp_nonneg (prec emax m e : Z) (l : SpecFloat.location) :
  (0 <= m)%Z -> (0 <= SpecFloat.shr_m (SpecFloat.shr_fexp prec emax m e l).1)%Z.
Proof.
  intros H. unfold SpecFloat.shr_fexp, SpecFloat.shr.
  assert (SpecFloat.shr_m (SpecFloat.shr_record_of_loc m l) = m) as Hm
    by (destruct l as [|[]]; reflexivity).
  destruct (_ - e)%Z; simpl; rewrite ?Hm; try exact H.
  apply iter_shr_1_nonneg. rewrite Hm. exact H.
Qed.

Lemma round_nearest_even_nonneg (m : Z) (l : SpecFloat.location) :
  (0 <= m)%Z -> (0 <= SpecFloat.round_nearest_even m l)%Z.
Proof. intros H. destruct l as [|[]]; simpl; try destruct (Z.even m); lia. Qed.

Lemma binary_round_aux_not_nan (prec emax : Z) (sx : bool) (mx ex : Z)
    (lx : SpecFloat.location) :
  (0 <= mx)%Z -> SpecFloat.binary_round_aux prec emax sx mx ex lx <> SpecFloat.S754_nan.
Proof.
  intros H. unfold SpecFloat.binary_round_aux.
  pose proof (shr_fexp_nonneg prec emax mx ex lx H) as H1.
  destruct (SpecFloat.shr_fexp prec emax mx ex lx) as [mrs' e']. simpl in H1.
  pose proof (shr_fexp_nonneg prec emax _ e' SpecFloat.loc_Exact
                (round_nearest_even_nonneg _ (SpecFloat.loc_of_shr_record mrs') H1)) as H2.
  destruct (SpecFloat.shr_fexp prec emax _ e' SpecFloat.loc_Exact) as [mrs'' e''].
  simpl in H2. destruct (SpecFloat.shr_m mrs''); [discriminate| |lia].
  destruct (_ <=? _)%Z; discriminate.
Qed.

Lemma binary_normalize_not_nan (prec emax m e : Z) (szero : bool) :
  SpecFloat.binary_normalize prec emax m e szero <> SpecFloat.S754_nan.
Proof.
  unfold SpecFloat.binary_normalize, SpecFloat.binary_round.
  destruct m as [|p|p]; [discriminate| |];
    destruct (SpecFloat.shl_align _ _ _) as [mz ez];
    apply binary_round_aux_not_nan; lia.
Qed.

Lemma SFeqb_refl (y : SpecFloat.spec_float) :
  y <> SpecFloat.S754_nan -> SpecFloat.SFeqb y y = true.
Proof.
  intros H. unfold SpecFloat.SFeqb.
  destruct y as [s|s| |s m e]; [reflexivity|destruct s; reflexivity|congruence|].
  simpl. destruct s; rewrite Z.compare_refl, Pos.compare_cont_refl; reflexivity.
Qed.

(** A gap of at least 10 is a number or [+inf]; one less is not missing. *)
Lemma correction_not_missing (x : PrimFloat.float) :
  PrimFloat.leb 10%float x = true -> Binary64.isna (x - 1)%float = false.
Proof.
  intros H. unfold Binary64.isna.
  rewrite FloatAxioms.eqb_spec, FloatAxioms.sub_spec. rewrite FloatAxioms.leb_spec in H.
  apply negb_false_iff, SFeqb_refl.
  let v := eval vm_compute in (FloatOps.Prim2SF 10%float) in
    change (FloatOps.Prim2SF 10%float) with v in H.
  let v := eval vm_compute in (FloatOps.Prim2SF 1%float) in
    change (FloatOps.Prim2SF 1%float) with v.
  unfold FloatAxioms.SF64sub.
  destruct (FloatOps.Prim2SF x) as [s|s| |s m e].
  - discriminate H.
  - destruct s; [discriminate H|discriminate].
  - discriminate H.
  - destruct s; [discriminate H|]. apply binary_normalize_not_nan.
Qed.

(** ** Binary64: the columns, row by row *)

Lemma nth_lookup_f64 (l : list PrimFloat.float) (i : nat) (x : PrimFloat.float) :
  l !! i = Some x -> nth i l PrimFloat.nan = x.
Proof. intros H. apply nth_lookup_Some with (d := PrimFloat.nan) in H. exact H. Qed.

Lemma lookup_f64_diff (col : list PrimFloat.float) (i : nat) :
  (S i < length col)%nat -> Binary64.diff col !! S i = Some (Binary64.spec_dt col (S i)).
Proof.
  intros Hi. unfold Binary64.diff, Binary64.spec_dt.
  destruct (lookup_lt_is_Some_2 col (S i) Hi) as [x Hx].
  destruct (lookup_lt_is_Some_2 col i ltac:(lia)) as [y Hy].
  rewrite lookup_zip_with, Hx. simpl. rewrite Hy. simpl.
  replace (i - 0)%nat with i by lia.
  rewrite (nth_lookup_f64 col (S i) x Hx), (nth_lookup_f64 col i y Hy). reflexivity.
Qed.

Lemma length_f64_diff (col : list PrimFloat.float) : length (Binary64.diff col) = length col.
Proof. unfold Binary64.diff. rewrite length_zip_with. simpl. lia. Qed.

Lemma length_f64_corrections (es ds : list PrimFloat.float) :
  length ds = length es -> length (Binary64.pause_correction_s es ds) = length es.
Proof.
  intros H. unfold Binary64.pause_correction_s, np_where, mask_and, Binary64.fillna0.
  rewrite length_insert, !length_zip_with, !length_map, !length_f64_diff. lia.
Qed.

Lemma lookup_f64_corrections (es ds : list PrimFloat.float) (i : nat) :
  length ds = length es -> (i < length es)%nat ->
  Binary64.pause_correction_s es ds !! i = Some (Binary64.spec_pause_correction es ds i).
Proof.
  intros Hlen Hi. destruct i as [|i].
  - pose proof (length_f64_corrections es ds Hlen) as HL.
    unfold Binary64.pause_correction_s in *.
    rewrite list_lookup_insert_eq; [reflexivity|]. rewrite length_insert in HL. lia.
  - unfold Binary64.pause_correction_s.
    rewrite list_lookup_insert_ne by lia.
    unfold np_where. rewrite lookup_zip_with, lookup_mask_and, !lookup_map, lookup_zip_with.
    unfold Binary64.fillna0. rewrite !lookup_map.
    rewrite (lookup_f64_diff es i Hi), (lookup_f64_diff ds i) by lia. simpl.
    unfold Binary64.spec_pause_correction, Binary64.spec_real_pause, Binary64.spec_dd,
      Binary64.spec_dt, Binary64.PAUSE_TIME_THRESHOLD_S, Binary64.PAUSE_DISTANCE_THRESHOLD_M.
    simpl. reflexivity.
Qed.

Lemma spec_correction_not_missing (es ds : list PrimFloat.float) (i : nat) :
  Binary64.isna (Binary64.spec_pause_correction es ds i) = false.
Proof.
  unfold Binary64.spec_pause_correction, Binary64.spec_real_pause.
  destruct (0 <? i)%nat; [|reflexivity]. simpl.
  destruct (PrimFloat.leb 10%float (Binary64.spec_dt es i)) eqn:H; [|reflexivity].
  destruct (PrimFloat.leb (Binary64.spec_dd ds i) 1%float); [|reflexivity].
  apply correction_not_missing, H.
Qed.

Lemma f64_cumsum_from_step (acc : PrimFloat.float) (col : list PrimFloat.float) (i : nat) :
  Forall (fun x => Binary64.isna x = false) col ->
  Binary64.cumsum_from acc col !! S i =
  match Binary64.cumsum_from acc col !! i, col !! S i with
  | Some p, Some x => Some (p + x)%float
  | _, _ => None
  end.
Proof.
  intros H. revert acc i. induction H as [|x rest Hx Hrest IH]; intros acc i; [reflexivity|].
  simpl. rewrite Hx. destruct i as [|i]; simpl.
  - destruct Hrest as [|y rest' Hy _]; [reflexivity|]. simpl. rewrite Hy. reflexivity.
  - apply IH.
Qed.

Lemma f64_cumsum_step (col : list PrimFloat.float) (i : nat) :
  Forall (fun x => Binary64.isna x = false) col ->
  Binary64.cumsum col !! S i =
  match Binary64.cumsum col !! i, col !! S i with
  | Some p, Some x => Some (p + x)%float
  | _, _ => None
  end.
Proof.
  intros H. destruct H as [|x rest Hx Hrest]; [reflexivity|].
  unfold Binary64.cumsum. rewrite Hx. destruct i as [|i]; simpl.
  - destruct Hrest as [|y rest' Hy _]; [reflexivity|]. simpl. rewrite Hy. reflexivity.
  - apply f64_cumsum_from_step, Hrest.
Qed.

Lemma f64_cumsum_sum_to (col : list PrimFloat.float) (f : nat -> PrimFloat.float) (i : nat) :
  Forall (fun x => Binary64.isna x = false) col ->
  (forall j, (j <= i)%nat -> col !! j = Some (f j)) ->
  Binary64.cumsum col !! i = Some (Binary64.sum_to f i).
Proof.
  intros H. induction i as [|i IH]; intros Hf.
  - specialize (Hf 0%nat ltac:(lia)). destruct H as [|x rest Hx _]; [discriminate|].
    unfold Binary64.cumsum. rewrite Hx. simpl in *. destruct (Binary64.isna x); congruence.
  - rewrite (f64_cumsum_step col i H), IH, (Hf (S i)) by (intros; try apply Hf; lia).
    reflexivity.
Qed.

Lemma lookup_f64_moving (es ds : list PrimFloat.float) (i : nat) :
  length ds = length es -> (i < length es)%nat ->
  Binary64.moving_time es ds !! i = Some (Binary64.spec_moving es ds i).
Proof.
  intros Hlen Hi. unfold Binary64.moving_time, Binary64.spec_moving.
  destruct (lookup_lt_is_Some_2 es i Hi) as [e He].
  rewrite lookup_map, lookup_zip_with, He. simpl.
  rewrite (f64_cumsum_sum_to _ (Binary64.spec_pause_correction es ds) i).
  - simpl. rewrite (nth_lookup_f64 es i e He). reflexivity.
  - apply Forall_lookup. intros j x Hx.
    rewrite (lookup_f64_corrections es ds j Hlen) in Hx.
    + injection Hx as <-. apply spec_correction_not_missing.
    + apply lookup_lt_Some in Hx. rewrite length_f64_corrections in Hx; assumption.
  - intros j Hj. apply lookup_f64_corrections; [exact Hlen|lia].
Qed.

Lemma map_seq_lookup {A} (l : list A) (f : nat -> A) (n : nat) :
  length l = n -> (forall i, (i < n)%nat -> l !! i = Some (f i)) ->
  l = List.map f (seq 0 n).
Proof.
  intros Hl H. apply list_eq. intros i. rewrite lookup_map.
  destruct (decide (i < n)%nat) as [Hi|Hi].
  - rewrite lookup_seq_lt by exact Hi. simpl. apply H, Hi.
  - rewrite lookup_seq_ge by lia. apply lookup_ge_None. lia.
Qed.

(** ** Moving time: main results *)

(** C3: in the arithmetic of the code, for every pair of columns of one
    length, missing cells included: sample [i > 0] is a real pause iff
    [dt >= 10.0] and [dd <= 1.0], [dd] counting as 0 where a distance is
    missing; its correction is [dt - 1.0] and that of every other sample,
    sample 0 included, is zero; the moving time is the elapsed time minus
    the running total of the corrections, rounded to one decimal.  On
    elapsed times [0, 5, 20, 22] and distances [0, 50, 51, 70] it is
    [0, 5, 6, 8]. *)
Theorem moving_time_is_spec (es ds : list PrimFloat.float) :
  length ds = length es ->
  Binary64.pause_correction_s es ds
  = List.map (Binary64.spec_pause_correction es ds) (seq 0 (length es))
  /\ Binary64.moving_time es ds
     = List.map (Binary64.spec_moving es ds) (seq 0 (length es))
  /\ Binary64.moving_time [0; 5; 20; 22]%float [0; 50; 51; 70]%float
     = [0; 5; 6; 8]%float.
Proof.
  intros Hlen. split; [|split].
  - apply map_seq_lookup; [apply length_f64_corrections, Hlen|].
    intros i Hi. apply lookup_f64_corrections; assumption.
  - apply map_seq_lookup.
    + unfold Binary64.moving_time.
      rewrite length_map, length_zip_with.
      assert (length (Binary64.cumsum (Binary64.pause_correction_s es ds)) = length es) as ->; [|lia].
      rewrite <- (length_f64_corrections es ds Hlen).
      generalize (Binary64.pause_correction_s es ds). intros c.
      destruct c as [|x c]; [reflexivity|]. unfold Binary64.cumsum.
      assert (forall acc l, length (Binary64.cumsum_from acc l) = length l) as L.
      { intros acc l. revert acc. induction l as [|y l IH]; intros acc; [reflexivity|].
        simpl. destruct (Binary64.isna y); simpl; rewrite IH; reflexivity. }
      destruct (Binary64.isna x); simpl; rewrite L; reflexivity.
    + intros i Hi. apply lookup_f64_moving; assumption.
  - vm_compute. reflexivity.
Qed.

Lemma moving_time_is_spec_witness :
  Binary64.moving_time [0; 12; 13]%float [0; 120 / 100; 220 / 100]%float
  = List.map (Binary64.spec_moving [0; 12; 13]%float [0; 120 / 100; 220 / 100]%float)
             (seq 0 3).
Proof.
  apply (moving_time_is_spec [0; 12; 13]%float [0; 120 / 100; 220 / 100]%float).
  reflexivity.
Defined.

(** The rounding at work: ties go to the even tenth, and 0.35, which is
    just below the tie in binary64, is scaled onto it. *)
Lemma np_round1_ties :
  Binary64.np_round1 (25 / 100)%float = (2 / 10)%float
  /\ Binary64.np_round1 (35 / 100)%float = (4 / 10)%float
  /\ Binary64.np_round1 (75 / 100)%float = (8 / 10)%float
  /\ Binary64.np_round1 (1405 / 100)%float = 14%float
  /\ Binary64.np_round1 22%float = 22%float.
Proof. repeat split; vm_compute; reflexivity. Qed.

(** Read off decimals, an advance from 1.20 m to 2.20 m is 1 m; the
    difference of the two binary64 numbers is just above 1, so a 12 s
    gap with that advance is not discounted, while one from 0.20 m to
    1.20 m is. *)
Lemma advance_at_the_threshold :
  Binary64.moving_time [0; 12]%float [120 / 100; 220 / 100]%float = [0; 12]%float
  /\ Binary64.moving_time [0; 12]%float [20 / 100; 120 / 100]%float = [0; 1]%float.
Proof. split; vm_compute; reflexivity. Qed.

(** The scenario through the two pipelines. *)
Lemma scenario_through_the_pipelines :
  (exists df, parse_fit scenario_samples = Ok df /\
              moving_elapsed_time_s df = Some [Fin 0; Fin 5; Fin 6; Fin 8])
  /\ (exists df, parse_fit_records scenario_samples = Ok df /\
                 moving_elapsed_time_s df = Some [Fin 0; Fin 5; Fin 6; Fin 8]).
Proof. split; eexists; (split; [vm_compute; reflexivity|reflexivity]). Qed.

Lemma fle_Fin (a b : Q) : fle (Fin a) (Fin b) = true <-> a <= b.
Proof. simpl. apply Qle_bool_iff. Qed.

Lemma nondecreasing_Fin (l : list Q) : ascending l -> nondecreasing (List.map Fin l).
Proof.
  intros Hasc i j x y Hij Hx Hy.
  finite_cell Hx as a Ha.
  finite_cell Hy as b Hb.
  apply fle_Fin. apply (ascending_le l i j); assumption.
Qed.

(** The invariants on finite, ascending elapsed times that start at
    zero. *)
Lemma finite_columns_invariants (es : list Q) (D : list float) :
  length D = length es -> ascending es ->
  (forall e0, es !! 0%nat = Some e0 -> e0 == 0) ->
  let e := List.map Fin es in
  let m := List.map Fin (zip_with (fun e c => round_to 10 (e - c)) es
                                  (cumulative_pause es D)) in
  length m = length e /\ nondecreasing m /\ first_unchanged e m /\
  (Forall (on_grid 10) es -> moving_time_invariants e m).
Proof.
  intros Hlen Hasc H0 e m.
  pose proof (moving_ascending es D Hasc) as Hmono.
  assert (first_unchanged e m) as Hfirst.
  { intros e0 m0 Hx Hy.
    finite_cell Hx as a Ha.
    finite_cell Hy as b Hb. simpl.
    rewrite (moving_first es D a b Ha Hb).
    rewrite (round_to_comp 10 a 0) by (apply H0; exact Ha).
    rewrite (H0 a Ha). reflexivity. }
  split; [subst e m; rewrite !length_map; apply length_ms; exact Hlen|].
  split; [apply nondecreasing_Fin; exact Hmono|].
  split; [exact Hfirst|].
  intros Hgrid. repeat split.
  - intros i ei mi Hx Hy.
    finite_cell Hx as a Ha.
    finite_cell Hy as b Hb.
    apply fle_Fin.
    destruct (lookup_cs_of_es es D Hlen i a Ha) as [c Hc].
    rewrite (moving_exact es D Hlen Hgrid i b a c Hb Ha Hc).
    pose proof (cumulative_pause_nonneg es D Hlen i c Hc). lra.
  - apply nondecreasing_Fin; exact Hmono.
  - intros i j x y Hij Hx Hy.
    apply lookup_zip_with_Some in Hx as (ei & mi & -> & Hei & Hmi).
    apply lookup_zip_with_Some in Hy as (ej & mj & -> & Hej & Hmj).
    finite_cell Hei as a Ha.
    finite_cell Hmi as b Hb.
    finite_cell Hej as a' Ha'.
    finite_cell Hmj as b' Hb'.
    apply fle_Fin.
    destruct (lookup_cs_of_es es D Hlen i a Ha) as [c Hc].
    destruct (lookup_cs_of_es es D Hlen j a' Ha') as [c' Hc'].
    rewrite (moving_exact es D Hlen Hgrid i b a c Hb Ha Hc).
    rewrite (moving_exact es D Hlen Hgrid j b' a' c' Hb' Ha' Hc').
    pose proof (ascending_le _ i j c c' (cumulative_pause_ascending es D Hlen) Hij Hc Hc').
    lra.
  - exact Hfirst.
Qed.

(** [V3] rounds the elapsed times to tenths before the moving-time block,
    so there the four invariants hold whatever the timestamps. *)
Lemma moving_time_invariants_V3 (fitfile : FitFile) (df : DataFrame) (e m : list float) :
  parse_fit_records fitfile = Ok df ->
  Forall has_timestamp (records fitfile) ->
  elapsed_time_s df = Some e ->
  moving_elapsed_time_s df = Some m ->
  moving_time_invariants e m.
Proof.
  intros Hok Hall He Hm.
  destruct (parse_fit_records_Ok fitfile df Hok) as (Hne & He0 & _ & Hm0 & _).
  rewrite He in He0. rewrite Hm in Hm0. symmetry in He0, Hm0.
  destruct (pipeline_columns true (records fitfile) e m Hne Hall He0 Hm0)
    as (es & D & -> & _ & Hlen & Hasc & H0 & Hgrid & ->).
  apply (finite_columns_invariants es D Hlen Hasc H0). apply Hgrid. reflexivity.
Qed.

(** What [parse_fit] keeps of the invariants whatever the timestamps, and
    all four of them when the elapsed times are whole tenths of a second
    in exact arithmetic. *)
Lemma parse_fit_invariants_on_grid (ff : FitFile) (df : DataFrame) (e m : list float) :
  parse_fit ff = Ok df ->
  Forall has_timestamp (records ff) ->
  elapsed_time_s df = Some e ->
  moving_elapsed_time_s df = Some m ->
  length m = length e /\ nondecreasing m /\ first_unchanged e m /\
  (Forall tenths e -> moving_time_invariants e m).
Proof.
  intros Hok Hall He Hm.
  destruct (parse_fit_Ok ff df Hok) as (Hne & He0 & _ & Hm0 & _).
  rewrite He in He0. rewrite Hm in Hm0. symmetry in He0, Hm0.
  destruct (pipeline_columns false (records ff) e m Hne Hall He0 Hm0)
    as (es & D & -> & _ & Hlen & Hasc & H0 & _ & ->).
  destruct (finite_columns_invariants es D Hlen Hasc H0) as (H1 & H2 & H3 & H4).
  split; [exact H1|]. split; [exact H2|]. split; [exact H3|].
  intros Hg. apply H4.
  clear -Hg. induction es as [|x es IH]; [constructor|].
  inversion Hg; subst. constructor; [assumption|apply IH; assumption].
Qed.

Lemma on_grid_finer (q : Q) : on_grid 1 q -> on_grid 10 q.
Proof.
  intros [z Hz]. exists (z * 10)%Z. rewrite Hz, !Qmake_Qdiv, inject_Z_mult.
  change (inject_Z (Z.pos 1)) with 1. change (inject_Z (Z.pos 10)) with 10.
  change (inject_Z 10) with 10. field.
Qed.

(** On whole-second timestamps the elapsed times of [parse_fit] are whole
    seconds. *)
Lemma normalize_whole_seconds (rows : list RecordMsg) (e : list float) :
  Forall whole_second rows ->
  elapsed_time_s (normalize false rows) = Some e -> Forall tenths e.
Proof.
  intros Hall. unfold normalize.
  destruct (has_column rec_timestamp rows); [|discriminate].
  cbn [elapsed_time_s]. intros [= <-].
  set (key := fun r => to_cell (rec_timestamp r)).
  pose proof (sort_by_Forall key whole_second rows Hall) as Hs.
  assert (Forall (fun x => match x with Fin q => on_grid 1 q | NaN => False end)
                 (column rec_timestamp (sort_by key rows))) as Hts.
  { unfold column. apply Forall_map. eapply Forall_impl; [exact Hs|].
    intros r (t & -> & Ht). exact Ht. }
  revert Hts. generalize (column rec_timestamp (sort_by key rows)). intros ts Hts.
  destruct ts as [|t0 ts0] eqn:E; [constructor|]. rewrite <- E in *.
  assert (match t0 with Fin q => on_grid 1 q | NaN => False end) as H0
    by (rewrite E in Hts; inversion Hts; assumption).
  replace (default NaN (head ts)) with t0 by (rewrite E; reflexivity).
  apply Forall_map. eapply Forall_impl; [exact Hts|].
  intros [|q] Hq; [destruct Hq|]. destruct t0 as [|q0]; [destruct H0|]. simpl.
  apply on_grid_finer, on_grid_minus; assumption.
Qed.

(** C4: over records stamped with whole seconds, as the decoder delivers
    them, and whatever the distances, the moving time [parse_fit] returns
    is at most the elapsed time on every sample, is non-decreasing, falls
    behind the elapsed time by a non-decreasing amount, and on the first
    sample equals the elapsed time. *)
Theorem moving_time_invariants_whole_seconds (ff : FitFile) (df : DataFrame)
    (e m : list float) :
  parse_fit ff = Ok df ->
  Forall whole_second (records ff) ->
  elapsed_time_s df = Some e ->
  moving_elapsed_time_s df = Some m ->
  length m = length e /\ moving_time_invariants e m.
Proof.
  intros Hok Hall He Hm.
  assert (Forall has_timestamp (records ff)) as Hts.
  { eapply Forall_impl; [exact Hall|]. intros r (t & Ht & _). exists t. exact Ht. }
  destruct (parse_fit_invariants_on_grid ff df e m Hok Hts He Hm) as (Hlen & _ & _ & Hinv).
  split; [exact Hlen|]. apply Hinv.
  destruct (parse_fit_Ok ff df Hok) as (_ & He0 & _).
  rewrite He in He0. symmetry in He0.
  exact (normalize_whole_seconds (records ff) e Hall He0).
Qed.

Lemma moving_time_invariants_whole_seconds_witness :
  exists df e m,
    parse_fit scenario_samples = Ok df /\
    elapsed_time_s df = Some e /\ moving_elapsed_time_s df = Some m /\
    moving_time_invariants e m.
Proof.
  eexists _, _, _. split; [vm_compute; reflexivity|].
  split; [reflexivity|]. split; [reflexivity|].
  eapply (moving_time_invariants_whole_seconds scenario_samples).
  - vm_compute. reflexivity.
  - repeat constructor; eexists; (split; [reflexivity|]).
    + exists 0%Z. reflexivity.
    + exists 5%Z. reflexivity.
    + exists 20%Z. reflexivity.
    + exists 22%Z. reflexivity.
  - reflexivity.
  - reflexivity.
Defined.

(** ** Formatted strings *)

Lemma string_length_append (s1 s2 : string) :
  String.length (s1 ++ s2) = (String.length s1 + String.length s2)%nat.
Proof. induction s1 as [|c s1 IH]; simpl; [reflexivity|]. rewrite IH. reflexivity. Qed.

(** Two concatenations with tails of the same length agree part by part. *)
Lemma append_inj_tail (a1 a2 x1 x2 : string) :
  String.length x1 = String.length x2 ->
  (a1 ++ x1 = a2 ++ x2)%string -> a1 = a2 /\ x1 = x2.
Proof.
  intros Hlen. revert a2. induction a1 as [|c a1 IH]; intros [|c2 a2] H; simpl in H.
  - auto.
  - apply (f_equal String.length) in H. simpl in H.
    rewrite string_length_append in H. lia.
  - apply (f_equal String.length) in H. simpl in H.
    rewrite string_length_append in H. lia.
  - injection H as -> H. destruct (IH a2 H) as [-> ->]. auto.
Qed.

Lemma to_int_not_nil (z : Z) :
  Z.to_int z <> Decimal.Pos Decimal.Nil /\ Z.to_int z <> Decimal.Neg Decimal.Nil.
Proof.
  destruct z as [|p|p]; simpl; split; try discriminate;
    intros [= H]; exact (Unsigned.to_uint_nonnil p H).
Qed.

(** Reading back what [fmt_d] printed. *)
Lemma read_fmt_d (z : Z) : NilZero.int_of_string (fmt_d z) = Some (Z.to_int z).
Proof.
  unfold fmt_d. destruct (to_int_not_nil z) as [H1 H2]. apply NilZero.isi; assumption.
Qed.

Lemma fmt_d_inj (a b : Z) : fmt_d a = fmt_d b -> a = b.
Proof.
  intros H. apply (f_equal NilZero.int_of_string) in H.
  rewrite !read_fmt_d in H. injection H as H. apply DecimalZ.to_int_inj. exact H.
Qed.

Lemma short_decimal (z : Z) :
  (0 <= z)%Z -> (String.length (fmt_d z) < 2)%nat -> (0 <= z < 10)%Z.
Proof.
  intros Hz Hlen. unfold fmt_d in Hlen.
  destruct (Z.to_int z) as [u|u] eqn:Hu.
  - assert (z = Z.of_int (Decimal.Pos u)) as -> by (rewrite <- Hu, DecimalZ.of_to; reflexivity).
    clear Hu Hz. simpl in Hlen.
    destruct u as [|u|u|u|u|u|u|u|u|u|u]; simpl in Hlen; [cbv; split; congruence|..];
      (destruct u; simpl in Hlen; [cbv; split; congruence|lia..]).
  - destruct z; simpl in Hu; try discriminate. lia.
Qed.

(** Reading back what [fmt_02d] printed, for a number that is not
    negative. *)
Lemma read_fmt_02d (z : Z) : (0 <= z)%Z -> read_int (fmt_02d z) = Some z.
Proof.
  intros Hz. unfold fmt_02d.
  destruct (String.length (fmt_d z) <? 2)%nat eqn:Hlen.
  - apply Nat.ltb_lt in Hlen. pose proof (short_decimal z Hz Hlen) as Hr.
    assert (z = 0 \/ z = 1 \/ z = 2 \/ z = 3 \/ z = 4 \/ z = 5 \/ z = 6 \/ z = 7
            \/ z = 8 \/ z = 9)%Z as Hc by lia.
    repeat (destruct Hc as [-> | Hc]; [vm_compute; reflexivity|]).
    subst z. vm_compute. reflexivity.
  - unfold read_int. rewrite read_fmt_d. simpl. rewrite DecimalZ.of_to. reflexivity.
Qed.

Lemma fmt_02d_inj (a b : Z) : (0 <= a)%Z -> (0 <= b)%Z -> fmt_02d a = fmt_02d b -> a = b.
Proof.
  intros Ha Hb H. apply (f_equal read_int) in H.
  rewrite !read_fmt_02d in H by assumption. congruence.
Qed.

Lemma length_fmt_02d_small (z : Z) : (0 <= z < 60)%Z -> String.length (fmt_02d z) = 2%nat.
Proof.
  intros Hz. rewrite <- (Z2Nat.id z) by lia.
  assert (Z.to_nat z < 60)%nat as Hn by lia.
  generalize dependent (Z.to_nat z). clear. intros n Hn.
  do 60 (destruct n as [|n]; [vm_compute; reflexivity|]). lia.
Qed.

Lemma length_fmt_02d (z : Z) : (2 <= String.length (fmt_02d z))%nat.
Proof.
  unfold fmt_02d. destruct (String.length (fmt_d z) <? 2)%nat eqn:Hlen.
  - simpl. assert (String.length (fmt_d z) <> 0)%nat; [|lia].
    unfold fmt_d. destruct (to_int_not_nil z) as [H1 H2].
    destruct (Z.to_int z) as [u|u]; simpl.
    + destruct u; simpl; discriminate.
    + discriminate.
  - apply Nat.ltb_ge in Hlen. exact Hlen.
Qed.

Lemma format_min_sec_Fin (q : Q) :
  format_seconds_to_min_sec (Fin q) = Some (min_sec (py_int q)).
Proof. reflexivity. Qed.

Lemma format_hms_Fin (q : Q) :
  format_seconds_to_hms (Fin q) = Some (hms (py_int q)).
Proof. unfold format_seconds_to_hms, hms. destruct (0 <? _)%Z; reflexivity. Qed.

Lemma min_sec_inj (a b : Z) : (0 <= a)%Z -> (0 <= b)%Z -> min_sec a = min_sec b -> a = b.
Proof.
  intros Ha Hb H. unfold min_sec in H.
  pose proof (Z.mod_pos_bound a 60 ltac:(lia)) as Hma.
  pose proof (Z.mod_pos_bound b 60 ltac:(lia)) as Hmb.
  apply append_inj_tail in H as [Hm Hs].
  - injection Hs as Hs.
    apply fmt_02d_inj in Hm; [|apply Z.div_pos; lia..].
    apply fmt_02d_inj in Hs; [|lia..].
    rewrite (Z.div_mod a 60), (Z.div_mod b 60) by lia. congruence.
  - simpl. rewrite !length_fmt_02d_small by assumption. reflexivity.
Qed.

Lemma hms_inj (a b : Z) : (0 <= a)%Z -> (0 <= b)%Z -> hms a = hms b -> a = b.
Proof.
  intros Ha Hb H.
  pose proof (Z.mod_pos_bound a 60 ltac:(lia)) as Hsa.
  pose proof (Z.mod_pos_bound b 60 ltac:(lia)) as Hsb.
  pose proof (Z.mod_pos_bound a 3600 ltac:(lia)) as Hra.
  pose proof (Z.mod_pos_bound b 3600 ltac:(lia)) as Hrb.
  assert (0 <= (a mod 3600) / 60 < 60)%Z as Hma
    by (split; [apply Z.div_pos; lia|apply Z.div_lt_upper_bound; lia]).
  assert (0 <= (b mod 3600) / 60 < 60)%Z as Hmb
    by (split; [apply Z.div_pos; lia|apply Z.div_lt_upper_bound; lia]).
  assert (forall t, (0 <= t)%Z -> t = (3600 * (t / 3600) + 60 * ((t mod 3600) / 60) + t mod 60)%Z)
    as Hsplit.
  { intros t Ht. Z.div_mod_to_equations. lia. }
  assert (forall t, (0 <= (t mod 3600) / 60 < 60)%Z -> (0 <= t mod 60 < 60)%Z ->
            String.length (fmt_02d ((t mod 3600) / 60) ++ ":" ++ fmt_02d (t mod 60)) = 5%nat)
    as Hlen5.
  { intros t H1 H2. rewrite string_length_append. simpl.
    rewrite !length_fmt_02d_small by assumption. reflexivity. }
  assert (forall x y, (fmt_02d ((a mod 3600) / 60) ++ ":" ++ fmt_02d (a mod 60))%string = x ->
                      (fmt_02d ((b mod 3600) / 60) ++ ":" ++ fmt_02d (b mod 60))%string = y ->
                      x = y -> (a mod 3600) / 60 = (b mod 3600) / 60 /\ a mod 60 = b mod 60)%Z
    as Htail.
  { intros x y <- <- E. apply append_inj_tail in E as [Hm Hs].
    - injection Hs as Hs. split; apply fmt_02d_inj; assumption || lia.
    - simpl. rewrite !length_fmt_02d_small by assumption. reflexivity. }
  unfold hms in H.
  destruct (0 <? a / 3600)%Z eqn:Hha; destruct (0 <? b / 3600)%Z eqn:Hhb.
  - apply append_inj_tail in H as [Hh Ht].
    + apply fmt_d_inj in Hh. injection Ht as Ht.
      destruct (Htail _ _ eq_refl eq_refl Ht) as [Hm Hs].
      rewrite (Hsplit a Ha), (Hsplit b Hb). lia.
    + simpl. rewrite !Hlen5 by assumption. reflexivity.
  - apply (f_equal String.length) in H.
    rewrite !string_length_append in H.
    rewrite !length_fmt_02d_small in H by assumption. simpl in H.
    assert (String.length (fmt_d (a / 3600)) <> 0)%nat; [|lia].
    unfold fmt_d. destruct (to_int_not_nil (a / 3600)) as [H1 H2].
    destruct (Z.to_int (a / 3600)) as [u|u]; simpl; [|discriminate].
    destruct u; simpl; discriminate.
  - apply (f_equal String.length) in H.
    rewrite !string_length_append in H.
    rewrite !length_fmt_02d_small in H by assumption. simpl in H.
    assert (String.length (fmt_d (b / 3600)) <> 0)%nat; [|lia].
    unfold fmt_d. destruct (to_int_not_nil (b / 3600)) as [H1 H2].
    destruct (Z.to_int (b / 3600)) as [u|u]; simpl; [|discriminate].
    destruct u; simpl; discriminate.
  - destruct (Htail _ _ eq_refl eq_refl H) as [Hm Hs].
    apply Z.ltb_ge in Hha, Hhb.
    assert (a / 3600 = 0)%Z by (pose proof (Z.div_pos a 3600); lia).
    assert (b / 3600 = 0)%Z by (pose proof (Z.div_pos b 3600); lia).
    rewrite (Hsplit a Ha), (Hsplit b Hb). lia.
Qed.

Lemma py_int_floor (q : Q) : 0 <= q -> py_int q = Qfloor q.
Proof.
  intros Hq. unfold py_int. destruct q as [n d]. simpl.
  apply Z.quot_div_nonneg; [|lia].
  unfold Qle in Hq. simpl in Hq. lia.
Qed.

Lemma py_int_lt (m e : Q) : 0 <= m -> m + 1 <= e -> (0 <= py_int m < py_int e)%Z.
Proof.
  intros Hm He. rewrite !py_int_floor by lra.
  pose proof (floor_bounds m) as Bm. pose proof (floor_bounds e) as Be.
  split.
  - change 0%Z with (Qfloor (inject_Z 0)). apply Qfloor_resp_le. exact Hm.
  - rewrite Zlt_Qlt. lra.
Qed.

(** ** Display time: main result *)

Lemma cumsum_pause_fin (es : list Q) (D : list float) :
  cumsum (pause_correction_s (List.map Fin es) D) = List.map Fin (cumulative_pause es D).
Proof.
  unfold cumsum, cumulative_pause. rewrite pause_correction_rows. apply cumsum_corrections.
Qed.

(** Once a pause has been discounted, the moving time is at least one
    whole second behind the elapsed time. *)
Lemma discounted_seconds (v3 : bool) (rows : list RecordMsg) (e d m : list float)
    (i : nat) (ei mi : float) :
  rows <> [] -> Forall has_timestamp rows ->
  elapsed_time_s (normalize v3 rows) = Some e ->
  distance (normalize v3 rows) = Some d ->
  match elapsed_time_s (normalize v3 rows), distance (normalize v3 rows) with
  | Some e, Some d => Some (moving_time e d)
  | _, _ => None
  end = Some m ->
  e !! i = Some ei -> m !! i = Some mi -> pause_discounted e d i ->
  exists qe qm, ei = Fin qe /\ mi = Fin qm /\ (0 <= py_int qm < py_int qe)%Z.
Proof.
  intros Hne Hall He Hd Hm Hei Hmi (c & Hc & Hpos).
  destruct (pipeline_columns v3 rows e m Hne Hall He Hm)
    as (es & D & -> & HD & Hlen & Hasc & H0 & _ & ->).
  rewrite Hd in HD. injection HD as ->.
  rewrite cumsum_pause_fin in Hc.
  finite_cell Hc as qc Hqc.
  finite_cell Hei as qe Hqe.
  finite_cell Hmi as qm Hqm.
  exists qe, qm. split; [reflexivity|]. split; [reflexivity|].
  apply (lookup_ms es D) in Hqm as (a & c & Ha & Hc & ->).
  rewrite Hqe in Ha. rewrite Hqc in Hc. injection Ha as <-. injection Hc as <-.
  simpl in Hpos. apply Qlt_bool_iff in Hpos.
  destruct (cumulative_pause_zero_or_nine es D Hlen i qc Hqc) as [Hz|Hnine]; [lra|].
  assert (is_Some (es !! 0%nat)) as [e0 He0].
  { apply lookup_lt_is_Some. apply lookup_lt_Some in Hqe. lia. }
  pose proof (unrounded_nonneg es D Hlen Hasc i qe qc e0 He0
                ltac:(rewrite (H0 e0 He0); lra) Hqe Hqc) as Hraw.
  pose proof (round_to_mono 10 0 (qe - qc) Hraw) as Hlow.
  change (round_to 10 0) with 0 in Hlow.
  pose proof (round_to_near 10 (qe - qc)) as Hnear.
  apply Qabs_Qle_condition in Hnear. destruct Hnear as [_ Hup].
  assert ((1 # 2) / inject_Z 10 == 1 # 20) as E by reflexivity.
  rewrite E in Hup.
  apply py_int_lt; lra.
Qed.

(** C10: the display column of both pipelines is the formatter applied to
    the moving time; and on a row where a pause has been discounted the
    displayed string differs from the formatted elapsed time. *)
Theorem display_time_formats_moving_time :
  (forall ff df m,
     parse_fit ff = Ok df -> moving_elapsed_time_s df = Some m ->
     elapsed_time_min_sec df = Some (List.map format_seconds_to_min_sec m))
  /\ (forall ff df m,
        parse_fit_records ff = Ok df -> moving_elapsed_time_s df = Some m ->
        elapsed_time_hms df = Some (List.map format_seconds_to_hms m))
  /\ (forall ff df e d m i ei mi,
        parse_fit ff = Ok df -> Forall has_timestamp (records ff) ->
        elapsed_time_s df = Some e -> distance df = Some d ->
        moving_elapsed_time_s df = Some m ->
        e !! i = Some ei -> m !! i = Some mi -> pause_discounted e d i ->
        format_seconds_to_min_sec mi <> format_seconds_to_min_sec ei)
  /\ (forall ff df e d m i ei mi,
        parse_fit_records ff = Ok df -> Forall has_timestamp (records ff) ->
        elapsed_time_s df = Some e -> distance df = Some d ->
        moving_elapsed_time_s df = Some m ->
        e !! i = Some ei -> m !! i = Some mi -> pause_discounted e d i ->
        format_seconds_to_hms mi <> format_seconds_to_hms ei).
Proof.
  split; [|split; [|split]].
  - intros ff df m Hok Hm.
    destruct (parse_fit_Ok ff df Hok) as (_ & _ & _ & _ & Hfmt).
    rewrite Hfmt, Hm. reflexivity.
  - intros ff df m Hok Hm.
    destruct (parse_fit_records_Ok ff df Hok) as (_ & _ & _ & _ & Hfmt).
    rewrite Hfmt, Hm. reflexivity.
  - intros ff df e d m i ei mi Hok Hall He Hd Hm Hei Hmi Hp.
    destruct (parse_fit_Ok ff df Hok) as (Hne & He0 & Hd0 & Hm0 & _).
    rewrite He in He0. rewrite Hd in Hd0. rewrite Hm in Hm0. symmetry in He0, Hd0, Hm0.
    destruct (discounted_seconds false (records ff) e d m i ei mi
                Hne Hall He0 Hd0 Hm0 Hei Hmi Hp) as (qe & qm & -> & -> & Hlt).
    rewrite !format_min_sec_Fin. intros [= H]. apply min_sec_inj in H; lia.
  - intros ff df e d m i ei mi Hok Hall He Hd Hm Hei Hmi Hp.
    destruct (parse_fit_records_Ok ff df Hok) as (Hne & He0 & Hd0 & Hm0 & _).
    rewrite He in He0. rewrite Hd in Hd0. rewrite Hm in Hm0. symmetry in He0, Hd0, Hm0.
    destruct (discounted_seconds true (records ff) e d m i ei mi
                Hne Hall He0 Hd0 Hm0 Hei Hmi Hp) as (qe & qm & -> & -> & Hlt).
    rewrite !format_hms_Fin. intros [= H]. apply hms_inj in H; lia.
Qed.

Lemma display_time_formats_moving_time_witness :
  format_seconds_to_min_sec (Fin 6) <> format_seconds_to_min_sec (Fin (20 - 0)).
Proof.
  destruct display_time_formats_moving_time as (_ & _ & H & _).
  eapply (H scenario_samples _ _ _ _ 2%nat).
  - vm_compute. reflexivity.
  - repeat constructor; eexists; reflexivity.
  - reflexivity.
  - reflexivity.
  - reflexivity.
  - reflexivity.
  - reflexivity.
  - eexists. split; [vm_compute; reflexivity|reflexivity].
Defined.

(** ** The lap of a sample *)

Lemma length_assign_lap (starts ts : list float) (col : list nat) (lap : nat * float) :
  length col = length ts -> length (assign_lap starts ts col lap) = length ts.
Proof.
  intros H. destruct lap as [k s]. unfold assign_lap.
  rewrite length_loc_set; [exact H|].
  unfold mask_and. rewrite length_zip_with, !length_map. lia.
Qed.

Lemma lookup_assign_lap (starts ts : list float) (col : list nat) (lap : nat * float)
    (i : nat) (t : float) (c : nat) :
  ts !! i = Some t -> col !! i = Some c ->
  assign_lap starts ts col lap !! i = Some (pick starts ts t c lap).
Proof.
  intros Ht Hc. destruct lap as [k s]. unfold assign_lap, pick, claims, next_lap_start.
  rewrite lookup_loc_set, lookup_mask_and, !lookup_map, Ht, Hc. reflexivity.
Qed.

Lemma lookup_assign_fold (starts ts : list float) (laps : list (nat * float))
    (col : list nat) (i : nat) (t : float) (c : nat) :
  ts !! i = Some t -> col !! i = Some c ->
  foldl (assign_lap starts ts) col laps !! i = Some (foldl (pick starts ts t) c laps).
Proof.
  intros Ht. revert col c. induction laps as [|lap laps IH]; intros col c Hc; simpl.
  - exact Hc.
  - apply IH. apply lookup_assign_lap; assumption.
Qed.

Lemma length_assign_fold (starts ts : list float) (laps : list (nat * float))
    (col : list nat) :
  length col = length ts -> length (foldl (assign_lap starts ts) col laps) = length ts.
Proof.
  revert col. induction laps as [|lap laps IH]; intros col H; simpl; [exact H|].
  apply IH. apply length_assign_lap. exact H.
Qed.

(** The row keeps its value when no lap claims it, and otherwise gets the
    number of a lap that claims it. *)
Lemma fold_pick_none (starts ts : list float) (t : float) (laps : list (nat * float))
    (c : nat) :
  Forall (fun lap => claims starts ts t lap = false) laps ->
  foldl (pick starts ts t) c laps = c.
Proof.
  intros H. revert c. induction H as [|lap laps Hlap _ IH]; intros c; simpl; [reflexivity|].
  rewrite IH. unfold pick. rewrite Hlap. reflexivity.
Qed.

Lemma fold_pick_some (starts ts : list float) (t : float) (laps : list (nat * float))
    (c : nat) :
  Exists (fun lap => claims starts ts t lap = true) laps ->
  Exists (fun lap => claims starts ts t lap = true /\
                     foldl (pick starts ts t) c laps = lap.1) laps.
Proof.
  induction laps as [|lap laps IH] using rev_ind; intros H; [inversion H|].
  rewrite foldl_app. simpl. unfold pick at 1.
  apply Exists_app. destruct (claims starts ts t lap) eqn:Hlap.
  - right. constructor. auto.
  - left. apply Exists_app in H as [H|H].
    + eapply Exists_impl; [apply IH; exact H|]. simpl. tauto.
    + inversion H as [? ? Hx|? ? Hx]; subst; [congruence|inversion Hx].
Qed.

Lemma lookup_assign_lap_numbers (starts ts : list float) (i : nat) (t : float) :
  ts !! i = Some t ->
  assign_lap_numbers starts ts !! i =
  Some (let r := foldl (pick starts ts t) 0%nat (zip (seq 1 (length starts)) starts) in
        if (r =? 0)%nat then length starts else r).
Proof.
  intros Ht. unfold assign_lap_numbers.
  rewrite lookup_loc_set, lookup_map.
  rewrite (lookup_assign_fold starts ts _ _ i t 0%nat Ht).
  - reflexivity.
  - rewrite lookup_map, Ht. reflexivity.
Qed.

Lemma length_assign_lap_numbers (starts ts : list float) :
  length (assign_lap_numbers starts ts) = length ts.
Proof.
  unfold assign_lap_numbers.
  rewrite length_loc_set; rewrite ?length_map, length_assign_fold; rewrite ?length_map;
    reflexivity.
Qed.

(** *** Finite, ascending start times *)

Lemma series_max_fin (qs : list Q) :
  qs <> [] -> exists M, series_max (List.map Fin qs) = Fin M /\ is_maximum qs M.
Proof.
  induction qs as [|q qs IH]; [congruence|]. intros _.
  destruct qs as [|q' qs'].
  - exists q. simpl. split; [reflexivity|]. split; [left; reflexivity|].
    intros x [<-|[]]. lra.
  - destruct (IH ltac:(discriminate)) as (M & HM & Hin & Hmax).
    change (series_max (List.map Fin (q :: q' :: qs')))
      with (match series_max (List.map Fin (q' :: qs')) with
            | NaN => Fin q
            | Fin b => if Qle_bool q b then series_max (List.map Fin (q' :: qs')) else Fin q
            end).
    rewrite HM. destruct (Qle_bool q M) eqn:E.
    + apply Qle_bool_iff in E. exists M. split; [reflexivity|].
      split; [right; exact Hin|]. intros x [<-|Hx]; [exact E|apply Hmax, Hx].
    + apply Qle_bool_false_iff in E. exists q. split; [reflexivity|].
      split; [left; reflexivity|]. intros x [<-|Hx]; [lra|].
      specialize (Hmax x Hx). lra.
Qed.

Section Intervals.
Variable ss : list Q.
Variable qs : list Q.
Variable M : Q.
Hypothesis Hss : ascending ss.
Hypothesis HM : series_max (List.map Fin qs) = Fin M.

Let starts : list float := List.map Fin ss.
Let ts : list float := List.map Fin qs.

Lemma lookup_laps (j : nat) (lap : nat * float) :
  zip (seq 1 (length starts)) starts !! j = Some lap <->
  (j < length ss)%nat /\ lap = (S j, Fin (lap_lower ss (S j))).
Proof.
  subst starts. destruct lap as [k s]. rewrite lookup_zip_Some, length_map. split.
  - intros [Hk Hs]. apply lookup_seq in Hk as [-> Hj].
    finite_cell Hs as q Hq.
    split; [exact Hj|]. unfold lap_lower. simpl. rewrite Nat.sub_0_r.
    rewrite (nth_lookup_Q ss j q Hq). reflexivity.
  - intros [Hj [= -> ->]]. split; [apply lookup_seq; split; [reflexivity|exact Hj]|].
    apply lookup_map_Fin.
    destruct (lookup_lt_is_Some_2 ss j Hj) as [q Hq]. exists q. split; [exact Hq|].
    unfold lap_lower. simpl. rewrite Nat.sub_0_r, (nth_lookup_Q ss j q Hq). reflexivity.
Qed.

Lemma next_lap_start_upper (k : nat) :
  (k <= length ss)%nat -> next_lap_start starts ts k = Fin (lap_upper ss M k).
Proof.
  intros Hk. unfold next_lap_start, lap_upper. subst starts ts.
  rewrite length_map. destruct (k <? length ss)%nat eqn:E.
  - apply Nat.ltb_lt in E. destruct (lookup_lt_is_Some_2 ss k E) as [q Hq].
    rewrite lookup_map, Hq. simpl. rewrite (nth_lookup_Q ss k q Hq). reflexivity.
  - rewrite HM. reflexivity.
Qed.

Lemma claims_owns (j : nat) (t : Q) :
  (j < length ss)%nat ->
  claims starts ts (Fin t) (S j, Fin (lap_lower ss (S j))) = true <-> owns ss M (S j) t.
Proof.
  intros Hj. unfold claims, owns. cbn [fst snd].
  rewrite next_lap_start_upper by lia. simpl.
  rewrite andb_true_iff, Qle_bool_iff, Qlt_bool_iff. split.
  - intros [H1 H2]. repeat split; try lia; assumption.
  - tauto.
Qed.

Lemma lap_lower_le (a b : nat) :
  (1 <= a <= b)%nat -> (b <= length ss)%nat -> lap_lower ss a <= lap_lower ss b.
Proof.
  intros Hab Hb. unfold lap_lower.
  destruct (lookup_lt_is_Some_2 ss (a - 1) ltac:(lia)) as [x Hx].
  destruct (lookup_lt_is_Some_2 ss (b - 1) ltac:(lia)) as [y Hy].
  rewrite (nth_lookup_Q ss _ x Hx), (nth_lookup_Q ss _ y Hy).
  apply (ascending_le ss (a - 1) (b - 1)); [exact Hss|lia|exact Hx|exact Hy].
Qed.

Lemma lap_upper_lower (k : nat) :
  (k < length ss)%nat -> lap_upper ss M k = lap_lower ss (S k).
Proof.
  intros Hk. unfold lap_upper, lap_lower.
  apply Nat.ltb_lt in Hk. rewrite Hk. simpl. rewrite Nat.sub_0_r. reflexivity.
Qed.

(** A later sample is never owned by an earlier lap. *)
Lemma owns_mono (a b : nat) (t u : Q) :
  t <= u -> owns ss M a t -> owns ss M b u -> (a <= b)%nat.
Proof.
  intros Htu (Ha & Hla & _) (Hb & _ & Hub).
  destruct (le_lt_dec a b) as [|Hlt]; [assumption|exfalso].
  rewrite lap_upper_lower in Hub by lia.
  pose proof (lap_lower_le (S b) a ltac:(lia) ltac:(lia)). lra.
Qed.

Lemma owns_unique (a b : nat) (t : Q) : owns ss M a t -> owns ss M b t -> a = b.
Proof.
  intros Ha Hb.
  pose proof (owns_mono a b t t ltac:(lra) Ha Hb).
  pose proof (owns_mono b a t t ltac:(lra) Hb Ha). lia.
Qed.

(** From the first start time up to the catch-all bound every instant
    belongs to a lap. *)
Lemma owns_cover (t : Q) :
  ss <> [] -> lap_lower ss 1 <= t -> t < M + 1 -> exists k, owns ss M k t.
Proof.
  intros Hne Hlow Hup.
  assert (forall d n, (d + n = length ss)%nat -> (1 <= n)%nat -> lap_lower ss n <= t ->
                      exists k, owns ss M k t) as Hind.
  { induction d as [|d IH]; intros n Hn H1 Hl.
    - exists n. repeat split; try lia; [exact Hl|].
      unfold lap_upper. rewrite (proj2 (Nat.ltb_ge n (length ss))) by lia. exact Hup.
    - destruct (Qlt_le_dec t (lap_upper ss M n)) as [Hlt|Hge].
      + exists n. repeat split; try lia; assumption.
      + rewrite lap_upper_lower in Hge by lia.
        apply (IH (S n)); [lia|lia|exact Hge]. }
  destruct ss as [|s0 ss0] eqn:E; [congruence|].
  apply (Hind (length ss0) 1%nat); [simpl; lia|lia|exact Hlow].
Qed.

(** The number the code gives a sample at instant [t]. *)
Lemma lap_number_of (i : nat) (t : Q) :
  ss <> [] -> qs !! i = Some t ->
  exists k, assign_lap_numbers starts ts !! i = Some k /\
            (owns ss M k t \/ (k = length ss /\ forall j, ~ owns ss M j t)).
Proof.
  intros Hne Ht.
  assert (ts !! i = Some (Fin t)) as Hts by (apply lookup_map_Fin; eauto).
  rewrite (lookup_assign_lap_numbers starts ts i (Fin t) Hts).
  set (laps := zip (seq 1 (length starts)) starts).
  destruct (decide (Exists (fun lap => claims starts ts (Fin t) lap = true) laps))
    as [Hex|Hno].
  - apply (fold_pick_some starts ts (Fin t) laps 0%nat) in Hex.
    apply Exists_exists in Hex as (lap & Hin & Hclaim & Hr).
    apply list_elem_of_lookup in Hin as [j Hj].
    apply lookup_laps in Hj as [Hj ->].
    apply claims_owns in Hclaim; [|exact Hj].
    eexists. split; [reflexivity|]. cbv zeta. rewrite Hr. simpl. left. exact Hclaim.
  - assert (Forall (fun lap => claims starts ts (Fin t) lap = false) laps) as Hall.
    { apply Forall_forall. intros lap Hin.
      destruct (claims starts ts (Fin t) lap) eqn:E; [|reflexivity].
      exfalso. apply Hno. apply Exists_exists. exists lap. split; [exact Hin|exact E]. }
    rewrite (fold_pick_none starts ts (Fin t) laps 0%nat Hall). simpl.
    eexists. split; [reflexivity|]. right.
    split; [unfold starts; apply length_map|].
    intros j Hown. pose proof Hown as ([Hj1 Hj2] & _).
    destruct j as [|j]; [lia|].
    apply claims_owns in Hown; [|lia].
    assert (laps !! j = Some (S j, Fin (lap_lower ss (S j)))) as Hl
      by (apply lookup_laps; split; [lia|reflexivity]).
    rewrite Forall_lookup in Hall. specialize (Hall j _ Hl). congruence.
Qed.
End Intervals.

Lemma filter_start_time (laps : list LapMsg) :
  Forall (fun lap => is_Some (lap_start_time lap))
         (List.filter (fun lap => bool_decide (is_Some (lap_start_time lap))) laps).
Proof.
  induction laps as [|lap laps IH]; simpl; [constructor|].
  destruct (bool_decide (is_Some (lap_start_time lap))) eqn:E; [|exact IH].
  constructor; [|exact IH]. apply bool_decide_eq_true_1 in E. exact E.
Qed.

(** The start times the loop runs over are finite and ascending. *)
Lemma laps_sorted_starts (laps : list LapMsg) :
  exists ss, column lap_start_time (laps_sorted laps) = List.map Fin ss /\
             ascending ss /\ length ss = length (laps_sorted laps).
Proof.
  exists (List.map (fun lap => default 0 (lap_start_time lap)) (laps_sorted laps)).
  unfold laps_sorted. split; [|split].
  - apply column_all. apply sort_by_Forall. apply filter_start_time.
  - apply sorted_field_ascending. apply filter_start_time.
  - apply length_map.
Qed.

Lemma add_lap_info_numbers (n : nat) (ff : FitFile) (df : DataFrame) (ts : list float) :
  timestamp df = Some ts -> laps_sorted (laps ff) <> [] ->
  lap_number (add_lap_info n ff df)
  = Some (assign_lap_numbers (column lap_start_time (laps_sorted (laps ff))) ts).
Proof.
  intros Hts Hne. unfold add_lap_info. rewrite Hts.
  destruct (laps ff) as [|l0 l1] eqn:Hl; [exfalso; apply Hne; reflexivity|].
  destruct (laps_sorted (l0 :: l1)) as [|s0 s1] eqn:Hs; [congruence|].
  destruct (has_column lap_avg_speed (s0 :: s1)); reflexivity.
Qed.

(** C5, as stated, fails when a sample precedes the first lap's start
    time: no interval contains it, the fallback gives it the last lap,
    and the lap numbers go down at the next sample. *)
Lemma early_sample_gets_last_lap :
  exists df numbers,
    parse_fit {| records := [sample 5 0; sample 12 30; sample 25 60];
                 laps := [ {| lap_start_time := Some 10; lap_avg_speed := None |};
                           {| lap_start_time := Some 20; lap_avg_speed := None |} ] |}
    = Ok df /\
    timestamp df = Some [Fin 5; Fin 12; Fin 25] /\
    lap_number df = Some numbers /\ numbers = [2; 1; 2]%nat /\
    ~ nondecreasing_nat numbers.
Proof.
  eexists _, _. split; [vm_compute; reflexivity|].
  split; [reflexivity|]. split; [reflexivity|]. split; [reflexivity|].
  intros H. specialize (H 0%nat 1%nat 2%nat 1%nat ltac:(lia) eq_refl eq_refl). lia.
Qed.

(** C5, amended: with [N >= 1] usable laps and finite, ascending sample
    timestamps, every sample gets one lap number in [1..N]; lap [k] owns
    the samples with [start_time[k] <= timestamp < start_time[k+1]], the
    last lap's upper bound being the largest timestamp plus one second; a
    sample in no interval gets lap [N]; and the lap numbers are
    non-decreasing provided the first sample is not earlier than the first
    lap's start time. *)
Theorem lap_assignment (n : nat) (ff : FitFile) (df : DataFrame) (qs : list Q) :
  timestamp df = Some (List.map Fin qs) -> qs <> [] -> ascending qs ->
  laps_sorted (laps ff) <> [] ->
  exists ss M numbers,
    column lap_start_time (laps_sorted (laps ff)) = List.map Fin ss /\
    length ss = length (laps_sorted (laps ff)) /\ ascending ss /\
    is_maximum qs M /\
    lap_number (add_lap_info n ff df) = Some numbers /\
    length numbers = length qs /\
    (forall i k, numbers !! i = Some k -> (1 <= k <= length ss)%nat) /\
    (forall i t k, qs !! i = Some t -> owns ss M k t -> numbers !! i = Some k) /\
    (forall i t, qs !! i = Some t -> (forall k, ~ owns ss M k t) ->
                 numbers !! i = Some (length ss)) /\
    ((forall t0, qs !! 0%nat = Some t0 -> lap_lower ss 1 <= t0) ->
     nondecreasing_nat numbers).
Proof.
  intros Hts Hqs Hasc Hlaps.
  destruct (laps_sorted_starts (laps ff)) as (ss & Hcol & Hss & Hlen).
  destruct (series_max_fin qs Hqs) as (M & HM & Hmax).
  assert (ss <> []) as Hne.
  { intros ->. destruct (laps_sorted (laps ff)); [congruence|discriminate]. }
  exists ss, M, (assign_lap_numbers (List.map Fin ss) (List.map Fin qs)).
  pose proof (lap_number_of ss qs M HM) as Hnum.
  assert (forall i k, assign_lap_numbers (List.map Fin ss) (List.map Fin qs) !! i = Some k ->
                      exists t, qs !! i = Some t) as Hrow.
  { intros i k Hk. apply lookup_lt_is_Some. apply lookup_lt_Some in Hk.
    rewrite length_assign_lap_numbers, length_map in Hk. exact Hk. }
  split; [exact Hcol|]. split; [exact Hlen|]. split; [exact Hss|]. split; [exact Hmax|].
  split; [rewrite (add_lap_info_numbers n ff df _ Hts Hlaps), Hcol; reflexivity|].
  split; [rewrite length_assign_lap_numbers, length_map; reflexivity|].
  split; [|split; [|split]].
  - intros i k Hk. destruct (Hrow i k Hk) as [t Ht].
    destruct (Hnum i t Hne Ht) as (k' & Hk' & [Hown | [-> _]]).
    + rewrite Hk in Hk'. injection Hk' as <-. apply Hown.
    + rewrite Hk in Hk'. injection Hk' as ->.
      destruct ss; [congruence|simpl; lia].
  - intros i t k Ht Hown.
    destruct (Hnum i t Hne Ht) as (k' & Hk' & [Hown' | [_ Hno]]).
    + rewrite Hk'. f_equal. apply (owns_unique ss M Hss k' k t); assumption.
    + destruct (Hno k Hown).
  - intros i t Ht Hno.
    destruct (Hnum i t Hne Ht) as (k' & Hk' & [Hown' | [-> _]]).
    + destruct (Hno k' Hown').
    + exact Hk'.
  - intros Hfirst i j a b Hij Ha Hb.
    destruct (Hrow i a Ha) as [t Ht]. destruct (Hrow j b Hb) as [u Hu].
    assert (is_Some (qs !! 0%nat)) as [t0 Ht0].
    { apply lookup_lt_is_Some. apply lookup_lt_Some in Ht. lia. }
    pose proof (ascending_le qs 0 i t0 t Hasc ltac:(lia) Ht0 Ht) as H0t.
    pose proof (ascending_le qs i j t u Hasc Hij Ht Hu) as Htu.
    specialize (Hfirst t0 Ht0).
    assert (forall x y, qs !! x = Some y -> y < M + 1) as Hbelow.
    { intros x y Hy. destruct Hmax as [_ Hmax].
      assert (y <= M); [|lra]. apply Hmax.
      apply list_elem_of_In, list_elem_of_lookup. eauto. }
    destruct (owns_cover ss M Hss t Hne ltac:(lra) (Hbelow i t Ht)) as [ka Hka].
    destruct (owns_cover ss M Hss u Hne ltac:(lra) (Hbelow j u Hu)) as [kb Hkb].
    destruct (Hnum i t Hne Ht) as (a' & Ha' & [Howna | [_ Hno]]); [|destruct (Hno ka Hka)].
    destruct (Hnum j u Hne Hu) as (b' & Hb' & [Hownb | [_ Hno]]); [|destruct (Hno kb Hkb)].
    rewrite Ha in Ha'. rewrite Hb in Hb'. injection Ha' as <-. injection Hb' as <-.
    apply (owns_mono ss M Hss a b t u); assumption.
Qed.

Lemma lap_assignment_witness :
  exists numbers,
    lap_number (add_lap_info 3
      {| records := [];
         laps := [ {| lap_start_time := Some 20; lap_avg_speed := None |};
                   {| lap_start_time := Some 10; lap_avg_speed := None |} ] |}
      (normalize false [sample 10 0; sample 12 30; sample 25 60])) = Some numbers /\
    nondecreasing_nat numbers.
Proof.
  destruct (lap_assignment 3
      {| records := [];
         laps := [ {| lap_start_time := Some 20; lap_avg_speed := None |};
                   {| lap_start_time := Some 10; lap_avg_speed := None |} ] |}
      (normalize false [sample 10 0; sample 12 30; sample 25 60])
      [10; 12; 25])
    as (ss & M & numbers & Hcol & _ & _ & _ & Hnum & _ & _ & _ & _ & Hmono).
  - reflexivity.
  - discriminate.
  - intros [|[|[|i]]] a b; simpl; intros [= <-] [= <-]; discriminate.
  - discriminate.
  - exists numbers. split; [exact Hnum|]. apply Hmono.
    intros t0 [= <-].
    assert (ss = [10; 20]) as ->; [|discriminate].
    vm_compute in Hcol.
    destruct ss as [|a [|b [|c ss]]]; try discriminate.
    injection Hcol as <- <-. reflexivity.
Defined.

(** ** Missing input: main results *)

Lemma parse_fit_without_distance (ff : FitFile) :
  has_column rec_timestamp (records ff) = true ->
  has_column rec_distance (records ff) = false ->
  parse_fit ff = Raise (KeyError "moving_elapsed_time_s").
Proof.
  intros Hts Hd. unfold parse_fit.
  destruct (records ff) as [|r rows] eqn:Hr; [discriminate|].
  set (df0 := normalize false (r :: rows)).
  assert (exists e, elapsed_time_s df0 = Some e) as [e He].
  { subst df0. unfold normalize. rewrite Hts. simpl. eauto. }
  assert (distance df0 = None) as Hd0.
  { subst df0. unfold normalize. rewrite Hts. cbn [distance].
    rewrite has_column_sort_by, Hd. reflexivity. }
  destruct (add_lap_info_keeps (length (r :: rows)) ff df0) as (_ & Hd1 & He1 & Hm1).
  unfold moving_time_stage. rewrite He1, Hd1, He, Hd0, He1, He, Hm1. reflexivity.
Qed.

Lemma parse_fit_records_without_distance (fitfile : FitFile) :
  records fitfile <> [] ->
  has_column rec_distance (records fitfile) = false ->
  exists df, parse_fit_records fitfile = Ok df /\
             distance df = None /\ moving_elapsed_time_s df = None /\
             elapsed_time_hms df = None.
Proof.
  intros Hne Hd. unfold parse_fit_records.
  destruct (records fitfile) as [|r rows] eqn:Hr; [congruence|].
  set (df0 := normalize true (r :: rows)).
  assert (distance df0 = None) as Hd0.
  { subst df0. unfold normalize. cbn [distance].
    destruct (has_column rec_timestamp (r :: rows));
      rewrite ?has_column_sort_by, Hd; reflexivity. }
  unfold moving_time_stage. rewrite Hd0.
  assert (moving_elapsed_time_s df0 = None) as Hm0 by reflexivity.
  destruct (elapsed_time_s df0); rewrite Hm0; exists df0; auto.
Qed.

(** C8: over records with timestamps and no distance at all, [V3] skips
    the moving-time stage, leaves the column out and returns its table;
    [parse_fit] skips the stage too but then reads the missing column and
    raises [KeyError]. *)
Theorem no_distance_key_error (ff : FitFile) :
  has_column rec_timestamp (records ff) = true ->
  has_column rec_distance (records ff) = false ->
  parse_fit ff = Raise (KeyError "moving_elapsed_time_s")
  /\ exists df, parse_fit_records ff = Ok df /\
                distance df = None /\ moving_elapsed_time_s df = None /\
                elapsed_time_hms df = None.
Proof.
  intros Hts Hd. split; [apply parse_fit_without_distance; assumption|].
  apply parse_fit_records_without_distance; [|exact Hd].
  destruct (records ff); [discriminate|discriminate].
Qed.

Lemma no_distance_key_error_witness :
  parse_fit {| records := [ {| rec_timestamp := Some 0; rec_distance := None |};
                            {| rec_timestamp := Some 1; rec_distance := None |} ];
               laps := [] |}
  = Raise (KeyError "moving_elapsed_time_s").
Proof.
  apply (no_distance_key_error
           {| records := [ {| rec_timestamp := Some 0; rec_distance := None |};
                           {| rec_timestamp := Some 1; rec_distance := None |} ];
              laps := [] |}); reflexivity.
Defined.

(** C9: without any record both pipelines raise the no-record error
    before a table exists, and [main] reports an error and writes no
    records table. *)
Theorem no_records_is_fatal (lap_msgs : list LapMsg) :
  parse_fit {| records := []; laps := lap_msgs |} = Raise no_record
  /\ parse_fit_records {| records := []; laps := lap_msgs |} = Raise no_record
  /\ status (main {| records := []; laps := lap_msgs |}) = "error"%string
  /\ records_csv (main {| records := []; laps := lap_msgs |}) = None.
Proof. repeat split. Qed.

(** ** Classification: the label at each position *)

Lemma label_before_first (speeds : list float) (first last i : nat) (v : float) :
  first_index is_intensity_speed speeds = Some first ->
  (i < first)%nat -> speeds !! i = Some v ->
  is_intensity_speed v = false.
Proof.
  intros Hf Hi Hv. destruct (first_index_Some _ _ _ Hf) as [_ H]. exact (H i v Hi Hv).
Qed.

Lemma no_intensity_after_last (speeds : list float) (last i : nat) (v : float) :
  last_index is_intensity_speed speeds = Some last ->
  (last < i)%nat -> speeds !! i = Some v ->
  is_intensity_speed v = false.
Proof.
  intros Hl Hi Hv. destruct (last_index_Some _ _ _ Hl) as [_ H]. exact (H i v Hi Hv).
Qed.

Lemma prev_intensity_iff (first last : nat) (speeds : list float) (i : nat) :
  prev_intensity (before_recovery first last speeds) i = true <->
  exists j w, i = S j /\ speeds !! j = Some w /\ is_intensity_speed w = true.
Proof.
  unfold prev_intensity. destruct i as [|j].
  - split; [discriminate|]. intros (j & w & H & _). discriminate.
  - rewrite lookup_before_recovery. destruct (speeds !! j) as [w|] eqn:Hw; simpl.
    + rewrite nature_eqb_eq, label_before_recovery_intensity. split.
      * intros H. exists j, w. auto.
      * intros (j' & w' & Hj & Hw' & H). injection Hj as <-. congruence.
    + split; [discriminate|]. intros (j' & w' & Hj & Hw' & _). injection Hj as <-.
      congruence.
Qed.

(** X1: a lap is labelled [Intensity] exactly when its average speed is
    above 17.05 km/h; no later step of the classifier gives or takes away
    that label. *)
Theorem intensity_iff_fast (speeds : list float) (i : nat) :
  classify_lap_nature_by_speed (laps_of_speeds speeds) !! i = Some Intensity <->
  exists v, speeds !! i = Some v /\ fgt v INTENSITY_SPEED_THRESHOLD = true.
Proof.
  destruct (first_index is_intensity_speed speeds) as [first|] eqn:Hf.
  - destruct (last_index is_intensity_speed speeds) as [last|] eqn:Hl;
      [|apply first_last_index_None in Hl; congruence].
    destruct (speeds !! i) as [v|] eqn:Hv.
    + rewrite (lookup_classify_work speeds first last i v Hf Hl Hv).
      fold (is_intensity_speed v).
      unfold interior_fill, label_before_recovery.
      destruct (is_intensity_speed v) eqn:Hint.
      * rewrite (intensity_not_slow v Hint). simpl.
        rewrite andb_false_r. split; eauto.
      * split; [|intros (w & [= <-] & ?); unfold is_intensity_speed in Hint; congruence].
        intros H. exfalso.
        destruct (flt v RECOVERY_SPEED_THRESHOLD && _); simpl in H.
        -- rewrite andb_false_r in H. discriminate.
        -- destruct (_ && between _ _ v); simpl in H;
             [rewrite andb_false_r in H; discriminate|].
           destruct (_ && between _ _ v); simpl in H;
             [rewrite andb_false_r in H; discriminate|].
           destruct (_ && _ && true) in H; discriminate.
    + split; [|intros (w & ? & _); discriminate].
      intros H. apply lookup_lt_Some in H. rewrite length_classify in H.
      apply lookup_ge_None in Hv. lia.
  - rewrite (classify_no_intensity speeds Hf). split.
    + intros H. apply lookup_replicate in H as [H _]. discriminate.
    + intros (v & Hv & Hfast). apply first_index_None in Hf.
      rewrite Forall_lookup in Hf. specialize (Hf i v Hv).
      unfold is_intensity_speed in Hf. congruence.
Qed.

(** X2: between the first and the last fast lap, both included, a lap is
    [Intensity] when it is fast and [Recovery] otherwise, whatever its
    speed, a missing speed included. *)
Theorem work_block_labels (speeds : list float) (first last i : nat) (v : float) :
  first_index is_intensity_speed speeds = Some first ->
  last_index is_intensity_speed speeds = Some last ->
  (first <= i <= last)%nat -> speeds !! i = Some v ->
  classify_lap_nature_by_speed (laps_of_speeds speeds) !! i
  = Some (if fgt v INTENSITY_SPEED_THRESHOLD then Intensity else Recovery).
Proof.
  intros Hf Hl [Hlo Hhi] Hv.
  rewrite (lookup_classify_work speeds first last i v Hf Hl Hv). f_equal.
  fold (is_intensity_speed v). unfold interior_fill, label_before_recovery.
  rewrite (proj2 (Nat.leb_le first i) Hlo), (proj2 (Nat.leb_le i last) Hhi).
  rewrite (proj2 (Nat.ltb_ge last i)) by lia.
  rewrite (proj2 (Nat.ltb_ge i first)) by lia. simpl.
  destruct (is_intensity_speed v) eqn:Hint.
  - rewrite (intensity_not_slow v Hint). reflexivity.
  - destruct (flt v RECOVERY_SPEED_THRESHOLD && _); reflexivity.
Qed.

Lemma work_block_labels_witness :
  classify_lap_nature_by_speed
    (laps_of_speeds [Fin 10; Fin 18; Fin 12; Fin 18; Fin 12]) !! 2%nat
  = Some Recovery.
Proof.
  apply (work_block_labels [Fin 10; Fin 18; Fin 12; Fin 18; Fin 12] 1 3 2 (Fin 12));
    [reflexivity|reflexivity|lia|reflexivity].
Defined.

(** X3: before the first fast lap, a lap is [Warm-up] when its speed lies
    in the band from 8.65 to 17.05 km/h and [Unknown] otherwise: a lap
    slower than the band, or without a speed, is not a warm-up there. *)
Theorem before_first_intensity (speeds : list float) (first i : nat) (v : float) :
  first_index is_intensity_speed speeds = Some first ->
  (i < first)%nat -> speeds !! i = Some v ->
  classify_lap_nature_by_speed (laps_of_speeds speeds) !! i
  = Some (if between RECOVERY_SPEED_THRESHOLD INTENSITY_SPEED_THRESHOLD v
          then Warm_up else Unknown).
Proof.
  intros Hf Hi Hv.
  destruct (last_index is_intensity_speed speeds) as [last|] eqn:Hl;
    [|apply first_last_index_None in Hl; congruence].
  pose proof (first_le_last _ _ _ _ Hf Hl) as Hfl.
  rewrite (lookup_classify_work speeds first last i v Hf Hl Hv). f_equal.
  assert (prev_intensity (before_recovery first last speeds) i = false) as ->.
  { destruct (prev_intensity _ i) eqn:E; [|reflexivity].
    apply prev_intensity_iff in E as (j & w & -> & Hw & Hint).
    rewrite (label_before_first speeds first last j w Hf ltac:(lia) Hw) in Hint.
    discriminate. }
  rewrite andb_false_r.
  unfold interior_fill, label_before_recovery.
  rewrite (label_before_first speeds first last i v Hf Hi Hv).
  rewrite (proj2 (Nat.leb_gt first i)) by lia.
  rewrite (proj2 (Nat.ltb_ge last i)) by lia.
  rewrite (proj2 (Nat.ltb_lt i first)) by lia. simpl.
  destruct (between _ _ v); reflexivity.
Qed.

Lemma before_first_intensity_witness :
  classify_lap_nature_by_speed
    (laps_of_speeds [Fin 5; Fin 18; Fin 12; Fin 18; Fin 12]) !! 0%nat
  = Some Unknown.
Proof.
  apply (before_first_intensity [Fin 5; Fin 18; Fin 12; Fin 18; Fin 12] 1 0 (Fin 5));
    [reflexivity|lia|reflexivity].
Defined.

(** X4: after the last fast lap, a lap in the band is [Cool-down]; a lap
    slower than 8.65 km/h is [Recovery] when it comes right after the last
    fast lap and [Unknown] later; a lap without a speed is [Unknown]. *)
Theorem after_last_intensity (speeds : list float) (last i : nat) (v : float) :
  last_index is_intensity_speed speeds = Some last ->
  (last < i)%nat -> speeds !! i = Some v ->
  classify_lap_nature_by_speed (laps_of_speeds speeds) !! i
  = Some (if between RECOVERY_SPEED_THRESHOLD INTENSITY_SPEED_THRESHOLD v then Cool_down
          else if flt v RECOVERY_SPEED_THRESHOLD && (i =? S last)%nat then Recovery
          else Unknown).
Proof.
  intros Hl Hi Hv.
  destruct (first_index is_intensity_speed speeds) as [first|] eqn:Hf;
    [|apply first_last_index_None in Hf; congruence].
  pose proof (first_le_last _ _ _ _ Hf Hl) as Hfl.
  rewrite (lookup_classify_work speeds first last i v Hf Hl Hv). f_equal.
  assert (prev_intensity (before_recovery first last speeds) i = (i =? S last)%nat) as ->.
  { destruct (i =? S last)%nat eqn:E.
    - apply Nat.eqb_eq in E. subst i. apply prev_intensity_iff.
      destruct (last_index_Some _ _ _ Hl) as [(w & Hw & Hint) _]. exists last, w. auto.
    - apply Nat.eqb_neq in E. destruct (prev_intensity _ i) eqn:P; [|reflexivity].
      apply prev_intensity_iff in P as (j & w & -> & Hw & Hint).
      rewrite (no_intensity_after_last speeds last j w Hl ltac:(lia) Hw) in Hint.
      discriminate. }
  unfold interior_fill, label_before_recovery.
  rewrite (no_intensity_after_last speeds last i v Hl Hi Hv).
  rewrite (proj2 (Nat.leb_gt i last)) by lia.
  rewrite (proj2 (Nat.ltb_lt last i)) by lia. rewrite andb_false_r. simpl.
  destruct (between RECOVERY_SPEED_THRESHOLD INTENSITY_SPEED_THRESHOLD v) eqn:Hb.
  - assert (flt v RECOVERY_SPEED_THRESHOLD = false) as ->; [|reflexivity].
    unfold between in Hb. destruct v as [|q]; [discriminate|]. simpl in *.
    apply andb_true_iff in Hb as [Hb _]. apply Qle_bool_iff in Hb.
    apply Qlt_bool_false_iff. exact Hb.
  - rewrite andb_false_r.
    destruct (flt v RECOVERY_SPEED_THRESHOLD && (i =? S last)%nat); reflexivity.
Qed.

Lemma after_last_intensity_witness :
  classify_lap_nature_by_speed
    (laps_of_speeds [Fin 10; Fin 18; Fin 5; Fin 5]) !! 2%nat = Some Recovery
  /\ classify_lap_nature_by_speed
       (laps_of_speeds [Fin 10; Fin 18; Fin 5; Fin 5]) !! 3%nat = Some Unknown.
Proof.
  split.
  - apply (after_last_intensity [Fin 10; Fin 18; Fin 5; Fin 5] 1 2 (Fin 5));
      [reflexivity|lia|reflexivity].
  - apply (after_last_intensity [Fin 10; Fin 18; Fin 5; Fin 5] 1 3 (Fin 5));
      [reflexivity|lia|reflexivity].
Defined.

(** ** The thresholds in metres per second *)

Lemma floor_half (n : Z) : Qfloor (inject_Z n + (1 # 2)) = n.
Proof.
  pose proof (floor_bounds (inject_Z n + (1 # 2))) as [B1 B2].
  set (f := Qfloor (inject_Z n + (1 # 2))) in *.
  assert (inject_Z f < inject_Z (n + 1)) as U
    by (rewrite inject_Z_plus; change (inject_Z 1) with 1; lra).
  assert (inject_Z (n - 1) < inject_Z f) as L.
  { unfold Z.sub. rewrite inject_Z_plus, inject_Z_opp. change (inject_Z 1) with 1. lra. }
  rewrite <- Zlt_Qlt in U, L. lia.
Qed.

Lemma rint_above (n : Z) (y : Q) :
  Z.even (n + 1) = true -> ((n < rint y)%Z <-> inject_Z n + (1 # 2) <= y).
Proof.
  intros Heven. split.
  - intros H. destruct (Qlt_le_dec y (inject_Z n + (1 # 2))) as [Hlt|]; [|assumption].
    exfalso. pose proof (rint_near y) as Hn. apply Qabs_Qle_condition in Hn as [_ Hn].
    assert (inject_Z (rint y) < inject_Z (n + 1)) as Hq
      by (rewrite inject_Z_plus; change (inject_Z 1) with 1; lra).
    rewrite <- Zlt_Qlt in Hq. lia.
  - intros H. apply rint_mono in H.
    assert (rint (inject_Z n + (1 # 2)) = (n + 1)%Z) as E; [|lia].
    unfold rint.
    assert (Qfloor (inject_Z n + (1 # 2)) = n) as ->.
    { apply floor_half. }
    assert (Qlt_bool (inject_Z n + (1 # 2) - inject_Z n) (1 # 2) = false) as ->
      by (apply Qlt_bool_false_iff; lra).
    assert (Qlt_bool (1 # 2) (inject_Z n + (1 # 2) - inject_Z n) = false) as ->
      by (apply Qlt_bool_false_iff; lra).
    replace (Z.even n) with false; [reflexivity|].
    rewrite Z.add_1_r, Z.even_succ in Heven. rewrite <- Z.negb_odd, Heven. reflexivity.
Qed.

Lemma rint_below (n : Z) (y : Q) :
  Z.even n = true -> ((rint y <= n)%Z <-> y <= inject_Z n + (1 # 2)).
Proof.
  intros Heven. split.
  - intros H. destruct (Qlt_le_dec (inject_Z n + (1 # 2)) y) as [Hlt|]; [|assumption].
    exfalso. pose proof (rint_near y) as Hn. apply Qabs_Qle_condition in Hn as [Hn _].
    assert (inject_Z n < inject_Z (rint y)) as Hq by lra.
    rewrite <- Zlt_Qlt in Hq. lia.
  - intros H. apply rint_mono in H.
    assert (rint (inject_Z n + (1 # 2)) = n) as E; [|lia].
    unfold rint.
    assert (Qfloor (inject_Z n + (1 # 2)) = n) as ->.
    { apply floor_half. }
    assert (Qlt_bool (inject_Z n + (1 # 2) - inject_Z n) (1 # 2) = false) as ->
      by (apply Qlt_bool_false_iff; lra).
    assert (Qlt_bool (1 # 2) (inject_Z n + (1 # 2) - inject_Z n) = false) as ->
      by (apply Qlt_bool_false_iff; lra).
    rewrite Heven. reflexivity.
Qed.

Lemma round_to_lt (s : positive) (n : Z) (q : Q) :
  n # s < round_to s q <-> (n < rint (q * inject_Z (Zpos s)))%Z.
Proof.
  unfold round_to. rewrite Qred_correct. unfold Qlt. simpl. split; nia.
Qed.

Lemma round_to_gt (s : positive) (n : Z) (q : Q) :
  round_to s q < n # s <-> (rint (q * inject_Z (Zpos s)) < n)%Z.
Proof.
  unfold round_to. rewrite Qred_correct. unfold Qlt. simpl. split; nia.
Qed.

Lemma kmh_intensity (v : Q) :
  fgt (kmh_of v) INTENSITY_SPEED_THRESHOLD = true <-> 379 # 80 <= v.
Proof.
  unfold kmh_of. simpl. rewrite Qlt_bool_iff.
  change (Pos.of_nat 100) with 100%positive.
  rewrite (round_to_lt 100 1705).
  rewrite (rint_above 1705) by reflexivity.
  change (inject_Z 1705) with 1705. change (inject_Z 100) with 100.
  split; intros H; lra.
Qed.

Lemma kmh_slow (v : Q) :
  flt (kmh_of v) RECOVERY_SPEED_THRESHOLD = true <-> v <= 1729 # 720.
Proof.
  unfold kmh_of. simpl. rewrite Qlt_bool_iff.
  change (Pos.of_nat 100) with 100%positive.
  rewrite (round_to_gt 100 865).
  assert (forall z, (z < 865 <-> z <= 864)%Z) as -> by (intros; lia).
  rewrite (rint_below 864) by reflexivity.
  change (inject_Z 864) with 864. change (inject_Z 100) with 100.
  split; intros H; lra.
Qed.

(** X5: in terms of the decoder's speed [v] in m/s, after the conversion
    to km/h and its rounding to two decimals (ties to even): a lap is fast
    exactly when [v >= 4.7375], slow exactly when [v <= 1729/720], and in
    the band exactly in between. *)
Theorem thresholds_in_metres_per_second (lap : LapMsg) (v : Q) :
  lap_avg_speed lap = Some (Number v) ->
  exists kmh,
    lap_speeds_kmh [lap] = [kmh] /\
    (fgt kmh INTENSITY_SPEED_THRESHOLD = true <-> 379 # 80 <= v) /\
    (flt kmh RECOVERY_SPEED_THRESHOLD = true <-> v <= 1729 # 720) /\
    (between RECOVERY_SPEED_THRESHOLD INTENSITY_SPEED_THRESHOLD kmh = true <->
     1729 # 720 < v < 379 # 80).
Proof.
  intros Hv. exists (kmh_of v). unfold lap_speeds_kmh. simpl. rewrite Hv.
  split; [reflexivity|]. split; [apply kmh_intensity|]. split; [apply kmh_slow|].
  pose proof (kmh_intensity v) as Hi. pose proof (kmh_slow v) as Hs.
  unfold between, kmh_of in *. cbn [np_round fmul MS_TO_KMH fge fle fgt flt
    INTENSITY_SPEED_THRESHOLD RECOVERY_SPEED_THRESHOLD] in *.
  rewrite andb_true_iff.
  assert (forall a b, Qle_bool a b = true <-> ~ Qlt_bool b a = true) as E.
  { intros a b. unfold Qlt_bool. destruct (Qle_bool a b); simpl; split; congruence. }
  rewrite !E, Hi, Hs. split; intros [A B]; split; lra.
Qed.

Lemma thresholds_in_metres_per_second_witness :
  exists kmh,
    lap_speeds_kmh [ {| lap_start_time := None; lap_avg_speed := Some (Number (379 # 80)) |} ]
    = [kmh]
    /\ fgt kmh INTENSITY_SPEED_THRESHOLD = true.
Proof.
  destruct (thresholds_in_metres_per_second
              {| lap_start_time := None; lap_avg_speed := Some (Number (379 # 80)) |}
              (379 # 80) eq_refl) as (kmh & Hk & Hfast & _).
  exists kmh. split; [exact Hk|]. apply Hfast. apply Qle_refl.
Defined.

(** ** Lap membership of every sample *)

Lemma fold_pick_range (starts ts : list float) (t : float) (laps : list (nat * float))
    (c : nat) :
  foldl (pick starts ts t) c laps = c \/
  exists lap, lap ∈ laps /\ foldl (pick starts ts t) c laps = lap.1.
Proof.
  destruct (decide (Exists (fun lap => claims starts ts t lap = true) laps)) as [Hex|Hno].
  - right. apply (fold_pick_some starts ts t laps c) in Hex.
    apply Exists_exists in Hex as (lap & Hin & _ & Hr). eauto.
  - left. apply fold_pick_none. apply Forall_forall. intros lap Hin.
    destruct (claims starts ts t lap) eqn:E; [|reflexivity].
    exfalso. apply Hno. apply Exists_exists. eauto.
Qed.

(** Whatever the timestamps, a lap number is one of [1..N]. *)
Lemma lap_number_range (starts ts : list float) (i k : nat) :
  starts <> [] -> assign_lap_numbers starts ts !! i = Some k ->
  (1 <= k <= length starts)%nat.
Proof.
  intros Hne Hk.
  assert (is_Some (ts !! i)) as [t Ht].
  { apply lookup_lt_is_Some. apply lookup_lt_Some in Hk.
    rewrite length_assign_lap_numbers in Hk. exact Hk. }
  rewrite (lookup_assign_lap_numbers starts ts i t Ht) in Hk. injection Hk as <-.
  assert (1 <= length starts)%nat as HN by (destruct starts; [congruence|simpl; lia]).
  cbv zeta.
  destruct (fold_pick_range starts ts t (zip (seq 1 (length starts)) starts) 0%nat)
    as [-> | (lap & Hin & ->)].
  - simpl. lia.
  - apply list_elem_of_lookup in Hin as [j Hj]. destruct lap as [n s].
    apply lookup_zip_Some in Hj as [Hn _]. apply lookup_seq in Hn as [-> Hj]. simpl.
    lia.
Qed.

Lemma find_lap_row {A} (start : nat) (l : list A) (j : nat) (x : A) :
  l !! j = Some x ->
  List.find (fun row : nat * A => (row.1 =? start + j)%nat) (zip (seq start (length l)) l)
  = Some ((start + j)%nat, x).
Proof.
  revert start j. induction l as [|y l IH]; intros start j Hj; [discriminate|].
  destruct j as [|j]; simpl in *.
  - injection Hj as ->. rewrite Nat.add_0_r, Nat.eqb_refl. reflexivity.
  - rewrite (proj2 (Nat.eqb_neq start (start + S j))) by lia.
    replace (start + S j)%nat with (S start + j)%nat by lia.
    apply (IH (S start) j Hj).
Qed.

Lemma lookup_merge_nature (numbers : list nat) (natures : list LapNature)
    (i j : nat) :
  numbers !! i = Some (S j) -> (j < length natures)%nat ->
  merge_nature numbers (zip (seq 1 (length natures)) natures) !! i = natures !! j.
Proof.
  intros Hi Hj. unfold merge_nature. rewrite lookup_map, Hi. simpl.
  destruct (lookup_lt_is_Some_2 natures j Hj) as [x Hx].
  pose proof (find_lap_row 1 natures j x Hx) as F. simpl in F.
  rewrite F, Hx. reflexivity.
Qed.

Lemma classify_frame (n : nat) (speeds : list float) :
  classify_lap_nature_by_speed {| n_laps := n; avg_speed_kmh := Some speeds |}
  = classify_lap_nature_by_speed (laps_of_speeds speeds).
Proof. reflexivity. Qed.

Lemma length_lap_natures (lap_msgs : list LapMsg) :
  length (lap_natures lap_msgs) = length (laps_sorted lap_msgs).
Proof.
  unfold lap_natures. rewrite classify_frame, length_classify.
  unfold lap_speeds_kmh. apply length_map.
Qed.

(** The two lap columns [add_lap_info] writes when the laps carry an
    average speed. *)
Lemma add_lap_info_merged (n : nat) (ff : FitFile) (df : DataFrame)
    (ts : list float) :
  timestamp df = Some ts ->
  has_column lap_avg_speed (laps_sorted (laps ff)) = true ->
  exists numbers natures,
    lap_number (add_lap_info n ff df) = Some numbers /\
    lap_nature (add_lap_info n ff df) = Some natures /\
    length numbers = length ts /\ length natures = length ts /\
    forall i k, numbers !! i = Some k ->
      (1 <= k <= length (laps_sorted (laps ff)))%nat /\
      natures !! i = lap_natures (laps ff) !! (k - 1)%nat.
Proof.
  intros Hts Hspeed.
  assert (laps_sorted (laps ff) <> []) as Hne.
  { intros E. rewrite E in Hspeed. discriminate. }
  pose proof (length_lap_natures (laps ff)) as Hlen.
  unfold add_lap_info, lap_natures in *. rewrite Hts.
  destruct (laps ff) as [|l0 l1] eqn:Hl; [exfalso; apply Hne; reflexivity|].
  destruct (laps_sorted (l0 :: l1)) as [|s0 s1] eqn:Hs; [congruence|].
  rewrite Hspeed. cbn [lap_number lap_nature set_laps].
  set (starts := column lap_start_time (s0 :: s1)).
  set (natures := classify_lap_nature_by_speed _) in *.
  assert (length starts = length (s0 :: s1)) as Hstarts
    by (unfold starts, column; apply length_map).
  eexists _, _. split; [reflexivity|]. split; [reflexivity|].
  split; [apply length_assign_lap_numbers|].
  split; [unfold merge_nature; rewrite length_map; apply length_assign_lap_numbers|].
  intros i k Hk.
  assert (1 <= k <= length starts)%nat as Hr.
  { apply (lap_number_range starts ts i k); [|exact Hk].
    intros E. rewrite E in Hstarts. discriminate. }
  split; [lia|].
  destruct k as [|j]; [lia|]. replace (S j - 1)%nat with j by lia.
  rewrite <- Hlen. apply lookup_merge_nature; [exact Hk|lia].
Qed.

(** X8: when the laps carry an average speed, [add_lap_info] gives every
    sample the nature its lap gets from the classifier run over the laps
    in start order: a sample numbered [k] has the nature of row [k - 1]
    of the classified laps. *)
Theorem sample_nature_is_lap_nature (n : nat) (ff : FitFile) (df : DataFrame)
    (ts : list float) :
  timestamp df = Some ts ->
  has_column lap_avg_speed (laps_sorted (laps ff)) = true ->
  exists numbers natures,
    lap_number (add_lap_info n ff df) = Some numbers /\
    lap_nature (add_lap_info n ff df) = Some natures /\
    length numbers = length ts /\ length natures = length ts /\
    forall i k, numbers !! i = Some k ->
      (1 <= k <= length (laps_sorted (laps ff)))%nat /\
      natures !! i = lap_natures (laps ff) !! (k - 1)%nat.
Proof.
  intros Hts Hspeed.
  destruct (add_lap_info_merged n ff df ts Hts Hspeed)
    as (numbers & natures & Hn & Hl & Hlen & Hlen' & Hrow).
  exists numbers, natures. repeat split; try assumption; apply (Hrow i k); assumption.
Qed.

Lemma sample_nature_is_lap_nature_witness :
  exists numbers natures,
    lap_number (add_lap_info 3
      {| records := [];
         laps := [ {| lap_start_time := Some 20; lap_avg_speed := Some (Number 5) |};
                   {| lap_start_time := Some 10; lap_avg_speed := Some (Number 3) |} ] |}
      (normalize false [sample 10 0; sample 12 30; sample 25 60])) = Some numbers
    /\ lap_nature (add_lap_info 3
      {| records := [];
         laps := [ {| lap_start_time := Some 20; lap_avg_speed := Some (Number 5) |};
                   {| lap_start_time := Some 10; lap_avg_speed := Some (Number 3) |} ] |}
      (normalize false [sample 10 0; sample 12 30; sample 25 60])) = Some natures
    /\ length natures = 3%nat.
Proof.
  destruct (sample_nature_is_lap_nature 3
      {| records := [];
         laps := [ {| lap_start_time := Some 20; lap_avg_speed := Some (Number 5) |};
                   {| lap_start_time := Some 10; lap_avg_speed := Some (Number 3) |} ] |}
      (normalize false [sample 10 0; sample 12 30; sample 25 60])
      [Fin 10; Fin 12; Fin 25] eq_refl eq_refl)
    as (numbers & natures & Hn & Hl & _ & Hlen & _).
  exists numbers, natures. split; [exact Hn|]. split; [exact Hl|exact Hlen].
Defined.

(** A sample without a timestamp is in no lap's interval. *)
Lemma lap_number_of_missing_timestamp (starts ts : list float) (i : nat) :
  ts !! i = Some NaN -> assign_lap_numbers starts ts !! i = Some (length starts).
Proof.
  intros Ht. rewrite (lookup_assign_lap_numbers starts ts i NaN Ht).
  rewrite fold_pick_none; [reflexivity|].
  apply Forall_forall. intros lap _. reflexivity.
Qed.

Lemma length_normalize_timestamp (v3 : bool) (rows : list RecordMsg) (ts : list float) :
  timestamp (normalize v3 rows) = Some ts -> length ts = length rows.
Proof.
  unfold normalize. cbn [timestamp].
  destruct (has_column rec_timestamp rows); [|discriminate].
  intros [= <-]. unfold column. rewrite length_map. apply length_sort_by.
Qed.

(** The two lap columns [add_lap_info] leaves on a table of [n] rows. *)
Lemma add_lap_info_columns (n : nat) (ff : FitFile) (df : DataFrame) :
  (forall ts, timestamp df = Some ts -> length ts = n) ->
  exists numbers natures,
    lap_number (add_lap_info n ff df) = Some numbers /\
    lap_nature (add_lap_info n ff df) = Some natures /\
    length numbers = n /\ length natures = n /\
    Forall (fun k => 1 <= k <= Nat.max 1 (length (laps_sorted (laps ff))))%nat numbers /\
    (timestamp df = None \/ laps_sorted (laps ff) = [] -> numbers = replicate n 1%nat) /\
    (timestamp df = None \/ has_column lap_avg_speed (laps_sorted (laps ff)) = false ->
     natures = replicate n Unknown).
Proof.
  intros Hlen. unfold add_lap_info.
  assert (Forall (fun k => 1 <= k <= Nat.max 1 (length (laps_sorted (laps ff))))%nat
                 (replicate n 1%nat)) as Hone.
  { apply Forall_forall. intros k Hk. apply elem_of_replicate in Hk as [-> _]. lia. }
  destruct (timestamp df) as [ts|] eqn:Hts.
  2: { eexists _, _. cbn [lap_number lap_nature set_laps].
       repeat split; rewrite ?length_replicate; auto. }
  specialize (Hlen ts eq_refl).
  destruct (laps ff) as [|l0 l1] eqn:Hl.
  { eexists _, _. cbn [lap_number lap_nature set_laps].
    repeat split; rewrite ?length_replicate; auto. }
  destruct (laps_sorted (l0 :: l1)) as [|s0 s1] eqn:Hs.
  { eexists _, _. cbn [lap_number lap_nature set_laps].
    repeat split; rewrite ?length_replicate; auto. }
  set (starts := column lap_start_time (s0 :: s1)).
  assert (length starts = length (s0 :: s1)) as Hstarts
    by (unfold starts, column; apply length_map).
  assert (Forall (fun k => 1 <= k <= Nat.max 1 (length (s0 :: s1)))%nat
                 (assign_lap_numbers starts ts)) as Hrange.
  { apply Forall_lookup. intros i k Hk.
    pose proof (lap_number_range starts ts i k) as H.
    rewrite Hstarts in H. specialize (H ltac:(intros E; rewrite E in Hstarts; discriminate) Hk).
    lia. }
  destruct (has_column lap_avg_speed (s0 :: s1)) eqn:Hspeed;
    eexists _, _; cbn [lap_number lap_nature set_laps];
    (split; [reflexivity|]); (split; [reflexivity|]);
    (split; [rewrite length_assign_lap_numbers; exact Hlen|]).
  - split; [unfold merge_nature; rewrite length_map, length_assign_lap_numbers; exact Hlen|].
    split; [exact Hrange|]. split; intros [H|H]; discriminate.
  - split; [apply length_replicate|].
    split; [exact Hrange|]. split; [intros [H|H]; discriminate|reflexivity].
Qed.

Lemma parse_fit_lap_columns (ff : FitFile) (df : DataFrame) :
  parse_fit ff = Ok df ->
  let df1 := add_lap_info (length (records ff)) ff (normalize false (records ff)) in
  lap_number df = lap_number df1 /\ lap_nature df = lap_nature df1 /\
  timestamp df = timestamp (normalize false (records ff)).
Proof.
  unfold parse_fit. destruct (records ff) as [|r rows] eqn:Hr; [discriminate|].
  set (df0 := normalize false (r :: rows)).
  destruct (add_lap_info_keeps (length (r :: rows)) ff df0) as (Ht & _).
  set (df1 := add_lap_info (length (r :: rows)) ff df0) in *.
  unfold moving_time_stage.
  destruct (elapsed_time_s df1) as [e|]; [destruct (distance df1) as [d|]|]; simpl.
  - intros [= <-]. simpl. auto.
  - destruct (elapsed_time_s df1); [|intros [= <-]; auto].
    destruct (moving_elapsed_time_s df1); [intros [= <-]; simpl; auto|discriminate].
  - destruct (elapsed_time_s df1); [|intros [= <-]; auto].
    destruct (moving_elapsed_time_s df1); [intros [= <-]; simpl; auto|discriminate].
Qed.

(** X6: a table [parse_fit] returns always has the columns [lap_number]
    and [lap_nature], with one cell per record, and every lap number lies
    between 1 and the number of laps that have a start time (1 when there
    is none). *)
Theorem every_sample_has_a_lap (ff : FitFile) (df : DataFrame) :
  parse_fit ff = Ok df ->
  exists numbers natures,
    lap_number df = Some numbers /\ lap_nature df = Some natures /\
    length numbers = length (records ff) /\ length natures = length (records ff) /\
    Forall (fun k => 1 <= k <= Nat.max 1 (length (laps_sorted (laps ff))))%nat numbers.
Proof.
  intros Hok. destruct (parse_fit_lap_columns ff df Hok) as (Hn & Hl & _).
  destruct (add_lap_info_columns (length (records ff)) ff (normalize false (records ff)))
    as (numbers & natures & H1 & H2 & H3 & H4 & H5 & _).
  { apply length_normalize_timestamp. }
  exists numbers, natures. rewrite Hn, Hl. auto.
Qed.

Lemma every_sample_has_a_lap_witness :
  exists df numbers,
    parse_fit scenario_samples = Ok df /\ lap_number df = Some numbers /\
    length numbers = 4%nat.
Proof.
  assert (exists df, parse_fit scenario_samples = Ok df) as [df Hdf]
    by (eexists; vm_compute; reflexivity).
  destruct (every_sample_has_a_lap scenario_samples df Hdf)
    as (numbers & natures & Hn & _ & Hlen & _).
  exists df, numbers. split; [exact Hdf|]. split; [exact Hn|exact Hlen].
Defined.

(** X7: in a table [parse_fit] returns, every sample is in lap 1 when the
    table has no timestamp column or no lap has a start time, and every
    sample is [Unknown] when the table has no timestamp column or no lap
    with a start time has an average speed. *)
Theorem fallback_single_lap (ff : FitFile) (df : DataFrame) :
  parse_fit ff = Ok df ->
  (timestamp df = None \/ laps_sorted (laps ff) = [] ->
   lap_number df = Some (replicate (length (records ff)) 1%nat)) /\
  (timestamp df = None \/ has_column lap_avg_speed (laps_sorted (laps ff)) = false ->
   lap_nature df = Some (replicate (length (records ff)) Unknown)).
Proof.
  intros Hok. destruct (parse_fit_lap_columns ff df Hok) as (Hn & Hl & Ht).
  destruct (add_lap_info_columns (length (records ff)) ff (normalize false (records ff)))
    as (numbers & natures & H1 & H2 & _ & _ & _ & H6 & H7).
  { apply length_normalize_timestamp. }
  rewrite Hn, Hl, Ht, H1, H2. split; intros H; f_equal; auto.
Qed.

Lemma fallback_single_lap_witness :
  exists df,
    parse_fit scenario_samples = Ok df /\
    lap_number df = Some [1; 1; 1; 1]%nat /\
    lap_nature df = Some [Unknown; Unknown; Unknown; Unknown].
Proof.
  assert (exists df, parse_fit scenario_samples = Ok df) as [df Hdf]
    by (eexists; vm_compute; reflexivity).
  destruct (fallback_single_lap scenario_samples df Hdf) as [Hn Hl].
  exists df. split; [exact Hdf|]. split; [apply Hn|apply Hl]; right; reflexivity.
Defined.

(** X9: a sample without a timestamp passes no comparison of the loop,
    keeps the initial value and is numbered with the last lap. *)
Theorem missing_timestamp_gets_last_lap (n : nat) (ff : FitFile) (df : DataFrame)
    (ts : list float) (i : nat) :
  timestamp df = Some ts -> laps_sorted (laps ff) <> [] -> ts !! i = Some NaN ->
  exists numbers, lap_number (add_lap_info n ff df) = Some numbers /\
                  numbers !! i = Some (length (laps_sorted (laps ff))).
Proof.
  intros Hts Hne Hi. eexists. split; [apply (add_lap_info_numbers n ff df ts Hts Hne)|].
  rewrite (lap_number_of_missing_timestamp _ ts i Hi).
  unfold column. rewrite length_map. reflexivity.
Qed.

Lemma missing_timestamp_gets_last_lap_witness :
  exists numbers,
    lap_number (add_lap_info 2
      {| records := [];
         laps := [ {| lap_start_time := Some 0; lap_avg_speed := None |};
                   {| lap_start_time := Some 20; lap_avg_speed := None |} ] |}
      (normalize false [ {| rec_timestamp := None; rec_distance := Some 0 |};
                         sample 5 10 ])) = Some numbers
    /\ numbers !! 1%nat = Some 2%nat.
Proof.
  apply (missing_timestamp_gets_last_lap 2
      {| records := [];
         laps := [ {| lap_start_time := Some 0; lap_avg_speed := None |};
                   {| lap_start_time := Some 20; lap_avg_speed := None |} ] |}
      (normalize false [ {| rec_timestamp := None; rec_distance := Some 0 |};
                         sample 5 10 ])
      [Fin 5; NaN] 1);
    [reflexivity|discriminate|reflexivity].
Defined.

(** ** The lap table and the records table *)

Lemma sort_by_sorted {A} (key : A -> float) (l : list A) :
  Sorted (key_le key) l -> sort_by key l = l.
Proof.
  induction 1 as [|x l Hl IH Hx]; [reflexivity|].
  change (sort_by key (x :: l)) with (insert_by key x (sort_by key l)). rewrite IH.
  destruct Hx as [|y l' Hxy]; [reflexivity|].
  simpl. unfold key_le in Hxy. rewrite Hxy. reflexivity.
Qed.

Lemma ascending_Sorted {A} (field : A -> option Q) (l : list A) :
  Forall (fun r => is_Some (field r)) l ->
  ascending (List.map (fun r => default 0 (field r)) l) ->
  Sorted (key_le (fun r => to_cell (field r))) l.
Proof.
  intros Hall. induction Hall as [|x l [q Hq] Hl IH]; intros Hasc; [constructor|].
  constructor.
  - apply IH. intros i a b Ha Hb. apply (Hasc (S i) a b); assumption.
  - destruct Hl as [|y l [p Hp] _]; constructor.
    unfold key_le. rewrite Hq, Hp. simpl. apply Qle_bool_iff.
    specialize (Hasc 0%nat q p). simpl in Hasc. rewrite Hq, Hp in Hasc. simpl in Hasc.
    apply Hasc; reflexivity.
Qed.

Lemma filter_all {A} (p : A -> bool) (l : list A) :
  Forall (fun x => p x = true) l -> List.filter p l = l.
Proof.
  induction 1 as [|x l Hx _ IH]; simpl; [reflexivity|]. rewrite Hx, IH. reflexivity.
Qed.

(** Laps that all have a start time and come in start-time order are left
    as they are. *)
Lemma laps_sorted_id (lap_msgs : list LapMsg) :
  Forall has_start_time lap_msgs -> ascending (start_times lap_msgs) ->
  laps_sorted lap_msgs = lap_msgs.
Proof.
  intros Hall Hasc. unfold laps_sorted. rewrite filter_all.
  - apply sort_by_sorted. apply ascending_Sorted; assumption.
  - eapply Forall_impl; [exact Hall|]. intros lap H. apply bool_decide_eq_true_2. exact H.
Qed.

Lemma numbered_rows_Sorted {A} (start : nat) (l : list A) :
  Sorted (key_le (fun row : nat * A => Fin (inject_Z (Z.of_nat row.1))))
         (zip (seq start (length l)) l).
Proof.
  revert start. induction l as [|x l IH]; intros start; simpl; [constructor|].
  constructor; [apply IH|].
  destruct l as [|y l]; simpl; constructor.
  unfold key_le. simpl. apply Qle_bool_iff. rewrite <- Zle_Qle. lia.
Qed.

Lemma fst_zip_seq {A} (start : nat) (l : list A) :
  List.map fst (zip (seq start (length l)) l) = seq start (length l).
Proof.
  revert start. induction l as [|x l IH]; intros start; simpl; [reflexivity|].
  rewrite IH. reflexivity.
Qed.

Lemma snd_zip_seq {A} (start : nat) (l : list A) :
  List.map snd (zip (seq start (length l)) l) = l.
Proof.
  revert start. induction l as [|x l IH]; intros start; simpl; [reflexivity|].
  rewrite IH. reflexivity.
Qed.

(** The table [export_lap_csv] returns. *)
Lemma export_lap_csv_rows (fitfile : FitFile) :
  laps fitfile <> [] ->
  exists table,
    export_lap_csv fitfile = Some table /\
    csv_lap_number table = seq 1 (length (laps fitfile)) /\
    (has_column lap_avg_speed (laps fitfile) = true ->
     csv_avg_speed_kmh table = Some (lap_speeds_kmh (laps fitfile)) /\
     csv_lap_nature table
     = Some (classify_lap_nature_by_speed (laps_of_speeds (lap_speeds_kmh (laps fitfile))))) /\
    (has_column lap_avg_speed (laps fitfile) = false ->
     csv_avg_speed_kmh table = None /\ csv_lap_nature table = None).
Proof.
  intros Hne. unfold export_lap_csv.
  destruct (laps fitfile) as [|l0 l1] eqn:Hl; [congruence|].
  set (lap_msgs := l0 :: l1).
  destruct (has_column lap_avg_speed lap_msgs) eqn:Hs; eexists; split; try reflexivity.
  - cbn [csv_lap_number csv_avg_speed_kmh csv_lap_nature].
    rewrite (sort_by_sorted _ _ (numbered_rows_Sorted 1 lap_msgs)).
    rewrite fst_zip_seq, snd_zip_seq. split; [reflexivity|].
    split; [|discriminate]. intros _. split; reflexivity.
  - cbn [csv_lap_number csv_avg_speed_kmh csv_lap_nature].
    rewrite fst_zip_seq. split; [reflexivity|]. split; [discriminate|]. auto.
Qed.

(** X10: a lap table is written only for a file that has a lap; its rows
    are numbered 1, 2, ... in decoder order, one per lap message, and it
    has a [lap_nature] column, with one cell per lap, exactly when some
    lap carries an average speed. *)
Theorem lap_table_is_dense (fitfile : FitFile) (table : LapTable) :
  export_lap_csv fitfile = Some table ->
  laps fitfile <> [] /\
  csv_lap_number table = seq 1 (length (laps fitfile)) /\
  (forall natures, csv_lap_nature table = Some natures ->
                   length natures = length (laps fitfile)) /\
  (is_Some (csv_lap_nature table) <-> has_column lap_avg_speed (laps fitfile) = true).
Proof.
  intros Ht.
  assert (laps fitfile <> []) as Hne.
  { intros E. unfold export_lap_csv in Ht. rewrite E in Ht. discriminate. }
  destruct (export_lap_csv_rows fitfile Hne) as (t & Ht' & Hnum & Hyes & Hno).
  rewrite Ht in Ht'. injection Ht' as <-.
  split; [exact Hne|]. split; [exact Hnum|].
  destruct (has_column lap_avg_speed (laps fitfile)) eqn:Hs.
  - destruct (Hyes eq_refl) as [_ Hn]. rewrite Hn. split.
    + intros natures [= <-]. rewrite length_classify. unfold lap_speeds_kmh.
      apply length_map.
    + split; eauto.
  - destruct (Hno eq_refl) as [_ Hn]. rewrite Hn. split; [discriminate|].
    split; [intros [x Hx]; discriminate|discriminate].
Qed.

Lemma lap_table_is_dense_witness :
  exists table,
    export_lap_csv
      {| records := [];
         laps := [ {| lap_start_time := Some 20; lap_avg_speed := Some (Number 5) |};
                   {| lap_start_time := None; lap_avg_speed := None |} ] |} = Some table
    /\ csv_lap_number table = [1; 2]%nat.
Proof.
  assert (exists table,
             export_lap_csv
               {| records := [];
                  laps := [ {| lap_start_time := Some 20;
                               lap_avg_speed := Some (Number 5) |};
                            {| lap_start_time := None; lap_avg_speed := None |} ] |}
             = Some table) as [table Ht] by (eexists; reflexivity).
  destruct (lap_table_is_dense _ table Ht) as (_ & Hnum & _).
  exists table. split; [exact Ht|exact Hnum].
Defined.

(** X11: when every lap has a start time, the laps come in start order
    and some lap has an average speed, the records table and the lap table
    agree: a sample numbered [k] has the nature of the row of the lap
    table whose [lap_number] is [k]. *)
Theorem lap_table_agrees_with_samples (n : nat) (ff : FitFile) (df : DataFrame)
    (ts : list float) :
  timestamp df = Some ts ->
  Forall has_start_time (laps ff) -> ascending (start_times (laps ff)) ->
  has_column lap_avg_speed (laps ff) = true ->
  exists table table_natures numbers natures,
    export_lap_csv ff = Some table /\
    csv_lap_nature table = Some table_natures /\
    lap_number (add_lap_info n ff df) = Some numbers /\
    lap_nature (add_lap_info n ff df) = Some natures /\
    forall i k, numbers !! i = Some k ->
      csv_lap_number table !! (k - 1)%nat = Some k /\
      natures !! i = table_natures !! (k - 1)%nat.
Proof.
  intros Hts Hall Hasc Hspeed.
  pose proof (laps_sorted_id (laps ff) Hall Hasc) as Hid.
  assert (laps ff <> []) as Hne by (intros E; rewrite E in Hspeed; discriminate).
  destruct (export_lap_csv_rows ff Hne) as (table & Ht & Hnum & Hyes & _).
  destruct (Hyes Hspeed) as [_ Hnat].
  destruct (add_lap_info_merged n ff df ts Hts) as
    (numbers & natures & H1 & H2 & _ & _ & H5).
  { rewrite Hid. exact Hspeed. }
  exists table, (classify_lap_nature_by_speed (laps_of_speeds (lap_speeds_kmh (laps ff)))),
    numbers, natures.
  split; [exact Ht|]. split; [exact Hnat|]. split; [exact H1|]. split; [exact H2|].
  intros i k Hk. destruct (H5 i k Hk) as [Hr Hn]. rewrite Hid in Hr. split.
  - rewrite Hnum. rewrite lookup_seq_lt by lia. f_equal. lia.
  - rewrite Hn. unfold lap_natures. rewrite Hid. reflexivity.
Qed.

Lemma lap_table_agrees_with_samples_witness :
  exists table table_natures natures,
    export_lap_csv
      {| records := [];
         laps := [ {| lap_start_time := Some 10; lap_avg_speed := Some (Number 3) |};
                   {| lap_start_time := Some 20; lap_avg_speed := Some (Number 5) |} ] |}
    = Some table
    /\ csv_lap_nature table = Some table_natures
    /\ lap_nature (add_lap_info 3
      {| records := [];
         laps := [ {| lap_start_time := Some 10; lap_avg_speed := Some (Number 3) |};
                   {| lap_start_time := Some 20; lap_avg_speed := Some (Number 5) |} ] |}
      (normalize false [sample 10 0; sample 12 30; sample 25 60])) = Some natures.
Proof.
  destruct (lap_table_agrees_with_samples 3
      {| records := [];
         laps := [ {| lap_start_time := Some 10; lap_avg_speed := Some (Number 3) |};
                   {| lap_start_time := Some 20; lap_avg_speed := Some (Number 5) |} ] |}
      (normalize false [sample 10 0; sample 12 30; sample 25 60])
      [Fin 10; Fin 12; Fin 25])
    as (table & table_natures & numbers & natures & Ht & Htn & _ & Hn & _).
  - reflexivity.
  - repeat constructor; eexists; reflexivity.
  - intros [|[|i]] a b; simpl; intros [= <-] [= <-]. discriminate.
  - reflexivity.
  - exists table, table_natures, natures. auto.
Defined.

(** ** Moving time between consecutive samples *)

Lemma length_corrections_from (pe pd : float) (E D : list float) :
  length (corrections_from pe pd E D) = Nat.min (length E) (length D).
Proof.
  revert pe pd D. induction E as [|x E IH]; intros pe pd [|y D]; simpl; try reflexivity.
  f_equal. apply IH.
Qed.

Lemma lookup_corrections_next (pe pd : float) (E D : list float) (i : nat)
    (e e' d d' : float) :
  E !! i = Some e -> E !! S i = Some e' -> D !! i = Some d -> D !! S i = Some d' ->
  corrections_from pe pd E D !! S i = Some (correction_step e d e' d').
Proof.
  revert pe pd D i. induction E as [|x E IH]; intros pe pd D i; [discriminate|].
  destruct D as [|y D]; [discriminate|].
  destruct i as [|i]; simpl.
  - intros [= <-] He' [= <-] Hd'.
    destruct E as [|x' E]; [discriminate|]. destruct D as [|y' D]; [discriminate|].
    simpl in *. congruence.
  - apply IH.
Qed.

(** The correction and the cumulative pause of a row after the first. *)
Lemma pause_step (es : list Q) (D : list float) (i : nat) (a b : Q) :
  length D = length es -> es !! i = Some a -> es !! S i = Some b ->
  exists d d' c,
    D !! i = Some d /\ D !! S i = Some d' /\
    pause_correction_s (List.map Fin es) D !! S i
    = Some (Fin (correction_value (Fin a) d b d')) /\
    cumulative_pause es D !! i = Some c /\
    cumulative_pause es D !! S i = Some (c + correction_value (Fin a) d b d').
Proof.
  intros Hlen Ha Hb.
  assert (is_Some (cumulative_pause es D !! S i)) as [c' Hc'].
  { apply lookup_lt_is_Some. rewrite length_cumulative_pause by exact Hlen.
    eapply lookup_lt_Some. exact Hb. }
  destruct (cumulative_from_next _ _ _ _ _ _ _ Hc') as
    (c & e & e' & d & d' & Hc & He & He' & Hd & Hd' & ->).
  rewrite Ha in He. rewrite Hb in He'. injection He as <-. injection He' as <-.
  exists d, d', c. repeat split; try assumption.
  rewrite pause_correction_rows.
  rewrite (lookup_corrections_next NaN NaN _ D i (Fin a) (Fin b) d d');
    try assumption; try (apply lookup_map_Fin; eauto).
  rewrite correction_step_fin. reflexivity.
Qed.

(** X12: when every gap between consecutive samples is shorter than 10 s,
    or comes with a known advance of more than 1 m, nothing is
    discounted: the moving time is the elapsed time rounded to a tenth. *)
Theorem no_pause_no_discount (es : list Q) (D : list float) :
  length D = length es ->
  (forall i a b, es !! i = Some a -> es !! S i = Some b ->
     b - a < 10 \/
     exists d d', D !! i = Some (Fin d) /\ D !! S i = Some (Fin d') /\ 1 < d' - d) ->
  moving_time (List.map Fin es) D = List.map (np_round 1) (List.map Fin es).
Proof.
  intros Hlen Hgap.
  assert (forall i c, cumulative_pause es D !! i = Some c -> c == 0) as Hzero.
  { induction i as [|i IH]; intros c Hc.
    - apply (cumulative_pause_first es D). exact Hc.
    - destruct (lookup_pred _ i c Hc) as [c0 Hc0].
      destruct (lookup_es_of_cs es D Hlen i c0 Hc0) as [a Ha].
      destruct (lookup_es_of_cs es D Hlen (S i) c Hc) as [b Hb].
      destruct (pause_step es D i a b Hlen Ha Hb) as (d & d' & c1 & Hd & Hd' & _ & H1 & H2).
      rewrite Hc0 in H1. rewrite Hc in H2. injection H1 as <-. injection H2 as ->.
      rewrite (IH c0 Hc0).
      assert (correction_value (Fin a) d b d' = 0) as ->; [|lra].
      unfold correction_value, correction_step. simpl.
      destruct (Hgap i a b Ha Hb) as [Hlt | (q & q' & Hq & Hq' & Hmove)].
      + rewrite (proj2 (Qle_bool_false_iff 10 (b - a)) Hlt). reflexivity.
      + rewrite Hd in Hq. rewrite Hd' in Hq'. injection Hq as ->. injection Hq' as ->.
        simpl. rewrite (proj2 (Qle_bool_false_iff (q' - q) 1) Hmove).
        rewrite andb_false_r. reflexivity. }
  rewrite moving_time_fin, !map_map. apply list_eq. intros i.
  rewrite lookup_map, lookup_zip_with, lookup_map.
  destruct (es !! i) as [a|] eqn:Ha; [|reflexivity]. simpl.
  destruct (lookup_cs_of_es es D Hlen i a Ha) as [c Hc]. rewrite Hc. simpl.
  do 2 f_equal. apply round_to_comp. rewrite (Hzero i c Hc). lra.
Qed.

Lemma no_pause_no_discount_witness :
  moving_time (List.map Fin [0; 5; 20]) [Fin 0; Fin 50; Fin 100]
  = List.map (np_round 1) (List.map Fin [0; 5; 20]).
Proof.
  apply (no_pause_no_discount [0; 5; 20] [Fin 0; Fin 50; Fin 100]); [reflexivity|].
  intros [|[|[|i]]] a b; simpl; intros [= <-] [= <-].
  - left. reflexivity.
  - right. exists 50, 100. repeat split; reflexivity.
Defined.

(** X13: a gap of 10 s or more next to a sample whose distance is missing
    is discounted as a pause: the missing advance is filled with 0 and
    the correction is the gap minus one second. *)
Theorem missing_distance_is_standstill (es : list Q) (D : list float) (i : nat) (a b : Q) :
  length D = length es -> es !! i = Some a -> es !! S i = Some b ->
  10 <= b - a -> (D !! i = Some NaN \/ D !! S i = Some NaN) ->
  pause_correction_s (List.map Fin es) D !! S i = Some (Fin (b - a - 1)).
Proof.
  intros Hlen Ha Hb Hgap Hnan.
  destruct (pause_step es D i a b Hlen Ha Hb) as (d & d' & c & Hd & Hd' & Hp & _).
  rewrite Hp. do 2 f_equal.
  unfold correction_value, correction_step. simpl.
  rewrite (proj2 (Qle_bool_iff 10 (b - a)) Hgap).
  assert (fsub d' d = NaN) as ->.
  { destruct Hnan as [H|H]; [rewrite Hd in H|rewrite Hd' in H]; injection H as ->;
      [destruct d'|]; reflexivity. }
  reflexivity.
Qed.

Lemma missing_distance_is_standstill_witness :
  pause_correction_s (List.map Fin [0; 12]) [Fin 0; NaN] !! 1%nat
  = Some (Fin (12 - 0 - 1)).
Proof.
  apply (missing_distance_is_standstill [0; 12] [Fin 0; NaN] 0 0 12);
    [reflexivity|reflexivity|reflexivity|discriminate|right; reflexivity].
Defined.

(** X14: with elapsed times on the tenths grid, from one sample to the
    next the moving time advances by the elapsed gap when the row has no
    correction, and by exactly one second when it has one, which needs a
    gap of 10 s or more. *)
Theorem moving_time_advance (es : list Q) (D : list float) (i : nat) (a b : Q) :
  length D = length es -> Forall (on_grid 10) es ->
  es !! i = Some a -> es !! S i = Some b ->
  exists p m m',
    pause_correction_s (List.map Fin es) D !! S i = Some (Fin p) /\
    moving_time (List.map Fin es) D !! i = Some (Fin m) /\
    moving_time (List.map Fin es) D !! S i = Some (Fin m') /\
    (p == 0 -> m' - m == b - a) /\
    (~ p == 0 -> 10 <= b - a /\ m' - m == 1).
Proof.
  intros Hlen Hgrid Ha Hb.
  destruct (pause_step es D i a b Hlen Ha Hb) as (d & d' & c & Hd & Hd' & Hp & Hc & Hc').
  set (p := correction_value (Fin a) d b d') in *.
  set (ms := zip_with (fun e c => round_to 10 (e - c)) es (cumulative_pause es D)).
  assert (ms !! i = Some (round_to 10 (a - c))) as Hm
    by (apply lookup_ms; eauto).
  assert (ms !! S i = Some (round_to 10 (b - (c + p)))) as Hm'
    by (apply lookup_ms; eauto).
  exists p, (round_to 10 (a - c)), (round_to 10 (b - (c + p))).
  rewrite moving_time_fin. fold ms. rewrite !lookup_map, Hm, Hm'.
  split; [exact Hp|]. split; [reflexivity|]. split; [reflexivity|].
  rewrite (moving_exact es D Hlen Hgrid i _ a c Hm Ha Hc).
  rewrite (moving_exact es D Hlen Hgrid (S i) _ b (c + p) Hm' Hb Hc').
  destruct (correction_value_cases (Fin a) d b d') as [E | (q & [= <-] & E & Hge)];
    fold p in E; rewrite E.
  - split; [intros _; lra|]. intros H. exfalso. apply H. reflexivity.
  - split; [intros H; lra|]. intros _. split; [exact Hge|lra].
Qed.

Lemma moving_time_advance_witness :
  exists p m m',
    pause_correction_s (List.map Fin [0; 12]) [Fin 0; Fin (1 # 2)] !! 1%nat = Some (Fin p)
    /\ moving_time (List.map Fin [0; 12]) [Fin 0; Fin (1 # 2)] !! 0%nat = Some (Fin m)
    /\ moving_time (List.map Fin [0; 12]) [Fin 0; Fin (1 # 2)] !! 1%nat = Some (Fin m').
Proof.
  destruct (moving_time_advance [0; 12] [Fin 0; Fin (1 # 2)] 0 0 12)
    as (p & m & m' & Hp & Hm & Hm' & _).
  - reflexivity.
  - repeat constructor; [exists 0%Z|exists 120%Z]; reflexivity.
  - reflexivity.
  - reflexivity.
  - exists p, m, m'. auto.
Defined.

(** ** What the display strings tell apart *)

Lemma py_int_nonneg (q : Q) : 0 <= q -> (0 <= py_int q)%Z.
Proof.
  intros Hq. rewrite py_int_floor by exact Hq.
  change 0%Z with (Qfloor (inject_Z 0)). apply Qfloor_resp_le. exact Hq.
Qed.

(** X16: two non-negative times get the same [MM:SS] string exactly when
    they fall in the same whole second: minutes are not wrapped at the
    hour, so the string determines the second. *)
Theorem min_sec_same_second (a b : Q) :
  0 <= a -> 0 <= b ->
  (format_seconds_to_min_sec (Fin a) = format_seconds_to_min_sec (Fin b)
   <-> Qfloor a = Qfloor b).
Proof.
  intros Ha Hb. rewrite !format_min_sec_Fin, <- !py_int_floor by assumption. split.
  - intros [= H]. apply min_sec_inj; [apply py_int_nonneg; exact Ha|
                                      apply py_int_nonneg; exact Hb|exact H].
  - intros ->. reflexivity.
Qed.

Lemma min_sec_same_second_witness :
  format_seconds_to_min_sec (Fin (653 # 10)) = format_seconds_to_min_sec (Fin (659 # 10)).
Proof.
  destruct (min_sec_same_second (653 # 10) (659 # 10)) as [_ H];
    [discriminate|discriminate|].
  apply H. reflexivity.
Defined.

(** X17: two non-negative times get the same [H:MM:SS] or [MM:SS] string
    of [V3] exactly when they fall in the same whole second. *)
Theorem hms_same_second (a b : Q) :
  0 <= a -> 0 <= b ->
  (format_seconds_to_hms (Fin a) = format_seconds_to_hms (Fin b)
   <-> Qfloor a = Qfloor b).
Proof.
  intros Ha Hb. rewrite !format_hms_Fin, <- !py_int_floor by assumption. split.
  - intros [= H]. apply hms_inj; [apply py_int_nonneg; exact Ha|
                                  apply py_int_nonneg; exact Hb|exact H].
  - intros ->. reflexivity.
Qed.

Lemma hms_same_second_witness :
  format_seconds_to_hms (Fin (36653 # 10)) = format_seconds_to_hms (Fin (36659 # 10)).
Proof.
  destruct (hms_same_second (36653 # 10) (36659 # 10)) as [_ H];
    [discriminate|discriminate|].
  apply H. reflexivity.
Defined.

(** X18: below one hour the two formatters return the same string. *)
Theorem hms_below_one_hour (q : Q) :
  0 <= q -> q < 3600 ->
  format_seconds_to_hms (Fin q) = format_seconds_to_min_sec (Fin q).
Proof.
  intros H0 H1. rewrite format_hms_Fin, format_min_sec_Fin. f_equal.
  pose proof (py_int_nonneg q H0) as Hn.
  assert (py_int q < 3600)%Z as Hlt.
  { rewrite py_int_floor by exact H0. pose proof (floor_bounds q) as [B _].
    rewrite Zlt_Qlt. change (inject_Z 3600) with 3600. lra. }
  unfold hms, min_sec.
  rewrite (Z.div_small (py_int q) 3600) by lia.
  rewrite (Z.mod_small (py_int q) 3600) by lia. reflexivity.
Qed.

Lemma hms_below_one_hour_witness :
  format_seconds_to_hms (Fin (7 # 2)) = format_seconds_to_min_sec (Fin (7 # 2)).
Proof.
  apply (hms_below_one_hour (7 # 2)); [discriminate|reflexivity].
Defined.

(** ** Time elapsed in the lap *)

Lemma series_min_fin (qs : list Q) :
  qs <> [] ->
  exists m, series_min (List.map Fin qs) = Fin m /\ In m qs /\ forall q, In q qs -> m <= q.
Proof.
  induction qs as [|q qs IH]; [congruence|]. intros _.
  destruct qs as [|q' qs'].
  - exists q. simpl. split; [reflexivity|]. split; [left; reflexivity|].
    intros x [<-|[]]. lra.
  - destruct (IH ltac:(discriminate)) as (m & Hm & Hin & Hmin).
    change (series_min (List.map Fin (q :: q' :: qs')))
      with (match series_min (List.map Fin (q' :: qs')) with
            | NaN => Fin q
            | Fin b => if Qle_bool q b then Fin q else series_min (List.map Fin (q' :: qs'))
            end).
    rewrite Hm. destruct (Qle_bool q m) eqn:E.
    + apply Qle_bool_iff in E. exists q. split; [reflexivity|].
      split; [left; reflexivity|]. intros x [<-|Hx]; [lra|].
      specialize (Hmin x Hx). lra.
    + apply Qle_bool_false_iff in E. exists m. split; [reflexivity|].
      split; [right; exact Hin|]. intros x [<-|Hx]; [lra|apply Hmin, Hx].
Qed.

Lemma lap_rows_Fin (k : nat) (keys : list nat) (es : list Q) :
  List.map snd (List.filter (fun row : nat * float => (row.1 =? k)%nat)
                            (zip keys (List.map Fin es)))
  = List.map Fin (lap_rows k keys es).
Proof.
  unfold lap_rows. revert es. induction keys as [|n keys IH]; intros [|e es];
    try reflexivity.
  simpl. destruct (n =? k)%nat; simpl; rewrite IH; reflexivity.
Qed.

Lemma In_lap_rows (k : nat) (keys : list nat) (es : list Q) (q : Q) :
  In q (lap_rows k keys es) <-> exists j, keys !! j = Some k /\ es !! j = Some q.
Proof.
  unfold lap_rows. revert es. induction keys as [|n keys IH]; intros [|e es].
  - simpl. split; [tauto|]. intros (j & H & _). discriminate.
  - simpl. split; [tauto|]. intros (j & H & _). discriminate.
  - simpl. split; [tauto|]. intros (j & _ & H). discriminate.
  - specialize (IH es). simpl. destruct (n =? k)%nat eqn:E; simpl.
    + apply Nat.eqb_eq in E. subst n. rewrite IH. split.
      * intros [<- | (j & H1 & H2)]; [exists 0%nat; auto|exists (S j); auto].
      * intros ([|j] & H1 & H2); simpl in *; [left; congruence|right; eauto].
    + apply Nat.eqb_neq in E. rewrite IH. split.
      * intros (j & H1 & H2). exists (S j). auto.
      * intros ([|j] & H1 & H2); simpl in *; [congruence|eauto].
Qed.

(** The start of the lap of row [i]: the least elapsed time of its lap. *)
Lemma lookup_group_min (keys : list nat) (es : list Q) (i k : nat) :
  keys !! i = Some k ->
  group_min keys (List.map Fin es) !! i
  = Some (series_min (List.map Fin (lap_rows k keys es))).
Proof.
  intros Hk. unfold group_min. rewrite lookup_map, Hk. simpl.
  rewrite lap_rows_Fin. reflexivity.
Qed.

Lemma lookup_elapsed_in_lap (keys : list nat) (es : list Q) (i k : nat) (e m : Q) :
  keys !! i = Some k -> es !! i = Some e ->
  series_min (List.map Fin (lap_rows k keys es)) = Fin m ->
  elapsed_time_in_lap_s keys (List.map Fin es) !! i = Some (Fin (round_to 10 (e - m))).
Proof.
  intros Hk He Hm. unfold elapsed_time_in_lap_s.
  rewrite lookup_map, lookup_zip_with, lookup_map, He.
  rewrite (lookup_group_min keys es i k Hk), Hm. reflexivity.
Qed.

(** X15: the time elapsed in the lap is never negative, and in every lap
    that has a sample some sample of the lap reads exactly 0. *)
Theorem elapsed_in_lap_restarts (lap_numbers : list nat) (es : list Q) (i k : nat) :
  length lap_numbers = length es -> lap_numbers !! i = Some k ->
  (exists x, elapsed_time_in_lap_s lap_numbers (List.map Fin es) !! i = Some (Fin x)
             /\ 0 <= x) /\
  (exists j, lap_numbers !! j = Some k /\
             elapsed_time_in_lap_s lap_numbers (List.map Fin es) !! j = Some (Fin 0)).
Proof.
  intros Hlen Hk.
  assert (is_Some (es !! i)) as [e He].
  { apply lookup_lt_is_Some. rewrite <- Hlen. eapply lookup_lt_Some. exact Hk. }
  assert (In e (lap_rows k lap_numbers es)) as Hin by (apply In_lap_rows; eauto).
  destruct (series_min_fin (lap_rows k lap_numbers es)) as (m & Hm & Hmin & Hle).
  { intros E. rewrite E in Hin. destruct Hin. }
  split.
  - exists (round_to 10 (e - m)).
    split; [apply (lookup_elapsed_in_lap lap_numbers es i k e m Hk He Hm)|].
    change 0 with (round_to 10 0). apply round_to_mono.
    specialize (Hle e Hin). lra.
  - apply In_lap_rows in Hmin as (j & Hj & Hmj). exists j. split; [exact Hj|].
    rewrite (lookup_elapsed_in_lap lap_numbers es j k m m Hj Hmj Hm).
    rewrite (round_to_comp 10 (m - m) 0) by lra. reflexivity.
Qed.

Lemma elapsed_in_lap_restarts_witness :
  exists j,
    [1; 1; 2; 2]%nat !! j = Some 2%nat
    /\ elapsed_time_in_lap_s [1; 1; 2; 2]%nat (List.map Fin [0; 5; 9; 12]) !! j
       = Some (Fin 0).
Proof.
  destruct (elapsed_in_lap_restarts [1; 1; 2; 2]%nat [0; 5; 9; 12] 3 2) as [_ H];
    [reflexivity|reflexivity|exact H].
Defined.

(** ** Activity summary and outcome of a run *)

Lemma lower_not_upper (c : ascii) : is_upper (lower c) = false.
Proof. destruct c as [[] [] [] [] [] [] [] []]; vm_compute; reflexivity. Qed.

Lemma has_upper_lower (s : string) : has_upper (string_map lower s) = false.
Proof.
  induction s as [|c r IH]; [reflexivity|].
  simpl. rewrite lower_not_upper, IH. reflexivity.
Qed.

(** A capitalised string has no capital after its first character. *)
Lemma capitalize_tail (s : string) (c : ascii) (r : string) :
  capitalize s = String c r -> has_upper r = false.
Proof.
  destruct s as [|c' r']; [discriminate|].
  simpl. intros [= _ <-]. apply has_upper_lower.
Qed.

Lemma is_str_true (v : option EnumValue) (s : string) :
  is_str v s = true <-> v = Some (Name s).
Proof.
  destruct v as [[n|z]|]; simpl; try (split; [discriminate|congruence]).
  rewrite String.eqb_eq. split; [congruence|]. intros [= ->]. reflexivity.
Qed.

Lemma is_str_false (v : option EnumValue) (s : string) :
  is_str v s = false <-> v <> Some (Name s).
Proof.
  rewrite <- is_str_true. destruct (is_str v s); split; congruence.
Qed.

Lemma last_is_Some {A} (l : list A) : l <> [] -> exists x, last l = Some x.
Proof.
  intros H. destruct (last l) eqn:E; [eauto|].
  apply last_None in E. contradiction.
Qed.

(** X20: the summary is that of the last [session] message.  Its activity
    type is [Trail Running] exactly for sport [running] with sub-sport
    [trail], and [Road Running] exactly for sport [running] with any
    other or no sub-sport; sport [cycling] gives [Cycling]; any other
    sport is shown by its capitalised name, which is never one of the two
    running labels. *)
Theorem activity_type_of_session (before : list SessionMsg) (s : SessionMsg) :
  let sport := default (Some (Name "unknown"%string)) (ses_sport s) in
  let sub_sport := default (Some (Name "unknown"%string)) (ses_sub_sport s) in
  exists summary,
    extract_activity_summary (before ++ [s]) = Ok summary
    /\ (activity_type summary = "Trail Running"%string
        <-> sport = Some (Name "running"%string) /\ sub_sport = Some (Name "trail"%string))
    /\ (activity_type summary = "Road Running"%string
        <-> sport = Some (Name "running"%string) /\ sub_sport <> Some (Name "trail"%string))
    /\ (sport = Some (Name "cycling"%string) -> activity_type summary = "Cycling"%string)
    /\ (sport <> Some (Name "running"%string) -> sport <> Some (Name "cycling"%string) ->
        activity_type summary = capitalize (py_str sport)).
Proof.
  intros sport sub_sport. unfold extract_activity_summary.
  rewrite last_snoc. eexists. split; [reflexivity|].
  cbn [activity_type]. fold sport sub_sport.
  destruct (is_str sport "running") eqn:Hr.
  - pose proof Hr as Hr'. apply is_str_true in Hr'.
    destruct (is_str sub_sport "trail") eqn:Ht.
    + pose proof Ht as Ht'. apply is_str_true in Ht'.
      repeat split; try congruence; try discriminate.
      intros [_ H]. contradiction.
    + pose proof Ht as Ht'. apply is_str_false in Ht'.
      repeat split; try congruence; try discriminate.
      intros [_ H]. contradiction.
  - pose proof Hr as Hr'. apply is_str_false in Hr'.
    destruct (is_str sport "cycling") eqn:Hc.
    + pose proof Hc as Hc'. apply is_str_true in Hc'.
      repeat split; try congruence; try discriminate; try tauto.
    + pose proof Hc as Hc'. apply is_str_false in Hc'.
      assert (capitalize (py_str sport) <> "Trail Running"%string) as N1
        by (intros H; apply capitalize_tail in H; discriminate H).
      assert (capitalize (py_str sport) <> "Road Running"%string) as N2
        by (intros H; apply capitalize_tail in H; discriminate H).
      clear Hr Hc. tauto.
Qed.

(** X21: once the records table is there, the run of [V3] has written the
    records CSV whatever follows.  It reports success exactly when there
    is a [session] message and the last one carries no [datetime] in its
    [timestamp]; without a session it reports an error and never opens
    the summary; with a [datetime], which the summary keeps and the JSON
    encoder refuses, it reports an error and leaves the summary file
    unfinished. *)
Theorem main_V3_outcome (ff : FitFile) (session_messages : list SessionMsg)
    (df : DataFrame) :
  parse_fit_records ff = Ok df ->
  let report := main_V3 ff session_messages in
  v3_records_csv report = Some df
  /\ (v3_status report = "success"%string
      <-> exists s, last session_messages = Some s
                    /\ forall t, ses_timestamp s <> Some (Some (Datetime t)))
  /\ (v3_status report <> "success"%string -> v3_status report = "error"%string)
  /\ (v3_summary_json report = NotCreated <-> session_messages = [])
  /\ (forall s t, last session_messages = Some s ->
                  ses_timestamp s = Some (Some (Datetime t)) ->
                  v3_status report = "error"%string
                  /\ v3_summary_json report = Unfinished).
Proof.
  intros Hdf. unfold main_V3. rewrite Hdf.
  unfold extract_activity_summary, json_serializable.
  destruct (last session_messages) as [s0|] eqn:Hlast.
  - assert (session_messages <> []) as Hne by (intros ->; discriminate).
    cbn [summary_timestamp].
    destruct (ses_timestamp s0) as [[[t0|n]|]|] eqn:Ht; cbn [v3_status v3_records_csv
      v3_summary_json]; (split; [reflexivity|]); (split; [|split; [|split]]).
    + split; [discriminate|]. intros (s & [= <-] & Hs). exfalso. exact (Hs t0 Ht).
    + reflexivity.
    + split; [discriminate|]. intros E. contradiction.
    + intros s t [= <-] _. split; reflexivity.
    + split; [|reflexivity]. intros _. exists s0. split; [reflexivity|].
      intros t. rewrite Ht. discriminate.
    + intros H. contradiction H. reflexivity.
    + split; [discriminate|]. intros E. contradiction.
    + intros s t [= <-]. rewrite Ht. discriminate.
    + split; [|reflexivity]. intros _. exists s0. split; [reflexivity|].
      intros t. rewrite Ht. discriminate.
    + intros H. contradiction H. reflexivity.
    + split; [discriminate|]. intros E. contradiction.
    + intros s t [= <-]. rewrite Ht. discriminate.
    + split; [|reflexivity]. intros _. exists s0. split; [reflexivity|].
      intros t. rewrite Ht. discriminate.
    + intros H. contradiction H. reflexivity.
    + split; [discriminate|]. intros E. contradiction.
    + intros s t [= <-]. rewrite Ht. discriminate.
  - apply last_None in Hlast. subst session_messages.
    cbn [v3_status v3_records_csv v3_summary_json].
    split; [reflexivity|]. split; [|split; [|split]].
    + split; [discriminate|]. intros (s & Hs & _). discriminate.
    + reflexivity.
    + split; reflexivity.
    + intros s t Hs. discriminate.
Qed.

Lemma main_V3_outcome_witness :
  exists df,
    v3_records_csv
      (main_V3 scenario_samples
         [ {| ses_sport := Some (Some (Name "running"));
              ses_sub_sport := Some (Some (Name "trail"));
              ses_total_distance := Some (Some (Fin 70));
              ses_total_elapsed_time := Some (Some (Fin 22));
              ses_total_timer_time := Some (Some (Fin 8));
              ses_max_heart_rate := None; ses_avg_heart_rate := None;
              ses_total_ascent := None; ses_total_descent := None;
              ses_timestamp := Some (Some (Datetime 1000000000)) |} ]) = Some df
    /\ v3_status
         (main_V3 scenario_samples
            [ {| ses_sport := Some (Some (Name "running"));
                 ses_sub_sport := Some (Some (Name "trail"));
                 ses_total_distance := Some (Some (Fin 70));
                 ses_total_elapsed_time := Some (Some (Fin 22));
                 ses_total_timer_time := Some (Some (Fin 8));
                 ses_max_heart_rate := None; ses_avg_heart_rate := None;
                 ses_total_ascent := None; ses_total_descent := None;
                 ses_timestamp := Some (Some (Datetime 1000000000)) |} ])
       = "error"%string.
Proof.
  assert (exists df, parse_fit_records scenario_samples = Ok df) as [df Hdf]
    by (eexists; vm_compute; reflexivity).
  destruct (main_V3_outcome scenario_samples
              [ {| ses_sport := Some (Some (Name "running"));
                   ses_sub_sport := Some (Some (Name "trail"));
                   ses_total_distance := Some (Some (Fin 70));
                   ses_total_elapsed_time := Some (Some (Fin 22));
                   ses_total_timer_time := Some (Some (Fin 8));
                   ses_max_heart_rate := None; ses_avg_heart_rate := None;
                   ses_total_ascent := None; ses_total_descent := None;
                   ses_timestamp := Some (Some (Datetime 1000000000)) |} ]
              df Hdf) as (Hcsv & _ & _ & _ & Herr).
  exists df. split; [exact Hcsv|].
  exact (proj1 (Herr _ 1000000000 eq_refl eq_refl)).
Defined.

(** ** Column order *)

Lemma string_compare_OT (a b : string) :
  OrdersEx.String_as_OT.compare a b = String.compare a b.
Proof.
  reflexivity.
Qed.

Lemma str_le_trans (a b c : string) : str_le a b -> str_le b c -> str_le a c.
Proof.
  unfold str_le, String.leb. intros Hab Hbc.
  destruct (String.compare a b) eqn:Eab; [| |discriminate].
  - apply String.compare_eq_iff in Eab. subst. exact Hbc.
  - destruct (String.compare b c) eqn:Ebc; [| |discriminate].
    + apply String.compare_eq_iff in Ebc. subst. rewrite Eab. reflexivity.
    + assert (String.compare a c = Lt) as ->; [|reflexivity].
      rewrite <- string_compare_OT in *.
      pose proof OrdersEx.String_as_OT.lt_strorder as [_ T].
      exact (T a b c Eab Ebc).
Qed.

Lemma str_le_refl (a : string) : str_le a a.
Proof.
  destruct (String.leb_total a a); assumption.
Qed.

Lemma insert_sorted_perm (c : string) (l : list string) : insert_sorted c l ≡ₚ c :: l.
Proof.
  induction l as [|d l IH]; [reflexivity|].
  simpl. destruct (String.leb c d); [reflexivity|].
  rewrite IH. apply Permutation_swap.
Qed.

Lemma sorted_perm (l : list string) : sorted l ≡ₚ l.
Proof.
  induction l as [|c l IH]; [reflexivity|].
  change (sorted (c :: l)) with (insert_sorted c (sorted l)).
  rewrite insert_sorted_perm, IH. reflexivity.
Qed.

Lemma insert_sorted_ascending (c : string) (l : list string) :
  StronglySorted str_le l -> StronglySorted str_le (insert_sorted c l).
Proof.
  induction 1 as [|d l Hl IH Hd]; simpl.
  - repeat constructor.
  - destruct (String.leb c d) eqn:E.
    + constructor; [constructor; assumption|].
      constructor; [exact E|].
      eapply Forall_impl; [exact Hd|]. intros x Hx. eapply str_le_trans; eassumption.
    + constructor; [exact IH|].
      rewrite insert_sorted_perm. constructor; [|exact Hd].
      destruct (String.leb_total c d) as [H|H]; [congruence|exact H].
Qed.

Lemma sorted_ascending (l : list string) : StronglySorted str_le (sorted l).
Proof.
  induction l as [|c l IH]; [constructor|].
  change (sorted (c :: l)) with (insert_sorted c (sorted l)).
  apply insert_sorted_ascending, IH.
Qed.

(** Two ascending lists with the same elements are the same list. *)
Lemma ascending_unique (l k : list string) :
  StronglySorted str_le l -> StronglySorted str_le k -> l ≡ₚ k -> l = k.
Proof.
  intros Hl. revert k. induction Hl as [|a l Hl IH Ha]; intros k Hk Hp.
  - apply Permutation_nil_l in Hp. congruence.
  - destruct Hk as [|b k Hk Hb].
    + apply Permutation_nil_r in Hp. discriminate.
    + assert (a = b) as ->.
      { assert (a ∈ b :: k) as Hin by (rewrite <- Hp; left).
        assert (b ∈ a :: l) as Hin' by (rewrite Hp; left).
        apply elem_of_cons in Hin as [->|Hin]; [reflexivity|].
        apply elem_of_cons in Hin' as [->|Hin']; [reflexivity|].
        rewrite Forall_forall in Ha, Hb.
        apply String.leb_antisym; [apply Ha, Hin'|apply Hb, Hin]. }
      f_equal. apply IH; [exact Hk|]. eapply Permutation_cons_inv, Hp.
Qed.

Lemma sorted_canonical (l k : list string) : l ≡ₚ k -> sorted l = sorted k.
Proof.
  intros Hp. apply ascending_unique; try apply sorted_ascending.
  rewrite !sorted_perm. exact Hp.
Qed.

Lemma existing_remaining (priority columns : list string) :
  NoDup priority -> NoDup columns ->
  filter (.∈ columns) priority ++ filter (.∉ priority) columns ≡ₚ columns.
Proof.
  intros Hp Hc.
  transitivity (filter (.∈ priority) columns ++ filter (.∉ priority) columns);
    [|apply filter_app_complement].
  apply Permutation_app; [|reflexivity].
  apply NoDup_Permutation; try (apply NoDup_filter; assumption).
  intros x. rewrite !list_elem_of_filter. tauto.
Qed.

Lemma filter_iff_in {A} (P Q : A -> Prop)
    `{!forall x, Decision (P x), !forall x, Decision (Q x)} (l : list A) :
  (forall x, x ∈ l -> P x <-> Q x) -> filter P l = filter Q l.
Proof.
  induction l as [|a l IH]; intros Hpq; [reflexivity|].
  assert (filter P l = filter Q l) as E
    by (apply IH; intros x Hx; apply Hpq; right; exact Hx).
  destruct (decide (P a)) as [Ha|Ha].
  - rewrite !filter_cons_True; [congruence| |exact Ha]. apply Hpq; [left|exact Ha].
  - rewrite !filter_cons_False; [exact E| |exact Ha].
    intros Hq. apply Ha, Hpq; [left|exact Hq].
Qed.

Lemma remaining_cols_lap (priority columns : list string) :
  filter (.∉ filter (.∈ columns) priority) columns = filter (.∉ priority) columns.
Proof.
  apply filter_iff_in. intros x Hx.
  rewrite list_elem_of_filter. tauto.
Qed.

Lemma NoDup_col_order_priority : NoDup col_order_priority.
Proof. apply (bool_decide_unpack _). vm_compute. exact I. Qed.

Lemma NoDup_lap_col_order_priority : NoDup lap_col_order_priority.
Proof. apply (bool_decide_unpack _). vm_compute. exact I. Qed.

(** X22: the reordering of the columns loses and repeats nothing: the
    columns of the table [parse_fit] returns are those it had, without
    the dropped ones, and the columns of the lap table are those it had. *)
Theorem new_column_order_keeps_columns (columns : list string) :
  NoDup columns ->
  new_column_order columns ≡ₚ filter (.∉ columns_to_drop) columns
  /\ lap_new_column_order columns ≡ₚ columns.
Proof.
  intros Hc. split.
  - unfold new_column_order. rewrite sorted_perm.
    apply existing_remaining; [apply NoDup_col_order_priority|].
    apply NoDup_filter, Hc.
  - unfold lap_new_column_order. rewrite sorted_perm, remaining_cols_lap.
    apply existing_remaining; [apply NoDup_lap_col_order_priority|exact Hc].
Qed.

Lemma new_column_order_keeps_columns_witness :
  new_column_order ["zeta"; "distance"; "speed"; "alpha"; "timestamp"]%string
  ≡ₚ ["zeta"; "distance"; "alpha"; "timestamp"]%string.
Proof.
  destruct (new_column_order_keeps_columns
              ["zeta"; "distance"; "speed"; "alpha"; "timestamp"]%string) as [H _];
    [|exact H].
  apply (bool_decide_unpack _). vm_compute. exact I.
Defined.

(** X23: the order of the columns written does not depend on the order in
    which the decoder delivered the fields: two tables with the same
    columns in any order are written with the same column order. *)
Theorem new_column_order_canonical (columns columns' : list string) :
  columns ≡ₚ columns' ->
  new_column_order columns = new_column_order columns'
  /\ lap_new_column_order columns = lap_new_column_order columns'.
Proof.
  intros Hp. split.
  - unfold new_column_order. f_equal.
    + apply list_filter_iff. intros x. rewrite !list_elem_of_filter, Hp. tauto.
    + apply sorted_canonical. rewrite Hp. reflexivity.
  - unfold lap_new_column_order. rewrite !remaining_cols_lap. f_equal.
    + apply list_filter_iff. intros x. rewrite Hp. tauto.
    + apply sorted_canonical. rewrite Hp. reflexivity.
Qed.

Lemma new_column_order_canonical_witness :
  new_column_order ["zeta"; "distance"; "alpha"; "timestamp"]%string
  = new_column_order ["distance"; "zeta"; "alpha"; "timestamp"]%string.
Proof.
  destruct (new_column_order_canonical
              ["zeta"; "distance"; "alpha"; "timestamp"]%string
              ["distance"; "zeta"; "alpha"; "timestamp"]%string) as [H _];
    [apply Permutation_swap|exact H].
Defined.
